(** * Resharding oplog applier

    A shallow embedding of [src/mongo/db/s/resharding/resharding_oplog_applier.cpp]
    and the properties its design document states about it.

    Member functions of [ReshardingOplogApplier] become functions on a record
    holding the object's fields; exceptions ([uassert], [uasserted]) and
    aborts ([invariant], dereferencing a disengaged optional) become the
    constructors of [Result].  Collaborators whose code lives in other files
    of the server are either fields of a type class (the oplog entry
    serialiser and parsers, the hash of a session id, the routing rule of the
    generic oplog applier, the storage rules, the thread pool) or definitions
    that follow the design document and say so (the transaction participant,
    the node's oplog, the progress store). *)

From stdpp Require Import strings gmap list option.

(** ** Statuses and results *)

(** [ErrorCodes::Error]; 0 is [ErrorCodes::OK]. *)
Definition ErrorCode := Z.

Record Status := mkStatus { code : ErrorCode }.

#[global] Instance Status_eq_dec : EqDecision Status.
Proof. solve_decision. Defined.

Definition StatusOK : Status := mkStatus 0%Z.

Definition isOK (s : Status) : bool := bool_decide (code s = 0%Z).

(** The ways a call can end: it returns, it throws a [DBException] carrying
    an error code, it aborts the process (a failed [invariant], undefined
    behaviour such as [*boost::none]), or it never becomes ready (a future
    whose promise is never fulfilled). *)
Inductive Result (A : Type) : Type :=
| Ok (a : A)
| Threw (c : ErrorCode)
| Fatal
| Hang.
Arguments Ok {A} a.
Arguments Threw {A} c.
Arguments Fatal {A}.
Arguments Hang {A}.

#[global] Instance Result_ret : MRet Result := λ A a, Ok a.
#[global] Instance Result_bind : MBind Result := λ A B f r,
  match r with
  | Ok a => f a
  | Threw c => Threw c
  | Fatal => Fatal
  | Hang => Hang
  end.

Definition is_Ok {A} (r : Result A) : Prop := ∃ a, r = Ok a.

(** [uassert(code, msg, cond)] *)
Definition uassert (c : ErrorCode) (cond : bool) : Result unit :=
  if cond then Ok tt else Threw c.

(** [invariant(cond)] *)
Definition invariant (cond : bool) : Result unit :=
  if cond then Ok tt else Fatal.

(** [*opt] on a [boost::optional] *)
Definition deref {A} (o : option A) : Result A :=
  match o with Some a => Ok a | None => Fatal end.

(** ** BSON documents *)

#[warnings="-register-all"] Inductive BSONElement : Type :=
| BSONNumber (n : Z)
| BSONString (s : string)
| BSONBool (b : bool)
| BSONNull
| BSONObject (fields : list (string * BSONElement)).

Definition BSONObj : Type := list (string * BSONElement).

Definition BSONElement_eq_dec : ∀ x y : BSONElement, {x = y} + {x ≠ y}.
Proof.
  fix IH 1. intros x y. decide equality.
  - apply Z.eq_dec.
  - apply String.string_dec.
  - apply Bool.bool_dec.
  - apply List.list_eq_dec. intros p q. decide equality. apply String.string_dec.
Defined.

#[global] Instance BSONElement_EqDecision : EqDecision BSONElement := BSONElement_eq_dec.

(** [a.woCompare(b) == 0] *)
Definition woCompareEq (a b : BSONObj) : bool := bool_decide (a = b).

(** [const BSONObj kReshardingOplogTag(BSON("$resharding" << 1));] *)
Definition kReshardingOplogTag : BSONObj := [("$resharding"%string, BSONNumber 1)].

(** [BSON("$reshardingOplogApply" << 1)] *)
Definition kReshardingOplogApplyTag : BSONObj := [("$reshardingOplogApply"%string, BSONNumber 1)].

(** ** Oplog entries *)

Inductive OpTypeEnum := kCommand | kInsert | kUpdate | kDelete | kNoop.

#[global] Instance OpTypeEnum_eq_dec : EqDecision OpTypeEnum.
Proof. solve_decision. Defined.

Definition isCrudOpType (t : OpTypeEnum) : bool :=
  match t with kInsert | kUpdate | kDelete => true | _ => false end.

Definition Timestamp := N.
Definition Date_t := Z.
Definition TxnNumber := Z.
Definition StmtId := Z.
Definition UUID := N.
Definition ShardId := string.

Record OpTime := mkOpTime { opTimestamp : Timestamp; opTerm : Z }.

#[global] Instance OpTime_eq_dec : EqDecision OpTime.
Proof. solve_decision. Defined.

(** [OplogSlot()] / a default-constructed [repl::OpTime] *)
Definition nullOpTime : OpTime := mkOpTime 0%N (-1)%Z.
Definition isNull (t : OpTime) : bool := bool_decide (opTimestamp t = 0%N).

Record NamespaceString := mkNss { nss_db : string; nss_coll : string }.

#[global] Instance NamespaceString_eq_dec : EqDecision NamespaceString.
Proof. solve_decision. Defined.

#[global] Instance NamespaceString_countable : Countable NamespaceString.
Proof.
  refine (inj_countable' (λ n, (nss_db n, nss_coll n)) (λ p, mkNss p.1 p.2) _).
  by intros [].
Defined.

(** [NamespaceString()] / [{}] *)
Definition emptyNss : NamespaceString := mkNss "" "".

Record ReshardingSourceId := mkSourceId { reshardingUUID : UUID; sourceShardId : ShardId }.

#[global] Instance ReshardingSourceId_eq_dec : EqDecision ReshardingSourceId.
Proof. solve_decision. Defined.

#[global] Instance ReshardingSourceId_countable : Countable ReshardingSourceId.
Proof.
  refine (inj_countable' (λ s, (reshardingUUID s, sourceShardId s))
                         (λ p, mkSourceId p.1 p.2) _).
  by intros [].
Defined.

(** Modelled from the spec: the session identity, "a stable identifier
    scoping a client's retryable-write/transaction history".  Its declaration
    (logical_session_id.idl) is not in src/; the applier only compares it,
    hashes it and uses it as a map key. *)
Definition LogicalSessionId := UUID.

(** Modelled from the spec: the "identifying opaque token" of a change record
    (the resumption token).  Its declaration (donor_oplog_id.idl) is not in
    src/; the applier parses it from a record's [_id] and stores it. *)
Record ReshardingDonorOplogId := mkDonorOplogId { clusterTime : Timestamp; ts : Timestamp }.

#[global] Instance ReshardingDonorOplogId_eq_dec : EqDecision ReshardingDonorOplogId.
Proof. solve_decision. Defined.

Record OperationSessionInfo := mkSessionInfo {
  sessionId : option LogicalSessionId;
  txnNumber : option TxnNumber
}.

(** The fields of [repl::DurableOplogEntry], in the order of the constructor
    the applier calls. *)
Record DurableOplogEntry := mkDurable {
  opTime : OpTime;
  hash : option Z;
  opType : OpTypeEnum;
  nss : NamespaceString;
  uuid : option UUID;
  fromMigrate : option bool;
  version : Z;
  object : BSONObj;
  object2 : option BSONObj;
  sessionInfo : OperationSessionInfo;
  upsert : option bool;
  wallClockTime : Date_t;
  statementId : option StmtId;
  prevWriteOpTimeInTransaction : option OpTime;
  preImageOpTime : option OpTime;
  postImageOpTime : option OpTime;
  destinedRecipient : option ShardId;
  _id : option BSONObj
}.

(** [repl::OplogEntry]: the durable entry plus the attached pre/post image
    entries. *)
Record OplogEntry := mkOplogEntry {
  getEntry : DurableOplogEntry;
  getPreImageOp : option DurableOplogEntry;
  getPostImageOp : option DurableOplogEntry
}.

#[global] Instance OperationSessionInfo_eq_dec : EqDecision OperationSessionInfo.
Proof. solve_decision. Defined.
#[global] Instance DurableOplogEntry_eq_dec : EqDecision DurableOplogEntry.
Proof. solve_decision. Defined.
#[global] Instance OplogEntry_eq_dec : EqDecision OplogEntry.
Proof. solve_decision. Defined.

Definition getOpTime (o : OplogEntry) := opTime (getEntry o).
Definition getTimestamp (o : OplogEntry) := opTimestamp (opTime (getEntry o)).
Definition getHash (o : OplogEntry) := hash (getEntry o).
Definition getOpType (o : OplogEntry) := opType (getEntry o).
Definition getNss (o : OplogEntry) := nss (getEntry o).
Definition getUuid (o : OplogEntry) := uuid (getEntry o).
Definition getFromMigrate (o : OplogEntry) := fromMigrate (getEntry o).
Definition getVersion (o : OplogEntry) := version (getEntry o).
Definition getObject (o : OplogEntry) := object (getEntry o).
Definition getObject2 (o : OplogEntry) := object2 (getEntry o).
Definition getOperationSessionInfo (o : OplogEntry) := sessionInfo (getEntry o).
Definition getSessionId (o : OplogEntry) := sessionId (sessionInfo (getEntry o)).
Definition getTxnNumber (o : OplogEntry) := txnNumber (sessionInfo (getEntry o)).
Definition getUpsert (o : OplogEntry) := upsert (getEntry o).
Definition getWallClockTime (o : OplogEntry) := wallClockTime (getEntry o).
Definition getStatementId (o : OplogEntry) := statementId (getEntry o).
Definition getPrevWriteOpTimeInTransaction (o : OplogEntry) :=
  prevWriteOpTimeInTransaction (getEntry o).
Definition getPreImageOpTime (o : OplogEntry) := preImageOpTime (getEntry o).
Definition getPostImageOpTime (o : OplogEntry) := postImageOpTime (getEntry o).
Definition getDestinedRecipient (o : OplogEntry) := destinedRecipient (getEntry o).
Definition get_id (o : OplogEntry) := _id (getEntry o).

(** [repl::OplogEntry newOplog(durable)] followed by [setPreImageOp] and
    [setPostImageOp]. *)
Definition withImages (d : DurableOplogEntry) (pre post : option DurableOplogEntry)
  : OplogEntry := mkOplogEntry d pre post.

(** The setters of [repl::MutableOplogEntry] that the applier uses. *)
Definition setOpTime (v : OpTime) (e : DurableOplogEntry) : DurableOplogEntry :=
  mkDurable v (hash e) (opType e) (nss e) (uuid e) (fromMigrate e) (version e) (object e) (object2 e) (sessionInfo e) (upsert e) (wallClockTime e) (statementId e) (prevWriteOpTimeInTransaction e) (preImageOpTime e) (postImageOpTime e) (destinedRecipient e) (_id e).
Definition setOpType (v : OpTypeEnum) (e : DurableOplogEntry) : DurableOplogEntry :=
  mkDurable (opTime e) (hash e) v (nss e) (uuid e) (fromMigrate e) (version e) (object e) (object2 e) (sessionInfo e) (upsert e) (wallClockTime e) (statementId e) (prevWriteOpTimeInTransaction e) (preImageOpTime e) (postImageOpTime e) (destinedRecipient e) (_id e).
Definition setNss (v : NamespaceString) (e : DurableOplogEntry) : DurableOplogEntry :=
  mkDurable (opTime e) (hash e) (opType e) v (uuid e) (fromMigrate e) (version e) (object e) (object2 e) (sessionInfo e) (upsert e) (wallClockTime e) (statementId e) (prevWriteOpTimeInTransaction e) (preImageOpTime e) (postImageOpTime e) (destinedRecipient e) (_id e).
Definition setObject (v : BSONObj) (e : DurableOplogEntry) : DurableOplogEntry :=
  mkDurable (opTime e) (hash e) (opType e) (nss e) (uuid e) (fromMigrate e) (version e) v (object2 e) (sessionInfo e) (upsert e) (wallClockTime e) (statementId e) (prevWriteOpTimeInTransaction e) (preImageOpTime e) (postImageOpTime e) (destinedRecipient e) (_id e).
Definition setObject2 (v : option BSONObj) (e : DurableOplogEntry) : DurableOplogEntry :=
  mkDurable (opTime e) (hash e) (opType e) (nss e) (uuid e) (fromMigrate e) (version e) (object e) v (sessionInfo e) (upsert e) (wallClockTime e) (statementId e) (prevWriteOpTimeInTransaction e) (preImageOpTime e) (postImageOpTime e) (destinedRecipient e) (_id e).
Definition setWallClockTime (v : Date_t) (e : DurableOplogEntry) : DurableOplogEntry :=
  mkDurable (opTime e) (hash e) (opType e) (nss e) (uuid e) (fromMigrate e) (version e) (object e) (object2 e) (sessionInfo e) (upsert e) v (statementId e) (prevWriteOpTimeInTransaction e) (preImageOpTime e) (postImageOpTime e) (destinedRecipient e) (_id e).
Definition setPrevWriteOpTimeInTransaction (v : option OpTime) (e : DurableOplogEntry) : DurableOplogEntry :=
  mkDurable (opTime e) (hash e) (opType e) (nss e) (uuid e) (fromMigrate e) (version e) (object e) (object2 e) (sessionInfo e) (upsert e) (wallClockTime e) (statementId e) v (preImageOpTime e) (postImageOpTime e) (destinedRecipient e) (_id e).
Definition setPreImageOpTime (v : option OpTime) (e : DurableOplogEntry) : DurableOplogEntry :=
  mkDurable (opTime e) (hash e) (opType e) (nss e) (uuid e) (fromMigrate e) (version e) (object e) (object2 e) (sessionInfo e) (upsert e) (wallClockTime e) (statementId e) (prevWriteOpTimeInTransaction e) v (postImageOpTime e) (destinedRecipient e) (_id e).
Definition setPostImageOpTime (v : option OpTime) (e : DurableOplogEntry) : DurableOplogEntry :=
  mkDurable (opTime e) (hash e) (opType e) (nss e) (uuid e) (fromMigrate e) (version e) (object e) (object2 e) (sessionInfo e) (upsert e) (wallClockTime e) (statementId e) (prevWriteOpTimeInTransaction e) (preImageOpTime e) v (destinedRecipient e) (_id e).

(** [repl::OplogEntryOrGroupedInserts] *)
Inductive OplogEntryOrGroupedInserts :=
| SingleEntry (op : OplogEntry)
| GroupedInserts (first : OplogEntry) (rest : list OplogEntry).

Definition isGroupedInserts (e : OplogEntryOrGroupedInserts) : bool :=
  match e with SingleEntry _ => false | GroupedInserts _ _ => true end.

Definition getOp (e : OplogEntryOrGroupedInserts) : OplogEntry :=
  match e with SingleEntry op => op | GroupedInserts op _ => op end.

Abbreviation OplogBatch := (list OplogEntry).

(** What the applier asks of an oplog entry beyond its fields; these member
    functions are defined in oplog_entry.cpp and the IDL-generated parsers. *)
Class OplogEntryOps := {
  (** [DurableOplogEntry::toBSON] *)
  toBSON : DurableOplogEntry → BSONObj;
  (** [OplogEntry::shouldPrepare] *)
  shouldPrepare : OplogEntry → bool;
  (** [OplogEntry::isPreparedCommit] *)
  isPreparedCommit : OplogEntry → bool;
  (** [uassertStatusOK(repl::MutableOplogEntry::parse(bson))] *)
  parseOplogEntry : BSONObj → Result DurableOplogEntry;
  (** [ReshardingDonorOplogId::parse] on the document held by [_id];
      it throws on a document that is not a donor oplog id. *)
  parseDonorOplogId : BSONObj → Result ReshardingDonorOplogId
}.

(** [ReshardingOplogApplier::Stage] *)
Inductive Stage := kStarted | kErrorOccurred | kReachedCloningTS | kFinished.

#[global] Instance Stage_eq_dec : EqDecision Stage.
Proof. solve_decision. Defined.

(** The fields of a [ReshardingOplogApplier] that the functions below read or
    write.  [numThreads] is [_writerPool->getStats().numThreads]; [_oplogIter]
    is the sequence of batches the donor oplog iterator has yet to return
    (an exhausted iterator returns empty batches); the promise is [None]
    until it is made ready. *)
Record ReshardingOplogApplier := mkApplier {
  _sourceId : ReshardingSourceId;
  _nsBeingResharded : NamespaceString;
  _uuidBeingResharded : UUID;
  _outputNs : NamespaceString;
  _reshardingCloneFinishedTs : Timestamp;
  numThreads : nat;
  _oplogIter : list OplogBatch;
  _stage : Stage;
  _currentBatchToApply : OplogBatch;
  _currentDerivedOps : OplogBatch;
  _currentWriterVectors : list (list OplogEntry);
  _remainingWritersToWait : nat;
  _currentBatchConsolidatedStatus : Status;
  _currentApplyBatchPromise : option Status
}.

Definition set_oplogIter (v : list OplogBatch) (a : ReshardingOplogApplier) :=
  mkApplier (_sourceId a) (_nsBeingResharded a) (_uuidBeingResharded a) (_outputNs a)
    (_reshardingCloneFinishedTs a) (numThreads a) v (_stage a)
    (_currentBatchToApply a) (_currentDerivedOps a) (_currentWriterVectors a)
    (_remainingWritersToWait a) (_currentBatchConsolidatedStatus a)
    (_currentApplyBatchPromise a).

Definition set_stage (v : Stage) (a : ReshardingOplogApplier) :=
  mkApplier (_sourceId a) (_nsBeingResharded a) (_uuidBeingResharded a) (_outputNs a)
    (_reshardingCloneFinishedTs a) (numThreads a) (_oplogIter a) v
    (_currentBatchToApply a) (_currentDerivedOps a) (_currentWriterVectors a)
    (_remainingWritersToWait a) (_currentBatchConsolidatedStatus a)
    (_currentApplyBatchPromise a).

Definition set_currentBatchToApply (v : OplogBatch) (a : ReshardingOplogApplier) :=
  mkApplier (_sourceId a) (_nsBeingResharded a) (_uuidBeingResharded a) (_outputNs a)
    (_reshardingCloneFinishedTs a) (numThreads a) (_oplogIter a) (_stage a)
    v (_currentDerivedOps a) (_currentWriterVectors a)
    (_remainingWritersToWait a) (_currentBatchConsolidatedStatus a)
    (_currentApplyBatchPromise a).

Definition set_currentDerivedOps (v : OplogBatch) (a : ReshardingOplogApplier) :=
  mkApplier (_sourceId a) (_nsBeingResharded a) (_uuidBeingResharded a) (_outputNs a)
    (_reshardingCloneFinishedTs a) (numThreads a) (_oplogIter a) (_stage a)
    (_currentBatchToApply a) v (_currentWriterVectors a)
    (_remainingWritersToWait a) (_currentBatchConsolidatedStatus a)
    (_currentApplyBatchPromise a).

Definition set_currentWriterVectors (v : list (list OplogEntry)) (a : ReshardingOplogApplier) :=
  mkApplier (_sourceId a) (_nsBeingResharded a) (_uuidBeingResharded a) (_outputNs a)
    (_reshardingCloneFinishedTs a) (numThreads a) (_oplogIter a) (_stage a)
    (_currentBatchToApply a) (_currentDerivedOps a) v
    (_remainingWritersToWait a) (_currentBatchConsolidatedStatus a)
    (_currentApplyBatchPromise a).

(** The three fields guarded by [_mutex]. *)
Definition set_completion (remaining : nat) (st : Status) (promise : option Status)
    (a : ReshardingOplogApplier) :=
  mkApplier (_sourceId a) (_nsBeingResharded a) (_uuidBeingResharded a) (_outputNs a)
    (_reshardingCloneFinishedTs a) (numThreads a) (_oplogIter a) (_stage a)
    (_currentBatchToApply a) (_currentDerivedOps a) (_currentWriterVectors a)
    remaining st promise.

(** Hashing and routing that the partitioner takes from elsewhere. *)
Class WriterRouting := {
  (** [LogicalSessionIdHash] *)
  hasher : LogicalSessionId → nat;
  (** The slot that [repl::OplogApplierUtils::addToWriterVector] picks for a
      record, given the number of slots. *)
  getWriterId : OplogEntry → nat → nat;
  (** The [txnNum] of a default-constructed [RetryableOpsList]
      (resharding_oplog_applier.h is not in src/). *)
  kUninitializedTxnNumber : TxnNumber
}.

(** [RetryableOpsList] *)
Record RetryableOpsList := mkRetryableOpsList {
  txnNum : TxnNumber;
  ops : list OplogEntry
}.

Abbreviation WriterVectors := (list (list OplogEntry)).

(** [push_back(&op)] on the slot [writerId] of the writer vectors *)
Definition pushToWriter (writerId : nat) (op : OplogEntry) (writerVectors : WriterVectors)
  : WriterVectors := alter (λ w, w ++ [op]) writerId writerVectors.

(** [for (auto&& x : xs) body(x)] over a state, stopping at the first
    exception. *)
Fixpoint forEach {A S} (body : A → S → Result S) (xs : list A) (s : S) : Result S :=
  match xs with
  | [] => Ok s
  | x :: rest => s' ← body x s; forEach body rest s'
  end.

(** ** Stateful code: a state that survives exceptions *)

Definition M (S A : Type) : Type := S → S * Result A.

#[global] Instance M_ret {S} : MRet (M S) := λ A a s, (s, Ok a).
#[global] Instance M_bind {S} : MBind (M S) := λ A B f m s,
  match m s with
  | (s', Ok a) => f a s'
  | (s', Threw c) => (s', Threw c)
  | (s', Fatal) => (s', Fatal)
  | (s', Hang) => (s', Hang)
  end.

Definition liftR {S A} (r : Result A) : M S A := λ s, (s, r).
Definition gets {S A} (f : S → A) : M S A := λ s, (s, Ok (f s)).
Definition modify {S} (f : S → S) : M S unit := λ s, (f s, Ok tt).

(** A [WriteUnitOfWork]: the writes of a body that throws before
    [wunit.commit()] are rolled back. *)
Definition writeUnitOfWork {S A} (body : M S A) : M S A := λ s,
  match body s with
  | (s', Ok a) => (s', Ok a)
  | (_, r) => (s, r)
  end.

(** ** The node the records are applied to *)

(** [ErrorCodes::TransactionTooOld], [IncompleteTransactionHistory],
    [PreparedTransactionInProgress] *)
Definition TransactionTooOld : ErrorCode := 225%Z.
Definition IncompleteTransactionHistory : ErrorCode := 217%Z.
Definition PreparedTransactionInProgress : ErrorCode := 267%Z.

(** Modelled from the spec: the "target session/transaction bookkeeping" of
    one session, which [TransactionParticipant] (transaction_participant.cpp
    is not in src/) keeps: the transaction number in progress, the statement
    positions "recorded as executed", the session's "last-write position",
    and the two conditions behind the error codes the applier catches. *)
Record SessionState := mkSessionState {
  activeTxnNumber : TxnNumber;
  executedStatements : list StmtId;
  lastWriteOpTime : OpTime;
  hasIncompleteHistory : bool;
  inPreparedTransaction : bool
}.

(** The state the apply primitive works on: the operation context of the
    worker, the session catalog, the node's own oplog, its collections and
    the wall clock. *)
Record Node := mkNode {
  opCtx_lsid : option LogicalSessionId;
  opCtx_txnNumber : option TxnNumber;
  sessionCatalog : gmap LogicalSessionId SessionState;
  localOplog : list DurableOplogEntry;
  collections : gmap NamespaceString (list BSONObj);
  wallClock : Date_t
}.

Definition set_opCtx (l : option LogicalSessionId) (t : option TxnNumber) (n : Node) :=
  mkNode l t (sessionCatalog n) (localOplog n) (collections n) (wallClock n).
Definition set_sessionCatalog (v : gmap LogicalSessionId SessionState) (n : Node) :=
  mkNode (opCtx_lsid n) (opCtx_txnNumber n) v (localOplog n) (collections n) (wallClock n).
Definition set_localOplog (v : list DurableOplogEntry) (n : Node) :=
  mkNode (opCtx_lsid n) (opCtx_txnNumber n) (sessionCatalog n) v (collections n) (wallClock n).
Definition set_wallClock (v : Date_t) (n : Node) :=
  mkNode (opCtx_lsid n) (opCtx_txnNumber n) (sessionCatalog n) (localOplog n)
         (collections n) v.

(** [SessionTxnRecord] *)
Record SessionTxnRecord := mkSessionTxnRecord {
  rec_sessionId : LogicalSessionId;
  rec_txnNum : TxnNumber;
  rec_lastWriteOpTime : OpTime;
  rec_lastWriteDate : Date_t
}.

(** [ReshardingOplogApplierProgress] *)
Record ReshardingOplogApplierProgress := mkProgress {
  oplogSourceId : ReshardingSourceId;
  progress : ReshardingDonorOplogId
}.

(** Modelled from the spec: the persisted progress store, "a key/value
    upsert capability" with [upsertProgress(streamIdentity, token)] and
    [readProgress(streamIdentity) -> optional token]; [PersistentTaskStore]
    and [DBDirectClient] are not in src/.  The store (the collection
    [NamespaceString::kReshardingApplierProgressNamespace]) is the third
    component of an applier together with the node it runs on, apart from
    the collections the storage rules write. *)
Record System := mkSystem {
  applier : ReshardingOplogApplier;
  node : Node;
  progressStore : gmap ReshardingSourceId ReshardingDonorOplogId
}.

Definition onSelf {A} (m : M ReshardingOplogApplier A) : M System A := λ sys,
  let '(self, r) := m (applier sys) in (mkSystem self (node sys) (progressStore sys), r).

Definition onNode {A} (m : M Node A) : M System A := λ sys,
  let '(n, r) := m (node sys) in (mkSystem (applier sys) n (progressStore sys), r).

(** Modelled from the spec: [PersistentTaskStore::upsert] of the progress
    under the source id, the spec's [upsertProgress(streamIdentity, token)]. *)
Definition upsertProgress (id : ReshardingSourceId) (oplogId : ReshardingDonorOplogId)
  : M System unit :=
  modify (λ sys, mkSystem (applier sys) (node sys) (<[id := oplogId]> (progressStore sys))).

(** [for (auto&& x : xs) body(x)] in stateful code *)
Fixpoint forEachM {A S} (body : A → M S unit) (xs : list A) : M S unit :=
  match xs with
  | [] => mret tt
  | x :: rest => body x;; forEachM body rest
  end.

(** The storage rules and the thread pool, the applier's two other
    collaborators. *)
Class ApplicationRules := {
  (** [ReshardingOplogApplicationRules::applyOperation] *)
  applyOperation : OplogEntryOrGroupedInserts → M Node Status;
  (** [ReshardingOplogApplicationRules::applyCommand] *)
  applyCommand : OplogEntryOrGroupedInserts → M Node Status;
  (** The status [ThreadPool::schedule] hands to the task it was given for
      a writer vector. *)
  scheduleStatus : list OplogEntry → Status
}.

Section Model.
Context `{!OplogEntryOps} `{!WriterRouting} `{!ApplicationRules}.

(** ** Deriving the session record *)

(** [convertToNoOpWithReshardingTag] *)
Definition convertToNoOpWithReshardingTag (oplog : OplogEntry) : OplogEntry :=
  withImages
    (mkDurable (getOpTime oplog)
               (getHash oplog)
               kNoop
               (getNss oplog)
               None (* uuid *)
               (getFromMigrate oplog)
               (getVersion oplog)
               kReshardingOplogTag
               (* Set the o2 field with the original oplog. *)
               (Some (toBSON (getEntry oplog)))
               (getOperationSessionInfo oplog)
               (getUpsert oplog)
               (getWallClockTime oplog)
               (getStatementId oplog)
               (getPrevWriteOpTimeInTransaction oplog)
               (getPreImageOpTime oplog)
               (getPostImageOpTime oplog)
               (getDestinedRecipient oplog)
               (get_id oplog))
    (getPreImageOp oplog)
    (getPostImageOp oplog).

(** [isRetryableNoOp] *)
Definition isRetryableNoOp (e : OplogEntryOrGroupedInserts) : bool :=
  if isGroupedInserts e then false
  else if negb (bool_decide (getOpType (getOp e) = kNoop)) then false
  else woCompareEq (getObject (getOp e)) kReshardingOplogTag.

(** ** Buffering a fetched record *)

(** [ReshardingOplogApplier::_preProcessAndPushOpsToBuffer] *)
Definition _preProcessAndPushOpsToBuffer (oplog : OplogEntry)
  : M ReshardingOplogApplier unit := λ self,
  if negb (bool_decide (_nsBeingResharded self = getNss oplog)) then
    (self, Threw 5012002%Z)
  else if negb (bool_decide (Some (_uuidBeingResharded self) = getUuid oplog)) then
    (self, Threw 5012005%Z)
  else
    let newOplog :=
      withImages
        (mkDurable (getOpTime oplog)
                   (getHash oplog)
                   (getOpType oplog)
                   (_outputNs self)
                   None (* uuid *)
                   (getFromMigrate oplog)
                   (getVersion oplog)
                   (getObject oplog)
                   (getObject2 oplog)
                   (getOperationSessionInfo oplog)
                   (getUpsert oplog)
                   (getWallClockTime oplog)
                   (getStatementId oplog)
                   (getPrevWriteOpTimeInTransaction oplog)
                   (getPreImageOpTime oplog)
                   (getPostImageOpTime oplog)
                   (getDestinedRecipient oplog)
                   (get_id oplog))
        (getPreImageOp oplog)
        (getPostImageOp oplog) in
    (set_currentBatchToApply (_currentBatchToApply self ++ [newOplog]) self, Ok tt).

(** ** Partitioning a batch into writer vectors *)

(** Modelled from the spec: [repl::OplogApplierUtils::addToWriterVector]
    (oplog_applier_utils.cpp is not in src/), "the underlying per-namespace
    routing rule of the apply primitive": the record is appended to the slot
    the rule selects. *)
Definition addToWriterVector (op : OplogEntry) (writerVectors : WriterVectors)
  : WriterVectors :=
  pushToWriter (getWriterId op (length writerVectors)) op writerVectors.

(** [addDerivedOpsToWriterVector]: the body of its loop, then the loop. *)
Definition addDerivedOp (op : OplogEntry) (writerVectors : WriterVectors)
  : Result WriterVectors :=
  invariant (woCompareEq (getObject op) kReshardingOplogTag);;
  uassert 4990403%Z (bool_decide (is_Some (getSessionId op)));;
  sid ← deref (getSessionId op);
  (* [%] by zero *)
  invariant (negb (bool_decide (length writerVectors = 0)));;
  let writerId := hasher sid `mod` length writerVectors in
  Ok (pushToWriter writerId op writerVectors).

Definition addDerivedOpsToWriterVector (writerVectors : WriterVectors)
    (derivedOps : list OplogEntry) : Result WriterVectors :=
  forEach addDerivedOp derivedOps writerVectors.

(** [sessionTracker[*sessionId]]: a session not yet in the map reads as a
    default-constructed list. *)
Definition trackedOps (sessionTracker : gmap LogicalSessionId RetryableOpsList)
    (sid : LogicalSessionId) : RetryableOpsList :=
  default (mkRetryableOpsList kUninitializedTxnNumber []) (sessionTracker !! sid).

(** The body of the first loop of [_fillWriterVectors]. *)
Definition fillOne (op : OplogEntry)
    (st : WriterVectors * gmap LogicalSessionId RetryableOpsList)
  : Result (WriterVectors * gmap LogicalSessionId RetryableOpsList) :=
  let '(writerVectors, sessionTracker) := st in
  uassert 5012000%Z (negb (shouldPrepare op));;
  uassert 5012001%Z (negb (isPreparedCommit op));;
  if bool_decide (getOpType op = kNoop) then Ok (writerVectors, sessionTracker)
  else
    let writerVectors := addToWriterVector op writerVectors in
    match getSessionId op with
    | Some sid =>
        let retryableOpList := trackedOps sessionTracker sid in
        txnNumber ← deref (getTxnNumber op);
        if bool_decide (txnNum retryableOpList = txnNumber) then
          Ok (writerVectors,
              <[sid := mkRetryableOpsList (txnNum retryableOpList)
                                          (ops retryableOpList ++ [op])]> sessionTracker)
        else if bool_decide (txnNum retryableOpList < txnNumber)%Z then
          Ok (writerVectors, <[sid := mkRetryableOpsList txnNumber [op]]> sessionTracker)
        else
          (* the message of the exception reads [retryableOpList.ops.front()] *)
          deref (head (ops retryableOpList));;
          Threw 4990401%Z
    | None => Ok (writerVectors, sessionTracker)
    end.

(** The second loop: one derived record per tracked record.  The source
    iterates an unordered map; [map_to_list] fixes one order. *)
Definition deriveSessionOps (sessionTracker : gmap LogicalSessionId RetryableOpsList)
  : list OplogEntry :=
  '(_, l) ← map_to_list sessionTracker; convertToNoOpWithReshardingTag <$> ops l.

(** [ReshardingOplogApplier::_fillWriterVectors], called on
    [&_currentBatchToApply] and [&_currentDerivedOps].  The records pushed to
    the derived buffer stay there when the last step throws. *)
Definition _fillWriterVectors (self : ReshardingOplogApplier)
  : ReshardingOplogApplier * Result WriterVectors :=
  match forEach fillOne (_currentBatchToApply self) (replicate (numThreads self) [], ∅) with
  | Ok (writerVectors, sessionTracker) =>
      let self :=
        set_currentDerivedOps (_currentDerivedOps self ++ deriveSessionOps sessionTracker) self in
      (self, addDerivedOpsToWriterVector writerVectors (_currentDerivedOps self))
  | Threw c => (self, Threw c)
  | Fatal => (self, Fatal)
  | Hang => (self, Hang)
  end.

(** ** Applying a session record *)

Definition sessionOf (n : Node) (sid : LogicalSessionId) : SessionState :=
  default (mkSessionState kUninitializedTxnNumber [] nullOpTime false false)
          (sessionCatalog n !! sid).

Definition putSession (sid : LogicalSessionId) (s : SessionState) : M Node unit :=
  modify (λ n, set_sessionCatalog (<[sid := s]> (sessionCatalog n)) n).

(** Modelled from the spec: [TransactionParticipant::beginOrContinue], which
    "begins or resumes the target session/transaction bookkeeping"; a higher
    transaction number supersedes the state kept for the session, a lower one
    is refused. *)
Definition beginOrContinue (sid : LogicalSessionId) (txnNumber : TxnNumber) : M Node unit :=
  λ n,
  let s := sessionOf n sid in
  if bool_decide (txnNumber < activeTxnNumber s)%Z then (n, Threw TransactionTooOld)
  else if bool_decide (txnNumber = activeTxnNumber s) then (n, Ok tt)
  else if inPreparedTransaction s then (n, Threw PreparedTransactionInProgress)
  else putSession sid (mkSessionState txnNumber [] nullOpTime false false) n.

(** Modelled from the spec: [TransactionParticipant::checkStatementExecuted],
    whether "that statement position was already recorded as executed". *)
Definition checkStatementExecuted (sid : LogicalSessionId) (stmtId : StmtId) : M Node bool :=
  λ n,
  let s := sessionOf n sid in
  if bool_decide (stmtId ∈ executedStatements s) then (n, Ok true)
  else if hasIncompleteHistory s then (n, Threw IncompleteTransactionHistory)
  else (n, Ok false).

(** Modelled from the spec: [onExitPrepare()] followed by [wait()]; when the
    wait is over the session has no prepared transaction. *)
Definition awaitExitPrepare (sid : LogicalSessionId) : M Node unit :=
  λ n,
  let s := sessionOf n sid in
  putSession sid (mkSessionState (activeTxnNumber s) (executedStatements s)
                                 (lastWriteOpTime s) (hasIncompleteHistory s) false) n.

(** Modelled from the spec:
    [TransactionParticipant::onRetryableWriteCloningCompleted], which records
    the statements as executed and "updates the session's last-write
    position". *)
Definition onRetryableWriteCloningCompleted (sid : LogicalSessionId)
    (stmtIds : list StmtId) (sessionTxnRecord : SessionTxnRecord) : M Node unit :=
  λ n,
  let s := sessionOf n sid in
  putSession sid (mkSessionState (rec_txnNum sessionTxnRecord)
                                 (stmtIds ++ executedStatements s)
                                 (rec_lastWriteOpTime sessionTxnRecord)
                                 (hasIncompleteHistory s)
                                 (inPreparedTransaction s)) n.

(** Modelled from the spec: [repl::logOp], which "writes a marker record":
    the entry is appended to the node's oplog under the next optime. *)
Definition logOp (e : DurableOplogEntry) : M Node OpTime := λ n,
  let t := mkOpTime (N.of_nat (S (length (localOplog n)))) 0%Z in
  (set_localOplog (localOplog n ++ [setOpTime t e]) n, Ok t).

(** [insertPrePostImageOplogEntry] *)
Definition insertPrePostImageOplogEntry (prePostImageOp : DurableOplogEntry)
  : M Node OpTime :=
  liftR (uassert 4990408%Z (bool_decide (opType prePostImageOp = kNoop)));;
  noOpOplog ← liftR (parseOplogEntry (toBSON prePostImageOp));
  (* Reset OpTime so logOp() can assign a new one. *)
  let noOpOplog := setOpTime nullOpTime noOpOplog in
  now ← gets wallClock;
  let noOpOplog := setWallClockTime now noOpOplog in
  writeUnitOfWork (
    oplogOpTime ← logOp noOpOplog;
    liftR (uassert 4990409%Z (negb (isNull oplogOpTime)));;
    mret oplogOpTime).

(** The part of [insertOplogAndUpdateConfigForRetryable] after the [try]
    block. *)
Definition writeRetryableNoOp (oplog : OplogEntry) (sid : LogicalSessionId)
    (txnNumber : TxnNumber) (stmtId : StmtId) : M Node Status :=
  prePostImageOpTime ←
    match getPreImageOp oplog with
    | Some preImageOp => insertPrePostImageOplogEntry preImageOp
    | None =>
        match getPostImageOp oplog with
        | Some postImageOp => insertPrePostImageOplogEntry postImageOp
        | None => mret nullOpTime
        end
    end;
  let rawOplogBSON := toBSON (getEntry oplog) in
  noOpOplog ← liftR (parseOplogEntry rawOplogBSON);
  let noOpOplog := setObject2 (Some rawOplogBSON) noOpOplog in
  let noOpOplog := setNss emptyNss noOpOplog in
  let noOpOplog := setObject kReshardingOplogApplyTag noOpOplog in
  let noOpOplog :=
    match getPreImageOp oplog, getPostImageOp oplog with
    | Some _, _ => setPreImageOpTime (Some prePostImageOpTime) noOpOplog
    | None, Some _ => setPostImageOpTime (Some prePostImageOpTime) noOpOplog
    | None, None => noOpOplog
    end in
  lastWrite ← gets (λ n, lastWriteOpTime (sessionOf n sid));
  let noOpOplog := setPrevWriteOpTimeInTransaction (Some lastWrite) noOpOplog in
  let noOpOplog := setOpType kNoop noOpOplog in
  (* Reset OpTime so logOp() can assign a new one. *)
  let noOpOplog := setOpTime nullOpTime noOpOplog in
  now ← gets wallClock;
  let noOpOplog := setWallClockTime now noOpOplog in
  writeUnitOfWork (
    oplogOpTime ← logOp noOpOplog;
    liftR (uassert 4990402%Z (negb (isNull oplogOpTime)));;
    let sessionTxnRecord :=
      mkSessionTxnRecord sid txnNumber oplogOpTime (wallClockTime noOpOplog) in
    onRetryableWriteCloningCompleted sid [stmtId] sessionTxnRecord);;
  mret StatusOK.

(** [insertOplogAndUpdateConfigForRetryable].  The function calls itself
    after waiting for a prepared transaction to finish; [fuel] bounds the
    depth of these calls and an exhausted bound reads as a call that never
    returns.  The session checked out by [scopedSession] always has a
    transaction participant, so [uassert(4990400, ...)] passes. *)
Fixpoint insertOplogAndUpdateConfigForRetryable (fuel : nat) (oplog : OplogEntry)
  : M Node Status :=
  match fuel with
  | 0 => liftR Hang
  | S fuel =>
      txnNumber ← liftR (deref (getTxnNumber oplog));
      sid ← liftR (deref (getSessionId oplog));
      modify (set_opCtx (Some sid) (Some txnNumber));;
      stmtId ← liftR (deref (getStatementId oplog));
      ((λ n,
      match (beginOrContinue sid txnNumber;; checkStatementExecuted sid stmtId) n with
      | (n, Ok true) =>
          (* Skip the incoming statement because it has already been logged locally. *)
          (n, Ok StatusOK)
      | (n, Ok false) => writeRetryableNoOp oplog sid txnNumber stmtId n
      | (n, Threw c) =>
          if bool_decide (c = TransactionTooOld) then (n, Ok StatusOK)
          else if bool_decide (c = IncompleteTransactionHistory) then (n, Ok StatusOK)
          else if bool_decide (c = PreparedTransactionInProgress) then
            (awaitExitPrepare sid;; insertOplogAndUpdateConfigForRetryable fuel oplog) n
          else (n, Threw c)
      | (n, Fatal) => (n, Fatal)
      | (n, Hang) => (n, Hang)
      end) : M Node Status)
  end.

(** ** A worker *)

(** [ReshardingOplogApplier::_applyOplogEntryOrGroupedInserts].  Its two
    invariants read settings of the operation context that the model does
    not hold.  Two levels of the retry above are enough: after the wait the
    session has no prepared transaction. *)
Definition _applyOplogEntryOrGroupedInserts (entryOrGroupedInserts : OplogEntryOrGroupedInserts)
  : M Node Status :=
  let op := getOp entryOrGroupedInserts in
  if isRetryableNoOp entryOrGroupedInserts then
    insertOplogAndUpdateConfigForRetryable 2 (getOp entryOrGroupedInserts)
  else
    let opType := getOpType op in
    if bool_decide (opType = kNoop) then mret StatusOK
    else if isCrudOpType opType then applyOperation entryOrGroupedInserts
    else if bool_decide (opType = kCommand) then applyCommand entryOrGroupedInserts
    else liftR Fatal (* MONGO_UNREACHABLE *).

(** Modelled from the spec: [repl::OplogApplierUtils::applyOplogBatchCommon]
    (not in src/): "each worker applies its slot's records strictly in
    order", and a failure "aborts that slot's remaining records"; an
    exception of the apply function becomes the worker's status. *)
Fixpoint applyOplogBatchCommon (applyFunc : OplogEntryOrGroupedInserts → M Node Status)
    (ops : list OplogEntry) : M Node Status :=
  match ops with
  | [] => mret StatusOK
  | op :: rest => λ n,
      match applyFunc (SingleEntry op) n with
      | (n, Ok st) => if isOK st then applyOplogBatchCommon applyFunc rest n else (n, Ok st)
      | (n, Threw c) => (n, Ok (mkStatus c))
      | (n, Fatal) => (n, Fatal)
      | (n, Hang) => (n, Hang)
      end
  end.

(** [ReshardingOplogApplier::_applyOplogBatchPerWorker], on a fresh operation
    context. *)
Definition _applyOplogBatchPerWorker (ops : list OplogEntry) : M Node Status :=
  modify (set_opCtx None None);;
  applyOplogBatchCommon _applyOplogEntryOrGroupedInserts ops.

(** ** Completion accounting *)

(** [ReshardingOplogApplier::_onWriterVectorDone] *)
Definition _onWriterVectorDone (status : Status) : M ReshardingOplogApplier unit := λ self,
  if negb (bool_decide (0 < _remainingWritersToWait self)) then (self, Fatal) (* invariant *)
  else
    let remaining := _remainingWritersToWait self - 1 in
    let consolidated :=
      if negb (isOK status) then status else _currentBatchConsolidatedStatus self in
    let statusToReturn :=
      if bool_decide (remaining = 0) then Some consolidated else None in
    let self := set_completion remaining consolidated (_currentApplyBatchPromise self) self in
    match statusToReturn with
    | Some finalStatus =>
        (* [emplaceValue()] when the status is OK, [setError] otherwise *)
        (set_completion (_remainingWritersToWait self)
                        (_currentBatchConsolidatedStatus self) (Some finalStatus) self,
         Ok tt)
    | None => (self, Ok tt)
    end.

(** ** Applying a batch *)

(** The status a writer vector reports: an empty one is done at once, a
    scheduling failure is reported as it is, otherwise the worker's result. *)
Definition writerStatus (writer : list OplogEntry) : M System Status :=
  if bool_decide (writer = []) then mret StatusOK
  else
    let scheduled := scheduleStatus writer in
    if negb (isOK scheduled) then mret scheduled
    else onNode (_applyOplogBatchPerWorker writer).

Definition runWriter (writer : list OplogEntry) : M System unit :=
  status ← writerStatus writer;
  onSelf (_onWriterVectorDone status).

(** [ReshardingOplogApplier::_applyBatch], with the tasks of the pool run one
    after the other in the order they are scheduled.  The result is that of
    the returned future: an error status reads as an exception of the chain
    of continuations, a promise never made ready as [Hang]. *)
Definition _applyBatch : M System unit :=
  writerVectors ← onSelf _fillWriterVectors;
  onSelf (modify (set_currentWriterVectors writerVectors));;
  onSelf (modify (λ self,
    set_completion (length (_currentWriterVectors self)) StatusOK None self));;
  writers ← onSelf (gets _currentWriterVectors);
  forEachM runWriter writers;;
  promise ← onSelf (gets _currentApplyBatchPromise);
  match promise with
  | None => liftR Hang
  | Some finalStatus => if isOK finalStatus then mret tt else liftR (Threw (code finalStatus))
  end.

(** ** Progress *)

(** [ReshardingOplogApplier::checkStoredProgress] *)
Definition checkStoredProgress (sys : System) (id : ReshardingSourceId)
  : option ReshardingOplogApplierProgress :=
  match progressStore sys !! id with
  | None => None (* doc.isEmpty() *)
  | Some token => Some (mkProgress id token)
  end.

(** [ReshardingOplogApplier::_clearAppliedOpsAndStoreProgress] *)
Definition _clearAppliedOpsAndStoreProgress : M System Timestamp :=
  batch ← onSelf (gets _currentBatchToApply);
  lastOplog ← liftR (deref (list.last batch));
  idValue ← liftR (deref (get_id lastOplog));
  oplogId ← liftR (parseDonorOplogId idValue);
  let lastAppliedTs := getTimestamp lastOplog in
  sourceId ← onSelf (gets _sourceId);
  upsertProgress sourceId oplogId;;
  onSelf (modify (set_currentBatchToApply []));;
  onSelf (modify (set_currentDerivedOps []));;
  mret lastAppliedTs.

(** ** The pipeline *)

(** [ReshardingOplogApplier::_onError] *)
Definition _onError (status : Status) : M ReshardingOplogApplier Status :=
  modify (set_stage kErrorOccurred);;
  mret status.

(** [_oplogIter->getNextBatch(_executor)] *)
Definition getNextBatch : M ReshardingOplogApplier OplogBatch := λ self,
  match _oplogIter self with
  | [] => (self, Ok [])
  | batch :: rest => (set_oplogIter rest self, Ok batch)
  end.

(** The fourth continuation of [_scheduleNextBatch]: what to do once the
    batch has been applied. *)
Definition afterApply : M System bool :=
  batch ← onSelf (gets _currentBatchToApply);
  stage ← onSelf (gets _stage);
  if bool_decide (batch = []) then
    (* It is possible that there are no more oplog entries from the last point we
       resumed from. *)
    (if bool_decide (stage = kStarted) then onSelf (modify (set_stage kReachedCloningTS))
     else if bool_decide (stage = kReachedCloningTS) then onSelf (modify (set_stage kFinished))
     else mret tt);;
    mret false
  else
    lastAppliedTs ← _clearAppliedOpsAndStoreProgress;
    cloneFinishedTs ← onSelf (gets _reshardingCloneFinishedTs);
    if bool_decide (stage = kStarted) && bool_decide (cloneFinishedTs ≤ lastAppliedTs)%N then
      onSelf (modify (set_stage kReachedCloningTS));;
      mret false
    else mret true.

(** One pass of [_scheduleNextBatch], up to the decision to go on. *)
Definition scheduleOneBatch : M System bool :=
  batch ← onSelf getNextBatch;
  onSelf (forEachM _preProcessAndPushOpsToBuffer batch);;
  _applyBatch;;
  afterApply.

(** [ReshardingOplogApplier::_scheduleNextBatch]; [fuel] bounds the number of
    batches. *)
Fixpoint scheduleNextBatch (fuel : nat) : M System unit :=
  match fuel with
  | 0 => liftR Hang
  | S fuel =>
      moreToApply ← scheduleOneBatch;
      if negb moreToApply then mret tt
      else scheduleNextBatch fuel
  end.

(** Only a pass that found records to apply can ask for another: two passes
    more than the iterator has batches are enough, and a larger bound gives
    the same result. *)
Definition _scheduleNextBatch : M System unit := λ sys,
  scheduleNextBatch (2 + length (_oplogIter (applier sys))) sys.

(** [.then([this] { return _scheduleNextBatch(); }).onError(...)] *)
Definition runAndCatch (chain : M System unit) : M System Status := λ sys,
  match chain sys with
  | (sys, Ok _) => (sys, Ok StatusOK)
  | (sys, Threw c) => onSelf (_onError (mkStatus c)) sys
  | (sys, Fatal) => (sys, Fatal)
  | (sys, Hang) => (sys, Hang)
  end.

(** [ReshardingOplogApplier::applyUntilCloneFinishedTs] *)
Definition applyUntilCloneFinishedTs : M System Status :=
  stage ← onSelf (gets _stage);
  liftR (invariant (bool_decide (stage = kStarted)));;
  runAndCatch _scheduleNextBatch.

(** [ReshardingOplogApplier::applyUntilDone] *)
Definition applyUntilDone : M System Status :=
  stage ← onSelf (gets _stage);
  liftR (invariant (bool_decide (stage = kReachedCloningTS)));;
  runAndCatch _scheduleNextBatch.

(** ** Notions used to state the properties *)

(** The record [op] sits in slot [i] of the writer vectors. *)
Definition inSlot (op : OplogEntry) (i : nat) (writerVectors : WriterVectors) : Prop :=
  ∃ w, writerVectors !! i = Some w ∧ op ∈ w.

(** The status kept after a run of reports, starting from [init]. *)
Definition consolidate (init : Status) (statuses : list Status) : Status :=
  foldl (λ acc s, if isOK s then acc else s) init statuses.

(** Nothing is left to record for statement [stmt] of transaction [txn] in
    session [sid]: the session has moved past [txn], or it is at [txn] and
    the statement is recorded as executed or its history is incomplete. *)
Definition settled (sid : LogicalSessionId) (txn : TxnNumber) (stmt : StmtId) (n : Node)
  : Prop :=
  (txn < activeTxnNumber (sessionOf n sid))%Z
  ∨ (txn = activeTxnNumber (sessionOf n sid)
     ∧ (stmt ∈ executedStatements (sessionOf n sid)
        ∨ hasIncompleteHistory (sessionOf n sid) = true)).

(** The passes [scheduleNextBatch] needs from [sys]. *)
Definition passesNeeded (sys : System) : nat :=
  length (_oplogIter (applier sys))
  + (if bool_decide (_currentBatchToApply (applier sys) = []) then 1 else 2).

(** The records of slot [i] among [n]: a record of the batch is routed there
    when it is not a no-op and the routing rule picks [i]; a derived record
    when its session hashes to [i]. *)
Definition routedTo (n i : nat) (op : OplogEntry) : Prop :=
  getOpType op ≠ kNoop ∧ getWriterId op n = i.

Definition hashedTo (n i : nat) (d : OplogEntry) : Prop :=
  (λ sid, hasher sid `mod` n) <$> getSessionId d = Some i.

(** The record [op] is a statement of transaction [txn] of session [sid] that
    the partitioner tracks. *)
Definition tracked (sid : LogicalSessionId) (txn : TxnNumber) (op : OplogEntry) : Prop :=
  getOpType op ≠ kNoop ∧ getSessionId op = Some sid ∧ getTxnNumber op = Some txn.

#[global] Instance routedTo_dec n i op : Decision (routedTo n i op).
Proof. unfold routedTo. apply _. Defined.
#[global] Instance hashedTo_dec n i d : Decision (hashedTo n i d).
Proof. unfold hashedTo. apply _. Defined.
#[global] Instance tracked_dec sid txn op : Decision (tracked sid txn op).
Proof. unfold tracked. apply _. Defined.

(** The record [op] belongs to the last transaction of its session in
    [batch]: no tracked record of the session has a greater number. *)
Definition inLastTxn (batch : list OplogEntry) (op : OplogEntry) : Prop :=
  ∃ sid txn,
    tracked sid txn op
    ∧ ∀ op' txn', op' ∈ batch → tracked sid txn' op' → (txn' ≤ txn)%Z.

(** What the session tracker holds after the scan of [scanned]. *)
Definition tracksExactly (sessionTracker : gmap LogicalSessionId RetryableOpsList)
    (scanned : list OplogEntry) : Prop :=
  ∀ sid,
    ops (trackedOps sessionTracker sid)
    = filter (tracked sid (txnNum (trackedOps sessionTracker sid))) scanned
    ∧ (∀ op txn, op ∈ scanned → tracked sid txn op →
         (txn ≤ txnNum (trackedOps sessionTracker sid))%Z
         ∧ ops (trackedOps sessionTracker sid) ≠ []).

(** The record [oplog] is one of the collection being resharded: the two
    conditions [_preProcessAndPushOpsToBuffer] asserts. *)
Definition belongs (self : ReshardingOplogApplier) (oplog : OplogEntry) : Prop :=
  _nsBeingResharded self = getNss oplog ∧ Some (_uuidBeingResharded self) = getUuid oplog.

#[global] Instance belongs_dec self oplog : Decision (belongs self oplog).
Proof. unfold belongs. apply _. Defined.

(** The copy of [oplog] under the namespace [outputNs] and without UUID. *)
Definition reshardedCopy (outputNs : NamespaceString) (oplog : OplogEntry) : OplogEntry :=
  mkOplogEntry
    (mkDurable (getOpTime oplog) (getHash oplog) (getOpType oplog) outputNs None
               (getFromMigrate oplog) (getVersion oplog) (getObject oplog)
               (getObject2 oplog) (getOperationSessionInfo oplog) (getUpsert oplog)
               (getWallClockTime oplog) (getStatementId oplog)
               (getPrevWriteOpTimeInTransaction oplog) (getPreImageOpTime oplog)
               (getPostImageOpTime oplog) (getDestinedRecipient oplog) (get_id oplog))
    (getPreImageOp oplog) (getPostImageOp oplog).

(** The settings of an applier, which it is constructed with. *)
Definition settings (a : ReshardingOplogApplier) :=
  (_sourceId a, _nsBeingResharded a, _uuidBeingResharded a, _outputNs a,
   _reshardingCloneFinishedTs a, numThreads a).

(** What a run of the pipeline leaves alone: the settings and the progress
    of the other sources; the iterator only advances. *)
Definition framed (sys sys' : System) : Prop :=
  settings (applier sys') = settings (applier sys)
  ∧ _oplogIter (applier sys') `suffix_of` _oplogIter (applier sys)
  ∧ ∀ other, other ≠ _sourceId (applier sys) →
             progressStore sys' !! other = progressStore sys !! other.

(** The stage a run of [_scheduleNextBatch] that completes leaves, by the
    stage it started in. *)
Definition stageReached (sys sys' : System) : Prop :=
  (_stage (applier sys) = kStarted → _stage (applier sys') = kReachedCloningTS)
  ∧ (_stage (applier sys) = kReachedCloningTS →
     _stage (applier sys') = kFinished ∧ _currentBatchToApply (applier sys') = []).

(** The state of session [sid] that a record of transaction [txn] is written
    on when the session is not past [txn]: its own when it is at [txn], a
    fresh one when [txn] is newer. *)
Definition sessionFor (sid : LogicalSessionId) (txn : TxnNumber) (n : Node) : SessionState :=
  if bool_decide (txn = activeTxnNumber (sessionOf n sid)) then sessionOf n sid
  else mkSessionState txn [] nullOpTime false false.

(** The pass started in [sys'] with [fuel'] is reached from [sys] with
    [fuel] after passes that each asked for another. *)
Inductive continues : nat → System → nat → System → Prop :=
| continues_here fuel sys : continues fuel sys fuel sys
| continues_next fuel sys sys1 fuel' sys' :
    scheduleOneBatch sys = (sys1, Ok true) →
    continues fuel sys1 fuel' sys' →
    continues (S fuel) sys fuel' sys'.

End Model.

(** ** A small instance of the collaborators

    Used to run the definitions on concrete batches. *)

Module Demo.

(** A serialiser that keeps the version, the namespace and the payload. *)
Definition demo_toBSON (e : DurableOplogEntry) : BSONObj :=
  [("v"%string, BSONNumber (version e));
   ("ns"%string, BSONString (nss_db (nss e) +:+ "." +:+ nss_coll (nss e)));
   ("o"%string, BSONObject (object e))].

Definition demo_parseOplogEntry (b : BSONObj) : Result DurableOplogEntry :=
  match b with
  | [(_, BSONNumber v); (_, BSONString _); (_, BSONObject o)] =>
      Ok (mkDurable nullOpTime None kNoop emptyNss None None v o None
                    (mkSessionInfo None None) None 0%Z None None None None None None)
  | _ => Threw 40414%Z
  end.

Definition demo_parseDonorOplogId (b : BSONObj) : Result ReshardingDonorOplogId :=
  match b with
  | [(_, BSONNumber c); (_, BSONNumber t)] => Ok (mkDonorOplogId (Z.to_N c) (Z.to_N t))
  | _ => Threw 40414%Z
  end.

(** An [applyOps] command carrying [prepare: true]. *)
Definition demo_shouldPrepare (op : OplogEntry) : bool :=
  bool_decide (getOpType op = kCommand)
  && bool_decide (("prepare"%string, BSONBool true) ∈ getObject op).

(** A [commitTransaction] command. *)
Definition demo_isPreparedCommit (op : OplogEntry) : bool :=
  bool_decide (getOpType op = kCommand)
  && bool_decide (("commitTransaction"%string, BSONNumber 1) ∈ getObject op).

Definition ops : OplogEntryOps :=
  {| toBSON := demo_toBSON;
     parseOplogEntry := demo_parseOplogEntry;
     shouldPrepare := demo_shouldPrepare;
     isPreparedCommit := demo_isPreparedCommit;
     parseDonorOplogId := demo_parseDonorOplogId |}.

(** A routing rule by namespace alone, as the generic applier uses for a
    collection whose documents it does not tell apart. *)
Definition routing : WriterRouting :=
  {| hasher := λ sid, N.to_nat sid;
     getWriterId := λ op n, String.length (nss_coll (getNss op)) `mod` n;
     kUninitializedTxnNumber := (-1)%Z |}.

(** Storage rules that insert into an existing collection and refuse a
    missing one with [NamespaceNotFound]. *)
Definition demo_applyOperation (e : OplogEntryOrGroupedInserts) : M Node Status := λ n,
  match collections n !! getNss (getOp e) with
  | None => (n, Ok (mkStatus 26%Z))
  | Some docs =>
      (mkNode (opCtx_lsid n) (opCtx_txnNumber n) (sessionCatalog n) (localOplog n)
              (<[getNss (getOp e) := docs ++ [getObject (getOp e)]]> (collections n))
              (wallClock n),
       Ok StatusOK)
  end.

Definition rules : ApplicationRules :=
  {| applyOperation := demo_applyOperation;
     applyCommand := λ _, mret StatusOK;
     scheduleStatus := λ _, StatusOK |}.

Definition outputNs : NamespaceString := mkNss "test" "system.resharding.7".
Definition sourceNs : NamespaceString := mkNss "test" "coll".
Definition sourceId : ReshardingSourceId := mkSourceId 7%N "shard0".

(** A record of the source collection: operation type, timestamp, session,
    transaction number, statement id and payload. *)
Definition entry (t : OpTypeEnum) (time : N) (sid : option LogicalSessionId)
    (txn : option TxnNumber) (stmt : option StmtId) (o : BSONObj) : OplogEntry :=
  mkOplogEntry
    (mkDurable (mkOpTime time 1%Z) None t sourceNs (Some 7%N) None 2%Z o None
               (mkSessionInfo sid txn) None 0%Z stmt None None None None
               (Some [("clusterTime"%string, BSONNumber (Z.of_N time));
                      ("ts"%string, BSONNumber (Z.of_N time))]))
    None None.

(** The same record as the applier buffers it. *)
Definition buffered (t : OpTypeEnum) (time : N) (sid : option LogicalSessionId)
    (txn : option TxnNumber) (stmt : option StmtId) (o : BSONObj) : OplogEntry :=
  mkOplogEntry
    (setNss outputNs (mkDurable (mkOpTime time 1%Z) None t sourceNs None None 2%Z o None
               (mkSessionInfo sid txn) None 0%Z stmt None None None None
               (Some [("clusterTime"%string, BSONNumber (Z.of_N time));
                      ("ts"%string, BSONNumber (Z.of_N time))])))
    None None.

(** An applier with [n] writer threads, in stage [st], about to fetch
    [batches], with [buffer] already buffered. *)
Definition applierWith (n : nat) (st : Stage) (batches : list OplogBatch)
    (buffer : OplogBatch) : ReshardingOplogApplier :=
  mkApplier sourceId sourceNs 7%N outputNs 100%N n batches st buffer [] [] 0 StatusOK None.

Definition emptyNode : Node := mkNode None None ∅ [] ∅ 0%Z.

(** A node that has the output collection. *)
Definition readyNode : Node := mkNode None None ∅ [] {[outputNs := []]} 0%Z.

(** Two statements of transaction 1 of session 2, then one of transaction 3
    of the same session, as the applier buffers them; the session hashes to
    slot 0 of two, the output namespace routes to slot 1. *)
Definition s2t1a : OplogEntry := buffered kInsert 5%N (Some 2%N) (Some 1%Z) (Some 0%Z) [].
Definition s2t1b : OplogEntry := buffered kUpdate 6%N (Some 2%N) (Some 1%Z) (Some 1%Z) [].
Definition s2t3 : OplogEntry := buffered kInsert 7%N (Some 2%N) (Some 3%Z) (Some 0%Z) [].

(** A prepared [applyOps]. *)
Definition prepared : OplogEntry :=
  buffered kCommand 8%N (Some 2%N) (Some 4%Z) None
           [("applyOps"%string, BSONNull); ("prepare"%string, BSONBool true)].

(** An insert outside any session, as the donor sends it. *)
Definition plainInsert : OplogEntry :=
  entry kInsert 9%N None None None [("_id"%string, BSONNumber 1)].

End Demo.

(** * Properties *)

Section Properties.
Context `{!OplogEntryOps} `{!WriterRouting} `{!ApplicationRules}.

(** C6 (as amended): the record derived from [oplog] is a no-op whose object
    is the resharding tag and whose [o2] is the serialised original; its
    collection UUID is cleared while its namespace is the original's; the
    pre-image and post-image optimes and entries, and every other field, are
    the original's. *)
Theorem convertToNoOpWithReshardingTag_fields (oplog : OplogEntry) :
  let derived := convertToNoOpWithReshardingTag oplog in
  getOpType derived = kNoop
  ∧ getObject derived = kReshardingOplogTag
  ∧ getObject2 derived = Some (toBSON (getEntry oplog))
  ∧ getNss derived = getNss oplog
  ∧ getUuid derived = None
  ∧ getPreImageOpTime derived = getPreImageOpTime oplog
  ∧ getPostImageOpTime derived = getPostImageOpTime oplog
  ∧ getPreImageOp derived = getPreImageOp oplog
  ∧ getPostImageOp derived = getPostImageOp oplog
  ∧ getOperationSessionInfo derived = getOperationSessionInfo oplog
  ∧ getStatementId derived = getStatementId oplog
  ∧ getOpTime derived = getOpTime oplog
  ∧ getHash derived = getHash oplog
  ∧ getFromMigrate derived = getFromMigrate oplog
  ∧ getVersion derived = getVersion oplog
  ∧ getUpsert derived = getUpsert oplog
  ∧ getWallClockTime derived = getWallClockTime oplog
  ∧ getPrevWriteOpTimeInTransaction derived = getPrevWriteOpTimeInTransaction oplog
  ∧ getDestinedRecipient derived = getDestinedRecipient oplog
  ∧ get_id derived = get_id oplog.
Proof. cbv zeta. repeat split. Qed.

(** C10: buffering a fetched record throws exactly when its namespace is not
    the one being resharded or its collection UUID is not the one being
    resharded (then nothing is buffered); otherwise the record is appended to
    the buffer with the output namespace, no UUID, and every other field
    unchanged. *)
Theorem preProcess_accepts_iff (self : ReshardingOplogApplier) (oplog : OplogEntry) :
  let r := _preProcessAndPushOpsToBuffer oplog self in
  ((∃ c, r.2 = Threw c)
     ↔ (getNss oplog ≠ _nsBeingResharded self
        ∨ getUuid oplog ≠ Some (_uuidBeingResharded self)))
  ∧ ((∃ c, r.2 = Threw c) → r.1 = self)
  ∧ ((¬ ∃ c, r.2 = Threw c) →
     ∃ newOplog,
       r = (set_currentBatchToApply (_currentBatchToApply self ++ [newOplog]) self, Ok tt)
       ∧ getNss newOplog = _outputNs self
       ∧ getUuid newOplog = None
       ∧ getOpType newOplog = getOpType oplog
       ∧ getObject newOplog = getObject oplog
       ∧ getObject2 newOplog = getObject2 oplog
       ∧ getOperationSessionInfo newOplog = getOperationSessionInfo oplog
       ∧ getStatementId newOplog = getStatementId oplog
       ∧ getPreImageOpTime newOplog = getPreImageOpTime oplog
       ∧ getPostImageOpTime newOplog = getPostImageOpTime oplog
       ∧ getPreImageOp newOplog = getPreImageOp oplog
       ∧ getPostImageOp newOplog = getPostImageOp oplog
       ∧ getDestinedRecipient newOplog = getDestinedRecipient oplog
       ∧ get_id newOplog = get_id oplog
       ∧ getOpTime newOplog = getOpTime oplog
       ∧ getHash newOplog = getHash oplog
       ∧ getFromMigrate newOplog = getFromMigrate oplog
       ∧ getVersion newOplog = getVersion oplog
       ∧ getUpsert newOplog = getUpsert oplog
       ∧ getWallClockTime newOplog = getWallClockTime oplog
       ∧ getPrevWriteOpTimeInTransaction newOplog = getPrevWriteOpTimeInTransaction oplog).
Proof.
  cbv zeta. unfold _preProcessAndPushOpsToBuffer.
  destruct (decide (_nsBeingResharded self = getNss oplog)) as [Hns|Hns].
  - rewrite (bool_decide_eq_true_2 _ Hns). simpl.
    destruct (decide (Some (_uuidBeingResharded self) = getUuid oplog)) as [Hu|Hu].
    + rewrite (bool_decide_eq_true_2 _ Hu). simpl. split; [|split].
      * split; [intros [c Hc]; discriminate | intros [Hne|Hne]; congruence].
      * intros [c Hc]; discriminate.
      * intros _. eexists. split; [reflexivity|]. repeat split.
    + rewrite (bool_decide_eq_false_2 _ Hu). simpl. split; [|split].
      * split; [intros _; right; congruence | eauto].
      * done.
      * intros Hn. exfalso. apply Hn. eauto.
  - rewrite (bool_decide_eq_false_2 _ Hns). simpl. split; [|split].
    + split; [intros _; left; congruence | eauto].
    + done.
    + intros Hn. exfalso. apply Hn. eauto.
Qed.

(** ** The partitioner *)

Lemma forEach_app {A S} (body : A → S → Result S) (xs ys : list A) (s : S) :
  forEach body (xs ++ ys) s = (s' ← forEach body xs s; forEach body ys s').
Proof.
  revert s. induction xs as [|x xs IH]; intros s; simpl; [done|].
  destruct (body x s); simpl; auto.
Qed.

Lemma pushToWriter_length i op wv : length (pushToWriter i op wv) = length wv.
Proof. unfold pushToWriter. by rewrite length_alter. Qed.

Lemma inSlot_push_mono x i j op wv : inSlot x i wv → inSlot x i (pushToWriter j op wv).
Proof.
  intros (w & Hw & Hx). unfold inSlot, pushToWriter.
  destruct (decide (j = i)) as [->|Hne].
  - exists (w ++ [op]). rewrite list_lookup_alter_eq, Hw. split; [done|set_solver].
  - exists w. by rewrite list_lookup_alter_ne.
Qed.

Lemma inSlot_push_here i op wv : i < length wv → inSlot op i (pushToWriter i op wv).
Proof.
  intros Hi. destruct (lookup_lt_is_Some_2 wv i Hi) as [w Hw].
  exists (w ++ [op]). unfold pushToWriter.
  rewrite list_lookup_alter_eq, Hw. split; [done|set_solver].
Qed.

Lemma fillOne_Ok op wv t wv' t' :
  fillOne op (wv, t) = Ok (wv', t') →
  length wv' = length wv
  ∧ (∀ x i, inSlot x i wv → inSlot x i wv')
  ∧ (getOpType op ≠ kNoop →
     getWriterId op (length wv) < length wv → inSlot op (getWriterId op (length wv)) wv').
Proof.
  unfold fillOne, uassert.
  destruct (shouldPrepare op); simpl; [discriminate|].
  destruct (isPreparedCommit op); simpl; [discriminate|].
  case_bool_decide as Hnoop.
  { intros [= <- <-]. split; [done|]. split; [done|]. done. }
  assert (Hlen : length (addToWriterVector op wv) = length wv)
    by apply pushToWriter_length.
  assert (Hmono : ∀ x i, inSlot x i wv → inSlot x i (addToWriterVector op wv))
    by (intros; by apply inSlot_push_mono).
  assert (Hhere : getWriterId op (length wv) < length wv →
                  inSlot op (getWriterId op (length wv)) (addToWriterVector op wv))
    by (intros; by apply inSlot_push_here).
  destruct (getSessionId op) as [sid|]; [|by intros [= <- <-]].
  destruct (getTxnNumber op) as [txn|]; simpl; [|discriminate].
  repeat case_bool_decide; simpl.
  - by intros [= <- <-].
  - by intros [= <- <-].
  - destruct (head _); simpl; discriminate.
Qed.

Lemma forEach_fillOne_Ok batch wv t wv' t' :
  forEach fillOne batch (wv, t) = Ok (wv', t') →
  length wv' = length wv
  ∧ (∀ x i, inSlot x i wv → inSlot x i wv')
  ∧ (∀ op, op ∈ batch → getOpType op ≠ kNoop →
     getWriterId op (length wv) < length wv → inSlot op (getWriterId op (length wv)) wv').
Proof.
  revert wv t. induction batch as [|op batch IH]; intros wv t; cbn [forEach].
  - intros [= <- <-]. split; [done|]. split; [done|]. intros op Hop. by apply elem_of_nil in Hop.
  - destruct (fillOne op (wv, t)) as [[wv1 t1]| | |] eqn:Hone; simpl; try discriminate.
    intros Hrest. apply fillOne_Ok in Hone as (Hl1 & Hm1 & Hh1).
    apply IH in Hrest as (Hl2 & Hm2 & Hh2).
    split; [congruence|]. split; [auto|].
    intros x [->|Hx]%elem_of_cons Hnoop Hlt.
    + auto.
    + rewrite <- Hl1. apply Hh2; [done|done|]. by rewrite Hl1.
Qed.

Lemma addDerivedOp_Ok op wv wv' :
  addDerivedOp op wv = Ok wv' →
  length wv' = length wv
  ∧ (∀ x i, inSlot x i wv → inSlot x i wv')
  ∧ ∃ sid, getSessionId op = Some sid ∧ inSlot op (hasher sid `mod` length wv) wv'.
Proof.
  unfold addDerivedOp, invariant, uassert.
  destruct (woCompareEq _ _); simpl; [|discriminate].
  destruct (getSessionId op) as [sid|]; simpl; [|discriminate].
  case_bool_decide as Hz; simpl; [discriminate|].
  intros [= <-]. split; [apply pushToWriter_length|].
  split; [intros; by apply inSlot_push_mono|].
  exists sid. split; [done|]. apply inSlot_push_here.
  apply Nat.mod_upper_bound. done.
Qed.

Lemma addDerivedOps_Ok derivedOps wv wv' :
  addDerivedOpsToWriterVector wv derivedOps = Ok wv' →
  length wv' = length wv
  ∧ (∀ x i, inSlot x i wv → inSlot x i wv')
  ∧ ∀ d, d ∈ derivedOps →
      ∃ sid, getSessionId d = Some sid ∧ inSlot d (hasher sid `mod` length wv) wv'.
Proof.
  unfold addDerivedOpsToWriterVector. revert wv.
  induction derivedOps as [|op rest IH]; intros wv; cbn [forEach].
  - intros [= <-]. split; [done|]. split; [done|]. intros d Hd. by apply elem_of_nil in Hd.
  - destruct (addDerivedOp op wv) as [wv1| | |] eqn:Hone; simpl; try discriminate.
    intros Hrest. apply addDerivedOp_Ok in Hone as (Hl1 & Hm1 & sid & Hsid & Hin).
    apply IH in Hrest as (Hl2 & Hm2 & Hd2).
    split; [congruence|]. split; [auto|].
    intros d [->|Hd]%elem_of_cons.
    + exists sid. split; [done|]. auto.
    + destruct (Hd2 d Hd) as (sid' & Hs' & Hin'). exists sid'. split; [done|].
      by rewrite <- Hl1.
Qed.

(** C1 (as amended): when partitioning succeeds there is one slot per writer
    thread; every derived record carries a session id and sits in the slot
    [hasher sid mod numThreads] of its session, so the derived records of one
    session share a slot; every record of the batch that is not a no-op,
    with or without a session id, sits in the slot that the routing rule of
    [addToWriterVector] gives it. *)
Theorem fillWriterVectors_routing (self self' : ReshardingOplogApplier) (wv : WriterVectors) :
  _fillWriterVectors self = (self', Ok wv) →
  length wv = numThreads self
  ∧ (∀ d, d ∈ _currentDerivedOps self' →
       ∃ sid, getSessionId d = Some sid
              ∧ inSlot d (hasher sid `mod` numThreads self) wv)
  ∧ (∀ op, op ∈ _currentBatchToApply self →
       getOpType op ≠ kNoop →
       getWriterId op (numThreads self) < numThreads self →
       inSlot op (getWriterId op (numThreads self)) wv).
Proof.
  unfold _fillWriterVectors.
  destruct (forEach fillOne _ _) as [[wv1 t1]| | |] eqn:Hloop; try (intros [= _ ?]; discriminate).
  intros [= <- Hadd]. simpl in *.
  apply forEach_fillOne_Ok in Hloop as (Hl1 & _ & Hh1).
  rewrite length_replicate in Hl1, Hh1.
  replace (_currentDerivedOps (set_currentDerivedOps _ self)) with
      (_currentDerivedOps self ++ deriveSessionOps t1) in Hadd by done.
  apply addDerivedOps_Ok in Hadd as (Hl2 & Hm2 & Hd2).
  rewrite Hl1 in *.
  split; [done|]. split; [exact Hd2|].
  intros op Hop Hnoop Hlt. apply Hm2. by apply Hh1.
Qed.

Lemma fillOne_tracker_nonempty op wv t wv' t' :
  fillOne op (wv, t) = Ok (wv', t') →
  (∀ sid l, t !! sid = Some l → ops l ≠ []) →
  ∀ sid l, t' !! sid = Some l → ops l ≠ [].
Proof.
  unfold fillOne, uassert.
  destruct (shouldPrepare op); simpl; [discriminate|].
  destruct (isPreparedCommit op); simpl; [discriminate|].
  case_bool_decide; [by intros [= <- <-]|].
  destruct (getSessionId op) as [sid|]; [|by intros [= <- <-]].
  destruct (getTxnNumber op) as [txn|]; simpl; [|discriminate].
  repeat case_bool_decide; simpl.
  - intros [= <- <-] Hinv sid' l. rewrite lookup_insert.
    case_decide; [|by eauto]. intros [= <-]. simpl. by destruct (ops _).
  - intros [= <- <-] Hinv sid' l. rewrite lookup_insert.
    case_decide; [|by eauto]. by intros [= <-].
  - destruct (head _); simpl; discriminate.
Qed.

Lemma forEach_fillOne_tracker_nonempty batch wv t wv' t' :
  forEach fillOne batch (wv, t) = Ok (wv', t') →
  (∀ sid l, t !! sid = Some l → ops l ≠ []) →
  ∀ sid l, t' !! sid = Some l → ops l ≠ [].
Proof.
  revert wv t. induction batch as [|op batch IH]; intros wv t; cbn [forEach].
  - by intros [= <- <-].
  - destruct (fillOne op (wv, t)) as [[wv1 t1]| | |] eqn:Hone; simpl; try discriminate.
    intros Hrest Hinv. eapply IH; [done|]. by eapply fillOne_tracker_nonempty.
Qed.

(** C2: let [op] be a record of the batch that is partitioned (not a no-op,
    not part of a prepared transaction) and carries the session id [sid] and
    the transaction number [txn], and let the scan of the records before it
    have left the tracker in state [tracker].  If [txn] equals the tracked
    number of [sid], [op] is appended to the tracked list; if it is greater,
    the tracked list becomes just [op] under the number [txn]; if it is
    smaller, partitioning fails: it throws 4990401 (out of order txnNum), or,
    for a session not seen before in the batch, aborts while building the
    message. *)
Theorem fillWriterVectors_session_tracking (self : ReshardingOplogApplier)
    (pre post : list OplogEntry) (op : OplogEntry) (wv : WriterVectors)
    (tracker : gmap LogicalSessionId RetryableOpsList)
    (sid : LogicalSessionId) (txn : TxnNumber) :
  _currentBatchToApply self = pre ++ op :: post →
  forEach fillOne pre (replicate (numThreads self) [], ∅) = Ok (wv, tracker) →
  shouldPrepare op = false →
  isPreparedCommit op = false →
  getOpType op ≠ kNoop →
  getSessionId op = Some sid →
  getTxnNumber op = Some txn →
  let tracked := trackedOps tracker sid in
  (txn = txnNum tracked →
     forEach fillOne (pre ++ [op]) (replicate (numThreads self) [], ∅) =
     Ok (addToWriterVector op wv,
         <[sid := mkRetryableOpsList (txnNum tracked) (ops tracked ++ [op])]> tracker))
  ∧ ((txnNum tracked < txn)%Z →
     forEach fillOne (pre ++ [op]) (replicate (numThreads self) [], ∅) =
     Ok (addToWriterVector op wv, <[sid := mkRetryableOpsList txn [op]]> tracker))
  ∧ ((txn < txnNum tracked)%Z →
     _fillWriterVectors self =
     (self, match tracker !! sid with Some _ => Threw 4990401%Z | None => Fatal end)).
Proof.
  intros Hbatch Hpre Hprep Hcommit Hnoop Hsid Htxn tracked.
  assert (Hone : ∀ rest,
    forEach fillOne (pre ++ op :: rest) (replicate (numThreads self) [], ∅) =
    (s' ← fillOne op (wv, tracker); forEach fillOne rest s')).
  { intros rest. by rewrite forEach_app, Hpre. }
  assert (Hbody : fillOne op (wv, tracker) =
    if bool_decide (txnNum tracked = txn) then
      Ok (addToWriterVector op wv,
          <[sid := mkRetryableOpsList (txnNum tracked) (ops tracked ++ [op])]> tracker)
    else if bool_decide (txnNum tracked < txn)%Z then
      Ok (addToWriterVector op wv, <[sid := mkRetryableOpsList txn [op]]> tracker)
    else deref (head (ops tracked));; Threw 4990401%Z).
  { unfold fillOne, uassert. rewrite Hprep, Hcommit. simpl.
    rewrite bool_decide_eq_false_2 by done. by rewrite Hsid, Htxn. }
  split; [|split].
  - intros Heq. rewrite Hone, Hbody.
    by rewrite bool_decide_eq_true_2.
  - intros Hlt. rewrite Hone, Hbody.
    rewrite bool_decide_eq_false_2 by lia. by rewrite bool_decide_eq_true_2.
  - intros Hgt. unfold _fillWriterVectors. rewrite Hbatch, Hone, Hbody.
    rewrite bool_decide_eq_false_2 by lia. rewrite bool_decide_eq_false_2 by lia.
    subst tracked. unfold trackedOps.
    destruct (tracker !! sid) as [l|] eqn:Hl; simpl; [|done].
    assert (ops l ≠ []) as Hne.
    { eapply forEach_fillOne_tracker_nonempty; [exact Hpre| |exact Hl].
      intros ? ?. by rewrite lookup_empty. }
    by destruct (ops l).
Qed.

Lemma forEach_fillOne_prepared batch st :
  (∃ op, op ∈ batch ∧ (shouldPrepare op = true ∨ isPreparedCommit op = true)) →
  ¬ is_Ok (forEach fillOne batch st).
Proof.
  revert st. induction batch as [|x batch IH]; intros st (op & Hin & Hprep).
  - by apply elem_of_nil in Hin.
  - cbn [forEach]. destruct (fillOne x st) as [st1| | |] eqn:Hx; simpl;
      try (intros [? ?]; discriminate).
    apply elem_of_cons in Hin as [->|Hin].
    + exfalso. destruct st as [wv t]. unfold fillOne, uassert in Hx.
      destruct (shouldPrepare x); simpl in Hx; [discriminate|].
      destruct Hprep as [?|Hc]; [done|]. rewrite Hc in Hx. discriminate.
    + apply IH. eauto.
Qed.

Lemma forEach_fillOne_codes batch st c :
  (∀ op, op ∈ batch → shouldPrepare op = false ∧ isPreparedCommit op = false) →
  forEach fillOne batch st = Threw c → c = 4990401%Z.
Proof.
  revert st. induction batch as [|x batch IH]; intros st Hall; cbn [forEach]; [done|].
  destruct (fillOne x st) as [st1| | |] eqn:Hx; simpl; try done.
  - apply IH. intros op Hop. apply Hall. by right.
  - intros [= <-]. destruct st as [wv t]. unfold fillOne, uassert in Hx.
    destruct (Hall x) as [Hp Hc]; [by left|]. rewrite Hp, Hc in Hx. simpl in Hx.
    case_bool_decide; [done|].
    destruct (getSessionId x); [|done].
    destruct (getTxnNumber x); simpl in Hx; [|done].
    repeat case_bool_decide; try done.
    destruct (head _); simpl in Hx; congruence.
Qed.

Lemma addDerivedOps_codes derivedOps wv c :
  addDerivedOpsToWriterVector wv derivedOps = Threw c → c = 4990403%Z.
Proof.
  unfold addDerivedOpsToWriterVector. revert wv.
  induction derivedOps as [|op rest IH]; intros wv; cbn [forEach]; [done|].
  destruct (addDerivedOp op wv) as [wv1| | |] eqn:Hone; simpl; try done.
  - apply IH.
  - intros [= <-]. unfold addDerivedOp, invariant, uassert in Hone.
    destruct (woCompareEq _ _); simpl in Hone; [|done].
    destruct (getSessionId op); simpl in Hone; [|congruence].
    case_bool_decide; simpl in Hone; done.
Qed.

(** C9: a batch holding a record of a prepared transaction (one that should
    prepare, or a prepared commit) is not partitioned: [_fillWriterVectors]
    ends in an error and hands back no writer vectors, and [_applyBatch] ends
    in that error with the applier, its writer vectors and the node as they
    were, so that no record of the batch is handed to a worker slot; the
    error is 5012000 or 5012001 as soon as the scan gets to such a record.
    A batch without such a record never ends in 5012000 or 5012001. *)
Theorem fillWriterVectors_prepared (self : ReshardingOplogApplier) :
  let batch := _currentBatchToApply self in
  ((∃ op, op ∈ batch ∧ (shouldPrepare op = true ∨ isPreparedCommit op = true)) →
     (∃ r, _fillWriterVectors self = (self, r) ∧ ¬ is_Ok r)
     ∧ (∀ sys, applier sys = self → ∃ r, _applyBatch sys = (sys, r) ∧ ¬ is_Ok r))
  ∧ (∀ pre op post st,
       batch = pre ++ op :: post →
       forEach fillOne pre (replicate (numThreads self) [], ∅) = Ok st →
       shouldPrepare op = true ∨ isPreparedCommit op = true →
       _fillWriterVectors self =
       (self, Threw (if shouldPrepare op then 5012000%Z else 5012001%Z)))
  ∧ ((∀ op, op ∈ batch → shouldPrepare op = false ∧ isPreparedCommit op = false) →
     (_fillWriterVectors self).2 ≠ Threw 5012000%Z
     ∧ (_fillWriterVectors self).2 ≠ Threw 5012001%Z).
Proof.
  cbv zeta. split; [|split].
  - intros Hprep.
    pose proof (forEach_fillOne_prepared _ (replicate (numThreads self) [], ∅) Hprep) as Hno.
    assert (∃ r, _fillWriterVectors self = (self, r) ∧ ¬ is_Ok r) as (r & Hr & Hnr).
    { unfold _fillWriterVectors.
      destruct (forEach fillOne _ _) as [[wv t]| | |].
      - exfalso. apply Hno. by eexists.
      - eexists. split; [done|]. intros [? ?]; discriminate.
      - eexists. split; [done|]. intros [? ?]; discriminate.
      - eexists. split; [done|]. intros [? ?]; discriminate. }
    split; [by eauto|].
    intros [a n ps] Ha. simpl in Ha. subst a.
    unfold _applyBatch, mbind, M_bind, onSelf. simpl. rewrite Hr.
    destruct r as [wv| | |].
    + exfalso. apply Hnr. by eexists.
    + eexists. split; [done|]. intros [? ?]; discriminate.
    + eexists. split; [done|]. intros [? ?]; discriminate.
    + eexists. split; [done|]. intros [? ?]; discriminate.
  - intros pre op post st Hbatch Hpre Hprep.
    unfold _fillWriterVectors. rewrite Hbatch, forEach_app, Hpre. simpl.
    destruct st as [wv t]. unfold fillOne, uassert.
    destruct (shouldPrepare op); simpl; [done|].
    destruct Hprep as [? | ->]; [done|]. done.
  - intros Hall. unfold _fillWriterVectors.
    destruct (forEach fillOne _ _) as [[wv t]|c| |] eqn:Hloop; simpl.
    + split; intros Hc; apply addDerivedOps_codes in Hc; discriminate.
    + apply forEach_fillOne_codes in Hloop; [|done]. subst c. split; discriminate.
    + split; discriminate.
    + split; discriminate.
Qed.

(** ** Completion accounting *)

Lemma consolidate_all_ok init statuses :
  Forall (λ s, isOK s = true) statuses → consolidate init statuses = init.
Proof.
  unfold consolidate. revert init.
  induction statuses as [|s rest IH]; intros init Hall; simpl; [done|].
  inversion Hall as [|? ? Hs Hrest]; subst. rewrite Hs. by apply IH.
Qed.

Lemma consolidate_last_error init pre e post :
  isOK e = false → Forall (λ s, isOK s = true) post →
  consolidate init (pre ++ e :: post) = e.
Proof.
  intros He Hpost. unfold consolidate. rewrite foldl_app. simpl. rewrite He.
  by apply consolidate_all_ok.
Qed.

Lemma onWriterVectorDone_pending status self :
  1 < _remainingWritersToWait self →
  _onWriterVectorDone status self =
  (set_completion (_remainingWritersToWait self - 1)
                  (consolidate (_currentBatchConsolidatedStatus self) [status])
                  (_currentApplyBatchPromise self) self, Ok tt).
Proof.
  intros Hr. unfold _onWriterVectorDone.
  rewrite bool_decide_eq_true_2 by lia. simpl.
  rewrite bool_decide_eq_false_2 by lia. simpl.
  by destruct (isOK status).
Qed.

Lemma onWriterVectorDone_last status self :
  _remainingWritersToWait self = 1 →
  _onWriterVectorDone status self =
  (set_completion 0
                  (consolidate (_currentBatchConsolidatedStatus self) [status])
                  (Some (consolidate (_currentBatchConsolidatedStatus self) [status]))
                  self, Ok tt).
Proof.
  intros Hr. unfold _onWriterVectorDone. rewrite Hr. simpl.
  by destruct (isOK status).
Qed.

Lemma onWriterVectorDone_prefix statuses self :
  length statuses < _remainingWritersToWait self →
  forEachM _onWriterVectorDone statuses self =
  (set_completion (_remainingWritersToWait self - length statuses)
                  (consolidate (_currentBatchConsolidatedStatus self) statuses)
                  (_currentApplyBatchPromise self) self, Ok tt).
Proof.
  revert self. induction statuses as [|s rest IH]; intros self Hlen.
  - simpl. rewrite Nat.sub_0_r. by destruct self.
  - simpl in Hlen. cbn [forEachM]. unfold mbind at 1, M_bind.
    rewrite onWriterVectorDone_pending by lia.
    rewrite IH by (unfold set_completion; simpl; lia).
    unfold set_completion; simpl.
    by replace (_remainingWritersToWait self - 1 - length rest)
      with (_remainingWritersToWait self - S (length rest)) by lia.
Qed.

Lemma onWriterVectorDone_all statuses self :
  statuses ≠ [] →
  length statuses = _remainingWritersToWait self →
  forEachM _onWriterVectorDone statuses self =
  (set_completion 0
                  (consolidate (_currentBatchConsolidatedStatus self) statuses)
                  (Some (consolidate (_currentBatchConsolidatedStatus self) statuses))
                  self, Ok tt).
Proof.
  revert self. induction statuses as [|s rest IH]; intros self Hne Hlen; [done|].
  simpl in Hlen. cbn [forEachM]. unfold mbind at 1, M_bind.
  destruct rest as [|s' rest'].
  - rewrite onWriterVectorDone_last by done. by destruct self.
  - rewrite onWriterVectorDone_pending by (simpl in Hlen; lia).
    rewrite IH; [|done|unfold set_completion; simpl in *; lia]. done.
Qed.

(** C5 (as amended): when as many statuses are reported as there are writers
    to wait for, nothing is delivered before the last report, and the last
    report delivers the consolidated status to the promise: OK when every
    report was OK, and otherwise the last status that was not OK, which the
    successes after it do not clear (an error reported after an earlier
    error replaces it). *)
Theorem onWriterVectorDone_delivers (self : ReshardingOplogApplier) (statuses : list Status) :
  statuses ≠ [] →
  _remainingWritersToWait self = length statuses →
  _currentBatchConsolidatedStatus self = StatusOK →
  _currentApplyBatchPromise self = None →
  (∀ k, k < length statuses →
     ∃ self_k, forEachM _onWriterVectorDone (take k statuses) self = (self_k, Ok tt)
               ∧ _currentApplyBatchPromise self_k = None
               ∧ _remainingWritersToWait self_k = length statuses - k)
  ∧ ∃ self' final,
      forEachM _onWriterVectorDone statuses self = (self', Ok tt)
      ∧ _remainingWritersToWait self' = 0
      ∧ _currentApplyBatchPromise self' = Some final
      ∧ (Forall (λ s, isOK s = true) statuses → final = StatusOK)
      ∧ (∀ pre e post, statuses = pre ++ e :: post →
           isOK e = false → Forall (λ s, isOK s = true) post → final = e).
Proof.
  intros Hne Hrem Hcons Hprom. split.
  - intros k Hk. eexists. split; [|split].
    + apply onWriterVectorDone_prefix. rewrite length_take. lia.
    + by destruct self.
    + destruct self; simpl in *. rewrite length_take. lia.
  - eexists _, _. split; [by apply onWriterVectorDone_all|].
    split; [by destruct self|]. split; [by destruct self|]. rewrite Hcons. split.
    + apply consolidate_all_ok.
    + intros pre e post -> He Hpost. by apply consolidate_last_error.
Qed.

(** ** Progress *)

(** C7: on a buffer whose last record carries a donor oplog id, the
    checkpoint stores that id under the applier's source id, empties the
    batch buffer and the derived buffer, leaves the node alone and returns
    the timestamp of the last record; [checkStoredProgress] finds nothing
    for a source id without an entry, and after the checkpoint it finds
    exactly the id just stored. *)
Theorem clearAppliedOpsAndStoreProgress_checkpoint (sys : System)
    (lastOplog : OplogEntry) (idValue : BSONObj) (token : ReshardingDonorOplogId) :
  list.last (_currentBatchToApply (applier sys)) = Some lastOplog →
  get_id lastOplog = Some idValue →
  parseDonorOplogId idValue = Ok token →
  let id := _sourceId (applier sys) in
  (progressStore sys !! id = None → checkStoredProgress sys id = None)
  ∧ ∃ sys',
      _clearAppliedOpsAndStoreProgress sys = (sys', Ok (getTimestamp lastOplog))
      ∧ progressStore sys' = <[id := token]> (progressStore sys)
      ∧ applier sys' = set_currentDerivedOps [] (set_currentBatchToApply [] (applier sys))
      ∧ _currentBatchToApply (applier sys') = []
      ∧ _currentDerivedOps (applier sys') = []
      ∧ node sys' = node sys
      ∧ checkStoredProgress sys' id = Some (mkProgress id token)
      ∧ (∀ other, other ≠ id → checkStoredProgress sys' other = checkStoredProgress sys other).
Proof.
  intros Hlast Hid Hparse id. split.
  - intros Hnone. unfold checkStoredProgress. by rewrite Hnone.
  - eexists. split.
    + unfold _clearAppliedOpsAndStoreProgress, mbind, M_bind, onSelf, gets, liftR,
        upsertProgress, modify. simpl.
      rewrite Hlast. simpl. rewrite Hid. simpl. rewrite Hparse. simpl. reflexivity.
    + simpl. repeat split.
      * unfold checkStoredProgress. simpl. fold id. by rewrite lookup_insert_eq.
      * intros other Hother. unfold checkStoredProgress. simpl. fold id.
        by rewrite lookup_insert_ne.
Qed.

(** ** The pipeline *)

Lemma runWriters_all_empty ws sys :
  Forall (λ w, w = []) ws →
  forEachM runWriter ws sys =
  onSelf (forEachM _onWriterVectorDone (replicate (length ws) StatusOK)) sys.
Proof.
  revert sys. induction ws as [|w ws IH]; intros sys Hall.
  - by destruct sys.
  - inversion Hall as [|? ? Hw Hws]; subst. cbn [forEachM length replicate].
    unfold mbind at 1, M_bind. unfold runWriter at 1, writerStatus.
    unfold mbind at 1, M_bind. simpl.
    unfold onSelf at 1. unfold onSelf at 1. unfold mbind, M_bind.
    destruct (_onWriterVectorDone StatusOK (applier sys)) as [self1 [[]| | |]]; try done.
    rewrite IH by done. done.
Qed.

Lemma fillWriterVectors_nothing_buffered (self : ReshardingOplogApplier) :
  _currentBatchToApply self = [] →
  _currentDerivedOps self = [] →
  _fillWriterVectors self = (self, Ok (replicate (numThreads self) [])).
Proof.
  intros Hbatch Hderived. unfold _fillWriterVectors. rewrite Hbatch. cbn [forEach].
  rewrite Hderived. unfold deriveSessionOps. rewrite map_to_list_empty.
  destruct self; simpl in *. by subst.
Qed.

Lemma applyBatch_nothing_buffered (sys : System) :
  _currentBatchToApply (applier sys) = [] →
  _currentDerivedOps (applier sys) = [] →
  0 < numThreads (applier sys) →
  _applyBatch sys =
  (mkSystem (set_completion 0 StatusOK (Some StatusOK)
               (set_currentWriterVectors (replicate (numThreads (applier sys)) [])
                                         (applier sys)))
            (node sys) (progressStore sys), Ok tt).
Proof.
  intros Hbatch Hderived Hn. destruct sys as [self n ps]. cbn [applier node progressStore] in *.
  unfold _applyBatch. unfold mbind at 1, M_bind.
  unfold onSelf at 1. cbn [applier node progressStore].
  rewrite fillWriterVectors_nothing_buffered by done.
  unfold mbind at 1, M_bind. unfold onSelf at 1, modify. cbn [applier node progressStore].
  unfold mbind at 1, M_bind. unfold onSelf at 1, modify. cbn [applier node progressStore].
  unfold mbind at 1, M_bind. unfold onSelf at 1, gets. cbn [applier node progressStore].
  unfold mbind at 1, M_bind.
  replace (_currentWriterVectors _) with (replicate (numThreads self) (@nil OplogEntry))
    by (by destruct self).
  rewrite runWriters_all_empty by (by apply Forall_replicate).
  unfold onSelf at 1. cbn [applier node progressStore].
  rewrite onWriterVectorDone_all.
  2:{ rewrite length_replicate. by destruct (numThreads self); [lia|]. }
  2:{ destruct self; simpl. by rewrite !length_replicate. }
  rewrite consolidate_all_ok by (by apply Forall_replicate).
  destruct self; simpl in *. reflexivity.
Qed.

(** C8 (as amended): when the applier is in stage [kStarted], nothing is
    buffered and the batch it fetches is empty, [applyUntilCloneFinishedTs]
    does not fail: it completes with OK, applies nothing, writes no progress,
    and itself moves the stage to [kReachedCloningTS]. *)
Theorem empty_batch_reaches_cloning_ts (sys : System) :
  _stage (applier sys) = kStarted →
  head (_oplogIter (applier sys)) = None ∨ head (_oplogIter (applier sys)) = Some [] →
  _currentBatchToApply (applier sys) = [] →
  _currentDerivedOps (applier sys) = [] →
  0 < numThreads (applier sys) →
  ∃ sys',
    applyUntilCloneFinishedTs sys = (sys', Ok StatusOK)
    ∧ _stage (applier sys') = kReachedCloningTS
    ∧ progressStore sys' = progressStore sys
    ∧ node sys' = node sys
    ∧ _currentBatchToApply (applier sys') = []
    ∧ _oplogIter (applier sys') = tail (_oplogIter (applier sys)).
Proof.
  intros Hstage Hiter Hbatch Hderived Hn.
  destruct sys as [self n ps]. cbn [applier node progressStore] in *.
  assert (onSelf getNextBatch (mkSystem self n ps) =
          (mkSystem (set_oplogIter (tail (_oplogIter self)) self) n ps, Ok []))
    as Hfetch.
  { unfold onSelf, getNextBatch. cbn [applier node progressStore].
    destruct (_oplogIter self) as [|b rest] eqn:Hit.
    - destruct self; simpl in *. by subst.
    - destruct Hiter as [Hi|Hi]; [done|]. simpl in Hi. by injection Hi as ->. }
  unfold applyUntilCloneFinishedTs.
  unfold mbind at 1, M_bind. unfold onSelf at 1, gets. cbn [applier node progressStore].
  rewrite Hstage. unfold mbind at 1, M_bind. cbn [liftR invariant bool_decide decide_rel].
  rewrite bool_decide_eq_true_2 by done.
  unfold runAndCatch, _scheduleNextBatch. cbn [Nat.add scheduleNextBatch].
  unfold mbind at 1, M_bind. unfold scheduleOneBatch.
  unfold mbind at 1, M_bind. rewrite Hfetch. cbn [forEachM].
  unfold mbind at 1, M_bind. unfold onSelf at 1. cbn [applier node progressStore mret M_ret].
  unfold mbind at 1, M_bind.
  rewrite applyBatch_nothing_buffered; cbn [applier node progressStore];
    [|by destruct self..].
  destruct self. simpl in *. subst.
  eexists. split; [reflexivity|]. simpl. done.
Qed.

Lemma forEachM_app {A S} (body : A → M S unit) (xs ys : list A) (s : S) :
  forEachM body (xs ++ ys) s = (forEachM body xs;; forEachM body ys) s.
Proof.
  revert s. induction xs as [|x xs IH]; intros s.
  - simpl. unfold mbind, M_bind, mret, M_ret. by destruct (forEachM body ys s) as [? []].
  - cbn [app forEachM]. unfold mbind, M_bind in *.
    destruct (body x s) as [s1 [[]| | |]]; done.
Qed.

Lemma onWriterVectorDone_Ok st self self' :
  _onWriterVectorDone st self = (self', Ok tt) →
  0 < _remainingWritersToWait self
  ∧ _currentBatchConsolidatedStatus self' =
      (if isOK st then _currentBatchConsolidatedStatus self else st)
  ∧ _remainingWritersToWait self' = _remainingWritersToWait self - 1
  ∧ _currentApplyBatchPromise self' =
      (if bool_decide (_remainingWritersToWait self - 1 = 0)
       then Some (_currentBatchConsolidatedStatus self')
       else _currentApplyBatchPromise self)
  ∧ self' = set_completion (_remainingWritersToWait self')
              (_currentBatchConsolidatedStatus self')
              (_currentApplyBatchPromise self') self.
Proof.
  unfold _onWriterVectorDone. case_bool_decide as Hr; simpl; [|discriminate].
  split; [done|]. destruct self; simpl in *.
  case_bool_decide; simpl in H2; injection H2 as <-; simpl; destruct (isOK st); done.
Qed.

Lemma writerStatus_frame w sys sys1 r :
  writerStatus w sys = (sys1, r) →
  applier sys1 = applier sys ∧ progressStore sys1 = progressStore sys.
Proof.
  unfold writerStatus. case_bool_decide.
  { intros [= <- _]. done. }
  destruct (negb _).
  { intros [= <- _]. done. }
  unfold onNode. destruct (_applyOplogBatchPerWorker w (node sys)).
  intros [= <- _]. done.
Qed.

Lemma runWriter_Ok w sys sys' :
  runWriter w sys = (sys', Ok tt) →
  ∃ sys1 st,
    writerStatus w sys = (sys1, Ok st)
    ∧ _onWriterVectorDone st (applier sys) = (applier sys', Ok tt)
    ∧ progressStore sys' = progressStore sys.
Proof.
  unfold runWriter, mbind, M_bind.
  destruct (writerStatus w sys) as [sys1 [st| | |]] eqn:Hst; try discriminate.
  apply writerStatus_frame in Hst as [Ha Hp].
  unfold onSelf. rewrite Ha.
  destruct (_onWriterVectorDone st (applier sys)) as [self' r] eqn:Hdone.
  intros [= <- ->]. exists sys1, st. simpl. done.
Qed.

Lemma runWriters_Ok ws sys sys' :
  forEachM runWriter ws sys = (sys', Ok tt) →
  progressStore sys' = progressStore sys
  ∧ length ws ≤ _remainingWritersToWait (applier sys)
  ∧ _remainingWritersToWait (applier sys') = _remainingWritersToWait (applier sys) - length ws
  ∧ applier sys' = set_completion (_remainingWritersToWait (applier sys'))
                     (_currentBatchConsolidatedStatus (applier sys'))
                     (_currentApplyBatchPromise (applier sys')) (applier sys)
  ∧ (isOK (_currentBatchConsolidatedStatus (applier sys)) = false →
     isOK (_currentBatchConsolidatedStatus (applier sys')) = false)
  ∧ (ws ≠ [] → _remainingWritersToWait (applier sys) = length ws →
     _currentApplyBatchPromise (applier sys') =
     Some (_currentBatchConsolidatedStatus (applier sys'))).
Proof.
  revert sys. induction ws as [|w ws IH]; intros sys.
  - intros [= <-]. simpl. rewrite Nat.sub_0_r.
    split; [done|]. split; [lia|]. split; [done|]. split; [by destruct (applier sys)|].
    done.
  - cbn [forEachM]. unfold mbind at 1, M_bind.
    destruct (runWriter w sys) as [sys1 [[]| | |]] eqn:Hw; try discriminate.
    intros Hrest. apply runWriter_Ok in Hw as (sysm & st & _ & Hdone & Hp1).
    apply onWriterVectorDone_Ok in Hdone as (Hpos & Hc1 & Hr1 & Hpr1 & Hs1).
    pose proof (IH _ Hrest) as (Hp2 & Hle2 & Hr2 & Hs2 & Hc2 & Hpr2).
    simpl. split; [congruence|]. split; [lia|]. split; [lia|]. split.
    { etrans; [exact Hs2|]. rewrite Hs1. reflexivity. }
    split.
    { intros Hbad. apply Hc2. rewrite Hc1. by destruct (isOK st) eqn:E. }
    intros _ Hlen. destruct ws as [|w' ws'].
    + injection Hrest as <-. rewrite Hpr1.
      rewrite bool_decide_eq_true_2; [done|]. simpl in Hlen. lia.
    + apply Hpr2; [done|]. simpl in *. lia.
Qed.

Lemma runWriters_failure pre w post sys sysB sysC st sys' :
  forEachM runWriter pre sys = (sysB, Ok tt) →
  writerStatus w sysB = (sysC, Ok st) →
  isOK st = false →
  forEachM runWriter (pre ++ w :: post) sys = (sys', Ok tt) →
  isOK (_currentBatchConsolidatedStatus (applier sys')) = false.
Proof.
  intros Hpre Hst Hbad. rewrite forEachM_app. unfold mbind at 1, M_bind. rewrite Hpre.
  cbn [forEachM]. unfold mbind at 1, M_bind.
  destruct (runWriter w sysB) as [sys1 [[]| | |]] eqn:Hw; try discriminate.
  intros Hpost. apply runWriter_Ok in Hw as (sysm & st' & Hst' & Hdone & _).
  rewrite Hst in Hst'. injection Hst' as _ <-.
  apply onWriterVectorDone_Ok in Hdone as (_ & Hc1 & _).
  apply runWriters_Ok in Hpost as (_ & _ & _ & _ & Hc2 & _).
  apply Hc2. rewrite Hc1. by rewrite Hbad.
Qed.

Lemma fillWriterVectors_frame self self' r :
  _fillWriterVectors self = (self', r) →
  self' = set_currentDerivedOps (_currentDerivedOps self') self.
Proof.
  unfold _fillWriterVectors.
  destruct (forEach fillOne _ _) as [[wv t]| | |]; intros [= <- _]; by destruct self.
Qed.

Lemma continues_scheduleNextBatch fuel0 sys0 fuel sys :
  continues fuel0 sys0 fuel sys →
  scheduleNextBatch fuel0 sys0 = scheduleNextBatch fuel sys.
Proof.
  induction 1 as [|fuel0 sys0 sys1 fuel sys Hone _ IH]; [done|].
  cbn [scheduleNextBatch]. unfold mbind at 1, M_bind. by rewrite Hone.
Qed.

Lemma preProcess_buffer batch self self' :
  forEachM _preProcessAndPushOpsToBuffer batch self = (self', Ok tt) →
  ∃ buffered, _currentBatchToApply self' = _currentBatchToApply self ++ buffered
              ∧ length buffered = length batch.
Proof.
  revert self. induction batch as [|op batch IH]; intros self.
  - intros [= <-]. exists []. by rewrite app_nil_r.
  - cbn [forEachM]. unfold mbind at 1, M_bind.
    destruct (_preProcessAndPushOpsToBuffer op self) as [self1 [[]| | |]] eqn:Hop;
      try discriminate.
    intros Hrest. apply IH in Hrest as (buffered & Hbuf & Hlen).
    unfold _preProcessAndPushOpsToBuffer in Hop.
    destruct (negb _); [discriminate|]. destruct (negb _); [discriminate|].
    injection Hop as <-.
    rewrite Hbuf. destruct self; simpl.
    eexists (_ :: buffered). split; [by rewrite <- app_assoc|].
    simpl. by rewrite Hlen.
Qed.

Lemma applyBatch_failure sys1 self2 wv sys3 final :
  _fillWriterVectors (applier sys1) = (self2, Ok wv) →
  forEachM runWriter wv
    (mkSystem (set_completion (length wv) StatusOK None (set_currentWriterVectors wv self2))
              (node sys1) (progressStore sys1)) = (sys3, Ok tt) →
  _currentApplyBatchPromise (applier sys3) = Some final →
  isOK final = false →
  _applyBatch sys1 = (sys3, Threw (code final)).
Proof.
  intros Hfill Hrun Hprom Hbad. unfold _applyBatch.
  unfold mbind at 1, M_bind. unfold onSelf at 1. rewrite Hfill.
  unfold mbind at 1, M_bind. unfold onSelf at 1, modify. cbn [applier node progressStore].
  unfold mbind at 1, M_bind. unfold onSelf at 1, modify. cbn [applier node progressStore].
  unfold mbind at 1, M_bind. unfold onSelf at 1, gets. cbn [applier node progressStore].
  unfold mbind at 1, M_bind.
  replace (_currentWriterVectors (set_currentWriterVectors wv self2)) with wv
    by (by destruct self2).
  replace (_currentWriterVectors (set_completion _ _ _ _)) with wv by (by destruct self2).
  rewrite Hrun. unfold mbind at 1, M_bind. unfold onSelf at 1, gets.
  rewrite Hprom. unfold liftR. rewrite Hbad. by destruct sys3.
Qed.

(** *** The bound on the number of passes *)

Lemma preProcess_iter batch self self' r :
  forEachM _preProcessAndPushOpsToBuffer batch self = (self', r) →
  _oplogIter self' = _oplogIter self.
Proof.
  revert self. induction batch as [|op batch IH]; intros self.
  - by intros [= <- _].
  - cbn [forEachM]. unfold mbind at 1, M_bind.
    destruct (_preProcessAndPushOpsToBuffer op self) as [self1 r1] eqn:Hop.
    assert (_oplogIter self1 = _oplogIter self) as <-.
    { unfold _preProcessAndPushOpsToBuffer in Hop.
      destruct (negb _); [by injection Hop as <- _|].
      destruct (negb _); [by injection Hop as <- _|].
      injection Hop as <- _. by destruct self. }
    destruct r1 as [[]| | |]; try by intros [= <- _]. apply IH.
Qed.

Lemma applyBatch_Ok_frame sys1 sys3 :
  _applyBatch sys1 = (sys3, Ok tt) →
  _currentBatchToApply (applier sys3) = _currentBatchToApply (applier sys1)
  ∧ _oplogIter (applier sys3) = _oplogIter (applier sys1).
Proof.
  unfold _applyBatch. unfold mbind at 1, M_bind. unfold onSelf at 1.
  destruct (_fillWriterVectors (applier sys1)) as [self2 [wv| | |]] eqn:Hfill;
    try discriminate.
  apply fillWriterVectors_frame in Hfill.
  unfold mbind at 1, M_bind. unfold onSelf at 1, modify. cbn [applier node progressStore].
  unfold mbind at 1, M_bind. unfold onSelf at 1, modify. cbn [applier node progressStore].
  unfold mbind at 1, M_bind. unfold onSelf at 1, gets. cbn [applier node progressStore].
  unfold mbind at 1, M_bind.
  destruct (forEachM runWriter _ _) as [sysR [[]| | |]] eqn:Hrun; try discriminate.
  apply runWriters_Ok in Hrun as (_ & _ & _ & Hs & _).
  unfold mbind at 1, M_bind. unfold onSelf at 1, gets.
  destruct (_currentApplyBatchPromise (applier sysR)) as [final|]; [|discriminate].
  unfold liftR, mret, M_ret. destruct (isOK final); [|discriminate].
  intros [= <-]. cbn [applier]. rewrite Hs. cbn [applier].
  rewrite Hfill. by destruct (applier sys1).
Qed.

Lemma afterApply_more sys3 sys' :
  afterApply sys3 = (sys', Ok true) →
  _currentBatchToApply (applier sys3) ≠ []
  ∧ _currentBatchToApply (applier sys') = []
  ∧ _oplogIter (applier sys') = _oplogIter (applier sys3).
Proof.
  unfold afterApply.
  unfold mbind at 1, M_bind. unfold onSelf at 1, gets. cbn [applier node progressStore].
  unfold mbind at 1, M_bind. unfold onSelf at 1, gets. cbn [applier node progressStore].
  case_bool_decide as Hbuf.
  { unfold mbind at 1, M_bind.
    repeat case_bool_decide; unfold onSelf, modify, mret, M_ret; discriminate. }
  intros Hrun. split; [done|]. revert Hrun.
  unfold mbind at 1, M_bind.
  unfold _clearAppliedOpsAndStoreProgress, mbind, M_bind, onSelf, gets, liftR,
    upsertProgress, modify, mret, M_ret. cbn [applier node progressStore].
  destruct (deref (list.last _)) as [lastOplog| | |]; try discriminate.
  destruct (deref (get_id lastOplog)) as [idValue| | |]; try discriminate.
  destruct (parseDonorOplogId idValue) as [oplogId| | |]; try discriminate.
  cbn [applier node progressStore].
  destruct (_ && _); [discriminate|].
  intros [= <-]. cbn [applier]. by destruct (applier sys3).
Qed.

Lemma scheduleOneBatch_more sys sys' :
  scheduleOneBatch sys = (sys', Ok true) →
  _currentBatchToApply (applier sys') = []
  ∧ _oplogIter (applier sys') = tail (_oplogIter (applier sys))
  ∧ (_oplogIter (applier sys) = [] → _currentBatchToApply (applier sys) ≠ []).
Proof.
  unfold scheduleOneBatch. unfold mbind at 1, M_bind.
  destruct (onSelf getNextBatch sys) as [sysF rF] eqn:Hfetch.
  assert (_oplogIter (applier sysF) = tail (_oplogIter (applier sys))
          ∧ _currentBatchToApply (applier sysF) = _currentBatchToApply (applier sys)
          ∧ (_oplogIter (applier sys) = [] → rF = Ok [])) as (HiF & HbF & HrF).
  { unfold onSelf, getNextBatch in Hfetch.
    destruct (_oplogIter (applier sys)) eqn:Hit; injection Hfetch as <- <-; simpl;
      by destruct (applier sys). }
  destruct rF as [batch| | |]; try discriminate.
  unfold mbind at 1, M_bind.
  destruct (onSelf (forEachM _preProcessAndPushOpsToBuffer batch) sysF) as [sys1 r1] eqn:Hpre.
  assert (_oplogIter (applier sys1) = _oplogIter (applier sysF)
          ∧ (batch = [] → _currentBatchToApply (applier sys1)
                          = _currentBatchToApply (applier sysF))) as (Hi1 & Hb1).
  { unfold onSelf in Hpre.
    destruct (forEachM _ batch (applier sysF)) as [selfP rP] eqn:HP.
    injection Hpre as <- _. cbn [applier]. split; [by eapply preProcess_iter|].
    intros ->. by injection HP as <- _. }
  destruct r1 as [[]| | |]; try discriminate.
  unfold mbind at 1, M_bind.
  destruct (_applyBatch sys1) as [sys3 [[]| | |]] eqn:Happly; try discriminate.
  apply applyBatch_Ok_frame in Happly as (Hb3 & Hi3).
  intros Hafter. apply afterApply_more in Hafter as (Hne & Hempty & Hi').
  split; [done|]. split; [congruence|].
  intros Hnil. specialize (HrF Hnil). injection HrF as ->.
  rewrite Hb3, Hb1 in Hne by done. by rewrite HbF in Hne.
Qed.

Lemma scheduleNextBatch_enough fuel1 fuel2 sys :
  passesNeeded sys ≤ fuel1 → passesNeeded sys ≤ fuel2 →
  scheduleNextBatch fuel1 sys = scheduleNextBatch fuel2 sys.
Proof.
  revert fuel2 sys. induction fuel1 as [|fuel1 IH]; intros fuel2 sys H1' H2'.
  { unfold passesNeeded in H1'. case_bool_decide; lia. }
  destruct fuel2 as [|fuel2].
  { unfold passesNeeded in H2'. case_bool_decide; lia. }
  cbn [scheduleNextBatch]. unfold mbind, M_bind.
  destruct (scheduleOneBatch sys) as [sys' [[]| | |]] eqn:Hone; try done.
  cbn [negb]. apply scheduleOneBatch_more in Hone as (Hempty & Hiter & Hnil).
  assert (S (passesNeeded sys') ≤ passesNeeded sys) as Hless.
  { unfold passesNeeded. rewrite Hempty, Hiter. rewrite bool_decide_eq_true_2 by done.
    destruct (_oplogIter (applier sys)) as [|b rest]; simpl; [|case_bool_decide; lia].
    rewrite bool_decide_eq_false_2 by auto. lia. }
  apply IH; lia.
Qed.

(** The bound of [_scheduleNextBatch] is enough: a larger one gives the same
    result. *)
Lemma scheduleNextBatch_bound fuel sys :
  2 + length (_oplogIter (applier sys)) ≤ fuel →
  scheduleNextBatch fuel sys = _scheduleNextBatch sys.
Proof.
  intros Hfuel. unfold _scheduleNextBatch.
  apply scheduleNextBatch_enough; unfold passesNeeded; case_bool_decide; lia.
Qed.

(** C4: take any pass of the pipeline, reached from the call of the entry
    point after passes that each asked for another (under any bound on the
    number of passes that is at least the entry point's).  If in this pass the
    batch is fetched, buffered and partitioned, every writer reports, and
    one of them reports a status that is not OK, then the entry point
    returns a status that is not OK (the consolidated status of the batch)
    with the stage set to [kErrorOccurred]; the progress store is as it was
    when the pass started, and the batch buffer and the derived buffer still
    hold the records of the batch. *)
Theorem failed_batch_halts (fuel0 fuel : nat) (sys0 sys sysF sys1 sysB sysC sys3 : System)
    (batch : OplogBatch) (self2 : ReshardingOplogApplier)
    (wv pre post : WriterVectors) (w : list OplogEntry) (st : Status) :
  continues fuel0 sys0 (S fuel) sys →
  onSelf getNextBatch sys = (sysF, Ok batch) →
  onSelf (forEachM _preProcessAndPushOpsToBuffer batch) sysF = (sys1, Ok tt) →
  _fillWriterVectors (applier sys1) = (self2, Ok wv) →
  let sys2 :=
    mkSystem (set_completion (length wv) StatusOK None (set_currentWriterVectors wv self2))
             (node sys1) (progressStore sys1) in
  forEachM runWriter wv sys2 = (sys3, Ok tt) →
  wv = pre ++ w :: post →
  forEachM runWriter pre sys2 = (sysB, Ok tt) →
  writerStatus w sysB = (sysC, Ok st) →
  isOK st = false →
  ∃ final sysE,
    isOK final = false
    ∧ _currentApplyBatchPromise (applier sys3) = Some final
    ∧ sysE = mkSystem (set_stage kErrorOccurred (applier sys3)) (node sys3) (progressStore sys3)
    ∧ runAndCatch (scheduleNextBatch fuel0) sys0 = (sysE, Ok final)
    ∧ (_stage (applier sys0) = kStarted →
       2 + length (_oplogIter (applier sys0)) ≤ fuel0 →
       applyUntilCloneFinishedTs sys0 = (sysE, Ok final))
    ∧ (_stage (applier sys0) = kReachedCloningTS →
       2 + length (_oplogIter (applier sys0)) ≤ fuel0 →
       applyUntilDone sys0 = (sysE, Ok final))
    ∧ _stage (applier sysE) = kErrorOccurred
    ∧ progressStore sysE = progressStore sys
    ∧ (∃ buffered,
         _currentBatchToApply (applier sysE) = _currentBatchToApply (applier sys) ++ buffered
         ∧ length buffered = length batch)
    ∧ _currentDerivedOps (applier sysE) = _currentDerivedOps self2.
Proof.
  intros Hcont Hfetch Hpre Hfill sys2 Hrun Hwv Hrunpre Hst Hbad.
  assert (isOK (_currentBatchConsolidatedStatus (applier sys3)) = false) as Hfinal.
  { subst wv. eapply runWriters_failure; eauto. }
  pose proof (runWriters_Ok _ _ _ Hrun) as (Hps3 & _ & _ & Hs3 & _ & Hprom).
  assert (_currentApplyBatchPromise (applier sys3) =
          Some (_currentBatchConsolidatedStatus (applier sys3))) as Hprom'.
  { apply Hprom; [subst wv; by destruct pre|]. subst sys2. simpl. by destruct self2. }
  set (final := _currentBatchConsolidatedStatus (applier sys3)) in *.
  pose proof (applyBatch_failure _ _ _ _ _ Hfill Hrun Hprom' Hfinal) as Happly.
  assert (scheduleNextBatch (S fuel) sys = (sys3, Threw (code final))) as Hsched.
  { cbn [scheduleNextBatch]. unfold mbind at 1, M_bind. unfold scheduleOneBatch.
    unfold mbind at 1, M_bind. rewrite Hfetch.
    unfold mbind at 1, M_bind. rewrite Hpre.
    unfold mbind at 1, M_bind. by rewrite Happly. }
  assert (runAndCatch (scheduleNextBatch fuel0) sys0 =
          (mkSystem (set_stage kErrorOccurred (applier sys3)) (node sys3) (progressStore sys3),
           Ok final)) as Htop.
  { unfold runAndCatch. rewrite (continues_scheduleNextBatch _ _ _ _ Hcont), Hsched.
    unfold onSelf, _onError, mbind, M_bind, modify, mret, M_ret. simpl.
    by destruct final. }
  exists final, (mkSystem (set_stage kErrorOccurred (applier sys3)) (node sys3)
                          (progressStore sys3)).
  split; [done|]. split; [done|]. split; [done|]. split; [done|].
  split; [|split].
  { intros Hstage Hfuel. unfold applyUntilCloneFinishedTs.
    unfold mbind at 1, M_bind. unfold onSelf at 1, gets. rewrite Hstage.
    unfold mbind at 1, M_bind. simpl.
    replace (mkSystem (applier sys0) (node sys0) (progressStore sys0)) with sys0
      by (by destruct sys0).
    unfold runAndCatch in *. by rewrite <- (scheduleNextBatch_bound fuel0 sys0 Hfuel). }
  { intros Hstage Hfuel. unfold applyUntilDone.
    unfold mbind at 1, M_bind. unfold onSelf at 1, gets. rewrite Hstage.
    unfold mbind at 1, M_bind. simpl.
    replace (mkSystem (applier sys0) (node sys0) (progressStore sys0)) with sys0
      by (by destruct sys0).
    unfold runAndCatch in *. by rewrite <- (scheduleNextBatch_bound fuel0 sys0 Hfuel). }
  cbn [applier node progressStore].
  assert (applier sysF = set_oplogIter (_oplogIter (applier sysF)) (applier sys)
          ∧ progressStore sysF = progressStore sys) as [HaF HpF].
  { unfold onSelf, getNextBatch in Hfetch.
    destruct (_oplogIter (applier sys)); injection Hfetch as <- _; simpl;
      by destruct (applier sys). }
  assert (progressStore sys1 = progressStore sysF
          ∧ ∃ buffered, _currentBatchToApply (applier sys1) =
                        _currentBatchToApply (applier sysF) ++ buffered
                        ∧ length buffered = length batch) as [Hp1 (buffered & Hbuf & Hlen)].
  { unfold onSelf in Hpre.
    destruct (forEachM _ batch (applier sysF)) as [selfP r] eqn:HP.
    injection Hpre as <- ->. simpl. split; [done|]. by apply preProcess_buffer in HP. }
  apply fillWriterVectors_frame in Hfill.
  split; [by destruct (applier sys3)|].
  split; [subst sys2; simpl in Hps3; congruence|].
  split.
  - exists buffered. split; [|done].
    rewrite HaF in Hbuf. rewrite Hs3. subst sys2. cbn [applier].
    rewrite Hfill. destruct (applier sys1), (applier sys); simpl in *. done.
  - rewrite Hs3. subst sys2. cbn [applier]. by destruct self2.
Qed.

(** ** Session records *)

Lemma insertOplog_settled fuel oplog sid txn stmt n :
  getSessionId oplog = Some sid →
  getTxnNumber oplog = Some txn →
  getStatementId oplog = Some stmt →
  settled sid txn stmt n →
  insertOplogAndUpdateConfigForRetryable (S fuel) oplog n =
  (set_opCtx (Some sid) (Some txn) n, Ok StatusOK).
Proof.
  intros Hsid Htxn Hstmt Hset. cbn [insertOplogAndUpdateConfigForRetryable].
  rewrite Hsid, Htxn, Hstmt. unfold mbind, M_bind, liftR, deref, modify. cbn beta iota.
  unfold beginOrContinue, checkStatementExecuted.
  change (sessionOf (set_opCtx (Some sid) (Some txn) n) sid) with (sessionOf n sid).
  destruct Hset as [Hlt|[Heq Hdone]].
  - rewrite bool_decide_eq_true_2 by done. done.
  - rewrite bool_decide_eq_false_2 by lia. rewrite bool_decide_eq_true_2 by done.
    change (sessionOf (set_opCtx (Some sid) (Some txn) n) sid) with (sessionOf n sid).
    case_bool_decide; [done|]. destruct Hdone as [? | ->]; done.
Qed.

Lemma insertPrePostImage_frame e n n' r :
  insertPrePostImageOplogEntry e n = (n', r) →
  sessionCatalog n' = sessionCatalog n
  ∧ opCtx_lsid n' = opCtx_lsid n
  ∧ opCtx_txnNumber n' = opCtx_txnNumber n
  ∧ wallClock n' = wallClock n.
Proof.
  unfold insertPrePostImageOplogEntry, mbind, M_bind, liftR, uassert, gets.
  case_bool_decide; [|by intros [= <- _]].
  destruct (parseOplogEntry _); by intros [= <- _].
Qed.

Lemma writeRetryableNoOp_Ok oplog sid txn stmt n n1 st :
  writeRetryableNoOp oplog sid txn stmt n = (n1, Ok st) →
  st = StatusOK
  ∧ activeTxnNumber (sessionOf n1 sid) = txn
  ∧ stmt ∈ executedStatements (sessionOf n1 sid)
  ∧ opCtx_lsid n1 = opCtx_lsid n
  ∧ opCtx_txnNumber n1 = opCtx_txnNumber n.
Proof.
  unfold writeRetryableNoOp. unfold mbind at 1, M_bind.
  set (images := match getPreImageOp oplog with Some _ => _ | None => _ end).
  destruct (images n) as [n0 r0] eqn:Himg.
  assert (sessionCatalog n0 = sessionCatalog n ∧ opCtx_lsid n0 = opCtx_lsid n
          ∧ opCtx_txnNumber n0 = opCtx_txnNumber n) as (Hsc & Hl & Ht).
  { subst images. destruct (getPreImageOp oplog).
    - by apply insertPrePostImage_frame in Himg as (? & ? & ? & _).
    - destruct (getPostImageOp oplog).
      + by apply insertPrePostImage_frame in Himg as (? & ? & ? & _).
      + by injection Himg as <- _. }
  destruct r0 as [prePostImageOpTime| | |]; try discriminate.
  unfold mbind at 1, M_bind, liftR.
  destruct (parseOplogEntry _) as [noOpOplog| | |]; try discriminate.
  unfold mbind, M_bind, gets, writeUnitOfWork, logOp, uassert, liftR, isNull,
    onRetryableWriteCloningCompleted, putSession, modify, mret, M_ret.
  simpl. intros [= <- <-]. unfold sessionOf. simpl. rewrite lookup_insert_eq. simpl.
  split; [done|]. split; [done|]. split; [set_solver|]. done.
Qed.

Lemma insertOplog_settles fuel oplog n n1 st :
  insertOplogAndUpdateConfigForRetryable fuel oplog n = (n1, Ok st) →
  ∃ sid txn stmt,
    getSessionId oplog = Some sid
    ∧ getTxnNumber oplog = Some txn
    ∧ getStatementId oplog = Some stmt
    ∧ st = StatusOK
    ∧ settled sid txn stmt n1
    ∧ opCtx_lsid n1 = Some sid
    ∧ opCtx_txnNumber n1 = Some txn.
Proof.
  revert n. induction fuel as [|fuel IH]; intros n; [discriminate|].
  cbn [insertOplogAndUpdateConfigForRetryable].
  destruct (getTxnNumber oplog) as [txn|] eqn:Htxn; [|discriminate].
  destruct (getSessionId oplog) as [sid|] eqn:Hsid; [|discriminate].
  destruct (getStatementId oplog) as [stmt|] eqn:Hstmt; [|discriminate].
  unfold mbind at 1 2 3 4, M_bind, liftR, deref, modify. cbn beta iota.
  set (n0 := set_opCtx (Some sid) (Some txn) n).
  intros Hrun. exists sid, txn, stmt. do 3 (split; [done|]).
  revert Hrun. unfold mbind at 1, M_bind. unfold beginOrContinue.
  case_bool_decide as Hlt.
  { (* TransactionTooOld *)
    rewrite bool_decide_eq_true_2 by done. intros [= <- <-].
    split; [done|]. split; [by left|]. done. }
  case_bool_decide as Heq.
  { unfold checkStatementExecuted. case_bool_decide as Hex.
    { intros [= <- <-]. split; [done|]. split; [right; by eauto|]. done. }
    destruct (hasIncompleteHistory (sessionOf n0 sid)) eqn:Hinc.
    { rewrite bool_decide_eq_false_2 by done. rewrite bool_decide_eq_true_2 by done.
      intros [= <- <-]. split; [done|]. split; [right; by eauto|]. done. }
    intros Hw. apply writeRetryableNoOp_Ok in Hw as (-> & Ha & He & Hl & Ht).
    split; [done|]. split; [right; by eauto|]. done. }
  destruct (inPreparedTransaction (sessionOf n0 sid)) eqn:Hprep.
  { (* PreparedTransactionInProgress *)
    rewrite bool_decide_eq_false_2 by done. rewrite bool_decide_eq_false_2 by done.
    rewrite bool_decide_eq_true_2 by done.
    unfold mbind at 1, M_bind. unfold awaitExitPrepare, putSession, modify.
    intros Hrec. apply IH in Hrec as (sid' & txn' & stmt' & Hs' & Ht' & Hst' & Hrest).
    by simplify_eq. }
  unfold putSession, modify, checkStatementExecuted, sessionOf. simpl.
  rewrite lookup_insert_eq. simpl.
  intros Hw. apply writeRetryableNoOp_Ok in Hw as (-> & Ha & He & Hl & Ht).
  split; [done|]. split; [right; by eauto|]. done.
Qed.

Lemma insertOplog_unfold fuel oplog n :
  insertOplogAndUpdateConfigForRetryable (S fuel) oplog n =
  match getTxnNumber oplog, getSessionId oplog, getStatementId oplog with
  | Some txn, Some sid, Some stmt =>
      match (beginOrContinue sid txn;; checkStatementExecuted sid stmt)
              (set_opCtx (Some sid) (Some txn) n) with
      | (n1, Ok true) => (n1, Ok StatusOK)
      | (n1, Ok false) => writeRetryableNoOp oplog sid txn stmt n1
      | (n1, Threw c) =>
          if bool_decide (c = TransactionTooOld) then (n1, Ok StatusOK)
          else if bool_decide (c = IncompleteTransactionHistory) then (n1, Ok StatusOK)
          else if bool_decide (c = PreparedTransactionInProgress) then
            insertOplogAndUpdateConfigForRetryable fuel oplog (awaitExitPrepare sid n1).1
          else (n1, Threw c)
      | (n1, Fatal) => (n1, Fatal)
      | (n1, Hang) => (n1, Hang)
      end
  | Some _, Some sid, None => (set_opCtx (Some sid) (getTxnNumber oplog) n, Fatal)
  | _, _, _ => (n, Fatal)
  end.
Proof.
  cbn [insertOplogAndUpdateConfigForRetryable].
  destruct (getTxnNumber oplog) as [txn|]; [|done].
  destruct (getSessionId oplog) as [sid|]; [|done].
  destruct (getStatementId oplog) as [stmt|]; [|done].
  unfold mbind at 1 2 3 4, M_bind, liftR, deref, modify. cbn beta iota.
  destruct ((beginOrContinue sid txn;; checkStatementExecuted sid stmt) _)
    as [n1 [[]|c| |]]; try done.
Qed.

Lemma beginOrContinue_not_prepared sid txn stmt n n1 :
  inPreparedTransaction (sessionOf n sid) = false →
  (beginOrContinue sid txn;; checkStatementExecuted sid stmt) n
  ≠ (n1, Threw PreparedTransactionInProgress).
Proof.
  intros Hprep. unfold mbind, M_bind, beginOrContinue. rewrite Hprep.
  repeat case_bool_decide; try done.
  - unfold checkStatementExecuted. case_bool_decide; [done|].
    by destruct (hasIncompleteHistory _).
  - unfold putSession, modify, checkStatementExecuted, sessionOf. simpl.
    rewrite lookup_insert_eq. done.
Qed.

Lemma insertOplog_not_prepared fuel oplog sid n :
  getSessionId oplog = Some sid →
  inPreparedTransaction (sessionOf n sid) = false →
  insertOplogAndUpdateConfigForRetryable (S fuel) oplog n =
  insertOplogAndUpdateConfigForRetryable 1 oplog n.
Proof.
  intros Hsid Hprep. rewrite !insertOplog_unfold, Hsid.
  destruct (getTxnNumber oplog) as [txn|]; [|done].
  destruct (getStatementId oplog) as [stmt|]; [|done].
  destruct ((beginOrContinue sid txn;; checkStatementExecuted sid stmt) _)
    as [n1 [[]|c| |]] eqn:Hbc; try done.
  repeat case_bool_decide; try done. subst c.
  by apply beginOrContinue_not_prepared in Hbc.
Qed.

Lemma insertOplog_fuel fuel oplog n :
  insertOplogAndUpdateConfigForRetryable (2 + fuel) oplog n =
  insertOplogAndUpdateConfigForRetryable 2 oplog n.
Proof.
  change (2 + fuel) with (S (S fuel)). rewrite !(insertOplog_unfold (S _)).
  destruct (getTxnNumber oplog) as [txn|]; [|done].
  destruct (getSessionId oplog) as [sid|] eqn:Hsid; [|done].
  destruct (getStatementId oplog) as [stmt|]; [|done].
  destruct ((beginOrContinue sid txn;; checkStatementExecuted sid stmt) _)
    as [n1 [[]|c| |]]; try done.
  repeat case_bool_decide; try done.
  apply (insertOplog_not_prepared _ _ sid); [done|].
  unfold awaitExitPrepare, putSession, modify, sessionOf. simpl.
  by rewrite lookup_insert_eq.
Qed.

(** C3: applying a session record (a no-op carrying the resharding tag)
    whose statement is already recorded as executed in the transaction the
    session is at returns OK and leaves the session catalog, the oplog and
    the collections as they were (only the operation context now names the
    session); and whenever an application returns, a second application of
    the same record, at once or at a later wall-clock time, returns OK and
    leaves the state exactly as the first one left it.  The bound on the
    nested retries does not matter from two on. *)
Theorem retryable_noop_idempotent (e : OplogEntryOrGroupedInserts) (n : Node) :
  isRetryableNoOp e = true →
  (∀ fuel, insertOplogAndUpdateConfigForRetryable (2 + fuel) (getOp e) n =
           _applyOplogEntryOrGroupedInserts e n)
  ∧ (∀ sid txn stmt,
       getSessionId (getOp e) = Some sid →
       getTxnNumber (getOp e) = Some txn →
       getStatementId (getOp e) = Some stmt →
       activeTxnNumber (sessionOf n sid) = txn →
       stmt ∈ executedStatements (sessionOf n sid) →
       _applyOplogEntryOrGroupedInserts e n = (set_opCtx (Some sid) (Some txn) n, Ok StatusOK))
  ∧ (∀ n1 st,
       _applyOplogEntryOrGroupedInserts e n = (n1, Ok st) →
       st = StatusOK
       ∧ _applyOplogEntryOrGroupedInserts e n1 = (n1, Ok StatusOK)
       ∧ ∀ now, _applyOplogEntryOrGroupedInserts e (set_wallClock now n1) =
                (set_wallClock now n1, Ok StatusOK)).
Proof.
  intros Hnoop. unfold _applyOplogEntryOrGroupedInserts. rewrite Hnoop.
  split; [|split].
  - intros fuel. apply insertOplog_fuel.
  - intros sid txn stmt Hsid Htxn Hstmt Hactive Hexec.
    apply (insertOplog_settled _ _ sid txn stmt); [done..|]. right. eauto.
  - intros n1 st Hrun.
    apply insertOplog_settles in Hrun as (sid & txn & stmt & Hsid & Htxn & Hstmt & -> & Hset & Hl & Ht).
    split; [done|]. split.
    + rewrite (insertOplog_settled _ _ sid txn stmt) by done.
      destruct n1; simpl in *. by subst.
    + intros now. rewrite (insertOplog_settled _ _ sid txn stmt) by done.
      destruct n1; simpl in *. by subst.
Qed.

(** ** The contents of the writer vectors *)

Lemma pushToWriter_lookup j op (wv : WriterVectors) i :
  pushToWriter j op wv !! i
  = (λ w, w ++ (if decide (j = i) then [op] else [])) <$> wv !! i.
Proof.
  unfold pushToWriter. destruct (decide (j = i)) as [->|Hne].
  - by rewrite list_lookup_alter_eq.
  - rewrite list_lookup_alter_ne by done.
    destruct (wv !! i); simpl; [|done]. by rewrite app_nil_r.
Qed.

Lemma fillOne_slots op (wv : WriterVectors) t wv' t' i :
  fillOne op (wv, t) = Ok (wv', t') →
  wv' !! i = (λ w, w ++ filter (routedTo (length wv) i) [op]) <$> wv !! i.
Proof.
  intros Hone.
  assert (wv' = if bool_decide (getOpType op = kNoop) then wv
                else addToWriterVector op wv) as ->.
  { revert Hone. unfold fillOne, uassert.
    destruct (shouldPrepare op); simpl; [discriminate|].
    destruct (isPreparedCommit op); simpl; [discriminate|].
    case_bool_decide; [by intros [= <- _]|].
    destruct (getSessionId op); [|by intros [= <- _]].
    destruct (getTxnNumber op); simpl; [|discriminate].
    repeat case_bool_decide; try by intros [= <- _].
    destruct (head _); simpl; discriminate. }
  case_bool_decide as Hnoop.
  - rewrite filter_cons_False by (intros [? _]; done).
    rewrite filter_nil. destruct (wv !! i); simpl; [|done]. by rewrite app_nil_r.
  - unfold addToWriterVector. rewrite pushToWriter_lookup.
    destruct (decide (getWriterId op (length wv) = i)) as [Hi|Hi].
    + by rewrite filter_cons_True by done.
    + by rewrite filter_cons_False by (intros [_ ?]; done).
Qed.

Lemma forEach_fillOne_slots batch (wv : WriterVectors) t wv' t' i :
  forEach fillOne batch (wv, t) = Ok (wv', t') →
  wv' !! i = (λ w, w ++ filter (routedTo (length wv) i) batch) <$> wv !! i.
Proof.
  revert wv t. induction batch as [|op batch IH]; intros wv t; cbn [forEach].
  - intros [= <- <-]. rewrite filter_nil.
    destruct (wv !! i); simpl; [|done]. by rewrite app_nil_r.
  - destruct (fillOne op (wv, t)) as [[wv1 t1]| | |] eqn:Hone; simpl; try discriminate.
    intros Hrest. apply IH in Hrest.
    pose proof (fillOne_Ok _ _ _ _ _ Hone) as (Hlen & _).
    rewrite Hrest, Hlen, (fillOne_slots _ _ _ _ _ i Hone).
    destruct (wv !! i); simpl; [|done].
    rewrite (filter_cons _ op batch), filter_cons, filter_nil.
    destruct (decide (routedTo (length wv) i op)); simpl; by rewrite <- app_assoc.
Qed.

Lemma addDerivedOps_slots derivedOps (wv wv' : WriterVectors) i :
  addDerivedOpsToWriterVector wv derivedOps = Ok wv' →
  wv' !! i = (λ w, w ++ filter (hashedTo (length wv) i) derivedOps) <$> wv !! i.
Proof.
  unfold addDerivedOpsToWriterVector. revert wv.
  induction derivedOps as [|d rest IH]; intros wv; cbn [forEach].
  - intros [= <-]. rewrite filter_nil.
    destruct (wv !! i); simpl; [|done]. by rewrite app_nil_r.
  - destruct (addDerivedOp d wv) as [wv1| | |] eqn:Hone; simpl; try discriminate.
    intros Hrest. apply IH in Hrest.
    pose proof (addDerivedOp_Ok _ _ _ Hone) as (Hlen & _).
    rewrite Hrest, Hlen. clear Hrest.
    unfold addDerivedOp, invariant, uassert in Hone.
    destruct (woCompareEq _ _); simpl in Hone; [|discriminate].
    destruct (getSessionId d) as [sid|] eqn:Hsid; simpl in Hone; [|discriminate].
    case_bool_decide; simpl in Hone; [discriminate|]. injection Hone as <-.
    rewrite pushToWriter_lookup. destruct (wv !! i); simpl; [|done].
    rewrite (filter_cons _ d rest).
    destruct (decide (hasher sid `mod` length wv = i)) as [Hi|Hi].
    + rewrite decide_True by (unfold hashedTo; rewrite Hsid; simpl; congruence).
      by rewrite <- app_assoc.
    + rewrite decide_False by (unfold hashedTo; rewrite Hsid; simpl; congruence).
      by rewrite app_nil_r.
Qed.

(** X1: when partitioning succeeds, slot [i] holds, in the order of the
    batch, exactly the records of the batch that are not no-ops and that the
    routing rule sends to [i], followed, in the order of the derived buffer,
    by exactly the derived records whose session hashes to [i]. *)
Theorem fillWriterVectors_slot_contents (self self' : ReshardingOplogApplier)
    (wv : WriterVectors) (i : nat) :
  _fillWriterVectors self = (self', Ok wv) →
  i < numThreads self →
  wv !! i
  = Some (filter (routedTo (numThreads self) i) (_currentBatchToApply self)
          ++ filter (hashedTo (numThreads self) i) (_currentDerivedOps self')).
Proof.
  unfold _fillWriterVectors.
  destruct (forEach fillOne _ _) as [[wv1 t1]| | |] eqn:Hloop; try (intros [= _ ?]; discriminate).
  intros [= <- Hadd] Hi. simpl in Hadd.
  pose proof (forEach_fillOne_Ok _ _ _ _ _ Hloop) as (Hlen & _).
  rewrite length_replicate in Hlen.
  rewrite (addDerivedOps_slots _ _ _ i Hadd), (forEach_fillOne_slots _ _ _ _ _ i Hloop).
  rewrite Hlen, length_replicate, lookup_replicate_2 by done. simpl.
  by destruct self.
Qed.

(** ** The records derived from a batch *)

Lemma filter_none {A} (P : A → Prop) `{∀ x, Decision (P x)} (l : list A) :
  (∀ x, x ∈ l → ¬ P x) → filter P l = [].
Proof.
  induction l as [|x l IH]; intros Hall; [done|].
  rewrite filter_cons_False by (apply Hall; left).
  apply IH. intros y Hy. apply Hall. by right.
Qed.

Lemma tracksExactly_untracked t p op :
  (∀ sid txn, ¬ tracked sid txn op) →
  tracksExactly t p → tracksExactly t (p ++ [op]).
Proof.
  intros Hno Ht sid. destruct (Ht sid) as [Hops Hbound]. split.
  - rewrite list.filter_app, (filter_cons_False _ op) by apply Hno.
    rewrite filter_nil, app_nil_r. exact Hops.
  - intros op' txn [Hin|Hin]%elem_of_app Htr; [by eapply Hbound|].
    apply list_elem_of_singleton in Hin as ->. by apply Hno in Htr.
Qed.

Lemma fillOne_tracks op wv t wv' t' p :
  tracksExactly t p →
  fillOne op (wv, t) = Ok (wv', t') →
  tracksExactly t' (p ++ [op]).
Proof.
  intros Ht. unfold fillOne, uassert.
  destruct (shouldPrepare op); simpl; [discriminate|].
  destruct (isPreparedCommit op); simpl; [discriminate|].
  case_bool_decide as Hnoop.
  { intros [= _ <-]. apply tracksExactly_untracked; [|done]. by intros sid txn [? _]. }
  destruct (getSessionId op) as [sid0|] eqn:Hsid.
  2:{ intros [= _ <-]. apply tracksExactly_untracked; [|done].
      intros sid txn (_ & ? & _). congruence. }
  destruct (getTxnNumber op) as [txn0|] eqn:Htxn; simpl; [|discriminate].
  assert (Hop : tracked sid0 txn0 op) by done.
  assert (Hother : ∀ sid txn, sid ≠ sid0 → ¬ tracked sid txn op).
  { intros sid txn Hne (_ & ? & _). congruence. }
  destruct (Ht sid0) as [Hops0 Hbound0].
  case_bool_decide as Heq; [|case_bool_decide as Hlt].
  - intros [= _ <-] sid. unfold trackedOps. rewrite lookup_insert.
    destruct (decide (sid0 = sid)) as [<-|Hne]; simpl.
    + fold (trackedOps t sid0). split.
      * rewrite list.filter_app, (filter_cons_True _ op) by (by rewrite Heq).
        by rewrite filter_nil, Hops0.
      * intros op' txn [Hin|Hin]%elem_of_app Htr.
        { split; [by eapply Hbound0|]. by destruct (ops _). }
        apply list_elem_of_singleton in Hin as ->.
        destruct Htr as (_ & _ & Htxn'). split; [|by destruct (ops _)].
        rewrite Htxn in Htxn'. injection Htxn' as <-. lia.
    + fold (trackedOps t sid). destruct (Ht sid) as [Hops Hbound]. split.
      * rewrite list.filter_app, (filter_cons_False _ op) by (apply Hother; congruence).
        by rewrite filter_nil, app_nil_r.
      * intros op' txn [Hin|Hin]%elem_of_app Htr; [by eapply Hbound|].
        apply list_elem_of_singleton in Hin as ->. apply Hother in Htr; [done|congruence].
  - intros [= _ <-] sid. unfold trackedOps. rewrite lookup_insert.
    destruct (decide (sid0 = sid)) as [<-|Hne]; simpl.
    + split.
      * rewrite list.filter_app, (filter_cons_True _ op) by done.
        rewrite filter_nil, filter_none; [done|].
        intros op' Hin Htr. apply (Hbound0 _ _ Hin) in Htr as [? _]. lia.
      * intros op' txn [Hin|Hin]%elem_of_app Htr.
        { split; [|done]. apply (Hbound0 _ _ Hin) in Htr as [? _]. lia. }
        apply list_elem_of_singleton in Hin as ->.
        destruct Htr as (_ & _ & Htxn'). split; [|done].
        rewrite Htxn in Htxn'. injection Htxn' as <-. lia.
    + fold (trackedOps t sid). destruct (Ht sid) as [Hops Hbound]. split.
      * rewrite list.filter_app, (filter_cons_False _ op) by (apply Hother; congruence).
        by rewrite filter_nil, app_nil_r.
      * intros op' txn [Hin|Hin]%elem_of_app Htr; [by eapply Hbound|].
        apply list_elem_of_singleton in Hin as ->. apply Hother in Htr; [done|congruence].
  - destruct (head _); simpl; discriminate.
Qed.

Lemma forEach_fillOne_tracks batch p wv t wv' t' :
  tracksExactly t p →
  forEach fillOne batch (wv, t) = Ok (wv', t') →
  tracksExactly t' (p ++ batch).
Proof.
  revert p wv t. induction batch as [|op batch IH]; intros p wv t Ht; cbn [forEach].
  - intros [= _ <-]. by rewrite app_nil_r.
  - destruct (fillOne op (wv, t)) as [[wv1 t1]| | |] eqn:Hone; simpl; try discriminate.
    intros Hrest.
    replace (p ++ op :: batch) with ((p ++ [op]) ++ batch) by (by rewrite <- app_assoc).
    eapply IH; [|exact Hrest]. by eapply fillOne_tracks.
Qed.

Lemma tracksExactly_empty : tracksExactly ∅ [].
Proof.
  intros sid. unfold trackedOps. rewrite lookup_empty. simpl. split; [done|].
  intros op txn Hin. by apply elem_of_nil in Hin.
Qed.

Lemma deriveSessionOps_exact t batch d :
  tracksExactly t batch →
  d ∈ deriveSessionOps t
  ↔ ∃ op, op ∈ batch ∧ inLastTxn batch op ∧ d = convertToNoOpWithReshardingTag op.
Proof.
  intros Ht. unfold deriveSessionOps. rewrite list_elem_of_bind. split.
  - intros ([sid l] & Hd & Hl). apply elem_of_map_to_list in Hl.
    apply list_elem_of_fmap in Hd as (op & -> & Hop).
    destruct (Ht sid) as [Hops Hbound]. unfold trackedOps in Hops, Hbound.
    rewrite Hl in Hops, Hbound. simpl in *.
    rewrite Hops in Hop. apply list_elem_of_filter in Hop as [Htr Hin].
    exists op. split; [done|]. split; [|done].
    exists sid, (txnNum l). split; [done|].
    intros op' txn' Hin' Htr'. by apply (Hbound _ _ Hin') in Htr' as [? _].
  - intros (op & Hin & (sid & txn & Htr & Hmax) & ->).
    destruct (Ht sid) as [Hops Hbound].
    destruct (Hbound _ _ Hin Htr) as [Hle Hne].
    destruct (ops (trackedOps t sid)) as [|x xs] eqn:Hx; [done|].
    assert (x ∈ filter (tracked sid (txnNum (trackedOps t sid))) batch) as Hxin
      by (rewrite <- Hops; left).
    apply list_elem_of_filter in Hxin as [Hxtr Hxin].
    pose proof (Hmax _ _ Hxin Hxtr) as Hge.
    assert (txn = txnNum (trackedOps t sid)) as Heq by lia.
    unfold trackedOps in Hx, Hops, Heq.
    destruct (t !! sid) as [l|] eqn:Hl; simpl in *; [|done].
    exists (sid, l). split; [|by apply elem_of_map_to_list].
    apply list_elem_of_fmap. exists op. split; [done|].
    rewrite Hx, Hops. apply list_elem_of_filter. split; [|done]. by rewrite <- Heq.
Qed.

(** X2: when partitioning succeeds, the records it appends to the derived
    buffer are exactly the conversions of the tracked records of the batch
    (not no-ops, with a session id and a transaction number) that belong to
    the last transaction number of their session in the batch; records of
    superseded transactions and records outside sessions derive nothing. *)
Theorem fillWriterVectors_derived (self self' : ReshardingOplogApplier) (wv : WriterVectors) :
  _fillWriterVectors self = (self', Ok wv) →
  ∃ derived,
    _currentDerivedOps self' = _currentDerivedOps self ++ derived
    ∧ ∀ d, d ∈ derived
           ↔ ∃ op, op ∈ _currentBatchToApply self
                   ∧ inLastTxn (_currentBatchToApply self) op
                   ∧ d = convertToNoOpWithReshardingTag op.
Proof.
  unfold _fillWriterVectors.
  destruct (forEach fillOne _ _) as [[wv1 t1]| | |] eqn:Hloop; try (intros [= _ ?]; discriminate).
  intros [= <- _]. exists (deriveSessionOps t1). split; [by destruct self|].
  intros d. apply deriveSessionOps_exact.
  apply (forEach_fillOne_tracks _ [] _ _ _ _ tracksExactly_empty Hloop).
Qed.

(** ** Buffering a fetched batch *)

Lemma preProcess_one oplog self :
  _preProcessAndPushOpsToBuffer oplog self
  = if decide (belongs self oplog) then
      (set_currentBatchToApply
         (_currentBatchToApply self ++ [reshardedCopy (_outputNs self) oplog]) self, Ok tt)
    else
      (self, Threw (if decide (_nsBeingResharded self = getNss oplog)
                    then 5012005%Z else 5012002%Z)).
Proof.
  unfold _preProcessAndPushOpsToBuffer, belongs.
  destruct (decide (_nsBeingResharded self = getNss oplog)) as [Hns|Hns].
  - rewrite (bool_decide_eq_true_2 _ Hns). simpl.
    destruct (decide (Some (_uuidBeingResharded self) = getUuid oplog)) as [Hu|Hu].
    + rewrite (bool_decide_eq_true_2 _ Hu). simpl. by rewrite decide_True.
    + rewrite (bool_decide_eq_false_2 _ Hu). simpl. by rewrite decide_False by tauto.
  - rewrite (bool_decide_eq_false_2 _ Hns). simpl. by rewrite decide_False by tauto.
Qed.

Lemma preProcess_all batch self :
  Forall (belongs self) batch →
  forEachM _preProcessAndPushOpsToBuffer batch self
  = (set_currentBatchToApply
       (_currentBatchToApply self ++ (reshardedCopy (_outputNs self) <$> batch)) self,
     Ok tt).
Proof.
  revert self. induction batch as [|op batch IH]; intros self Hall.
  - simpl. rewrite app_nil_r. by destruct self.
  - inversion Hall as [|? ? Hop Hrest]; subst. cbn [forEachM].
    unfold mbind at 1, M_bind. rewrite preProcess_one, decide_True by done.
    rewrite IH by exact Hrest. destruct self; simpl. by rewrite <- app_assoc.
Qed.

(** X3: the records of a fetched batch are buffered one by one.  If they all
    are of the collection being resharded, the buffer grows by their copies
    under the output namespace, in the order of the batch.  If one is not,
    buffering throws at that record (5012002 for a foreign namespace, else
    5012005 for a foreign or missing UUID) and the copies of the records
    before it stay in the buffer. *)
Theorem preProcess_batch (self : ReshardingOplogApplier) :
  (∀ batch,
     Forall (belongs self) batch →
     forEachM _preProcessAndPushOpsToBuffer batch self
     = (set_currentBatchToApply
          (_currentBatchToApply self ++ (reshardedCopy (_outputNs self) <$> batch)) self,
        Ok tt))
  ∧ (∀ accepted foreign rest,
       Forall (belongs self) accepted →
       ¬ belongs self foreign →
       forEachM _preProcessAndPushOpsToBuffer (accepted ++ foreign :: rest) self
       = (set_currentBatchToApply
            (_currentBatchToApply self ++ (reshardedCopy (_outputNs self) <$> accepted)) self,
          Threw (if decide (_nsBeingResharded self = getNss foreign)
                 then 5012005%Z else 5012002%Z))).
Proof.
  split; [intros batch Hall; by apply preProcess_all|].
  intros accepted foreign rest Hall Hforeign.
  rewrite forEachM_app. unfold mbind at 1, M_bind. rewrite preProcess_all by done.
  cbn [forEachM]. unfold mbind at 1, M_bind. rewrite preProcess_one.
  rewrite decide_False; [by destruct self|].
  intros Hb. apply Hforeign. by destruct self.
Qed.

(** ** What the pipeline leaves alone, and the stage it reaches *)

Lemma framed_refl sys : framed sys sys.
Proof. by repeat split. Qed.

Lemma framed_trans sys1 sys2 sys3 : framed sys1 sys2 → framed sys2 sys3 → framed sys1 sys3.
Proof.
  intros (Hs1 & Hi1 & Hp1) (Hs2 & Hi2 & Hp2). split; [congruence|]. split; [by etrans|].
  intros other Hother. rewrite Hp2, Hp1; [done..|].
  unfold settings in Hs1. congruence.
Qed.

Lemma onWriterVectorDone_shape st self self' r :
  _onWriterVectorDone st self = (self', r) →
  ∃ k c p, self' = set_completion k c p self.
Proof.
  unfold _onWriterVectorDone. destruct (negb _).
  { intros [= <- _].
    exists (_remainingWritersToWait self), (_currentBatchConsolidatedStatus self),
           (_currentApplyBatchPromise self). by destruct self. }
  destruct (bool_decide _); intros [= <- _]; eexists _, _, _; by destruct self.
Qed.

Lemma set_completion_same self :
  ∃ k c p, self = set_completion k c p self.
Proof.
  exists (_remainingWritersToWait self), (_currentBatchConsolidatedStatus self),
         (_currentApplyBatchPromise self). by destruct self.
Qed.

Lemma batch_state_same self :
  ∃ d w k c p,
    self = set_completion k c p (set_currentWriterVectors w (set_currentDerivedOps d self)).
Proof.
  exists (_currentDerivedOps self), (_currentWriterVectors self),
         (_remainingWritersToWait self), (_currentBatchConsolidatedStatus self),
         (_currentApplyBatchPromise self). by destruct self.
Qed.

Lemma runWriters_shape ws sys sys' r :
  forEachM runWriter ws sys = (sys', r) →
  (∃ k c p, applier sys' = set_completion k c p (applier sys))
  ∧ progressStore sys' = progressStore sys.
Proof.
  revert sys. induction ws as [|w ws IH]; intros sys.
  { intros [= <- _]. split; [|done]. apply set_completion_same. }
  cbn [forEachM]. unfold mbind at 1, M_bind.
  destruct (runWriter w sys) as [sys1 r1] eqn:Hw.
  assert ((∃ k c p, applier sys1 = set_completion k c p (applier sys))
          ∧ progressStore sys1 = progressStore sys) as [(k & c & p & Ha) Hp].
  { revert Hw. unfold runWriter, mbind, M_bind.
    destruct (writerStatus w sys) as [sysm rm] eqn:Hst.
    apply writerStatus_frame in Hst as [Ham Hpm].
    destruct rm as [st| | |];
      try (intros [= <- _]; split; [|done]; rewrite Ham; apply set_completion_same).
    unfold onSelf. destruct (_onWriterVectorDone st (applier sysm)) as [self' rd] eqn:Hd.
    intros [= <- _]. cbn [applier progressStore]. split; [|done].
    apply onWriterVectorDone_shape in Hd. by rewrite <- Ham. }
  destruct r1 as [[]| | |];
    try (intros [= <- _]; split; [by eexists _, _, _|done]).
  intros Hrest. apply IH in Hrest as [(k' & c' & p' & Ha') Hp'].
  split; [|congruence]. exists k', c', p'. rewrite Ha', Ha. by destruct (applier sys).
Qed.

Lemma applyBatch_shape sys1 sys3 r :
  _applyBatch sys1 = (sys3, r) →
  (∃ d w k c p,
     applier sys3 = set_completion k c p
                      (set_currentWriterVectors w (set_currentDerivedOps d (applier sys1))))
  ∧ progressStore sys3 = progressStore sys1.
Proof.
  unfold _applyBatch. unfold mbind at 1, M_bind. unfold onSelf at 1.
  destruct (_fillWriterVectors (applier sys1)) as [self2 rf] eqn:Hfill.
  apply fillWriterVectors_frame in Hfill.
  destruct rf as [wv| | |];
    try (intros [= <- _]; split; [|done]; cbn [applier]; rewrite Hfill;
         exists (_currentDerivedOps self2), (_currentWriterVectors (applier sys1)),
                (_remainingWritersToWait (applier sys1)),
                (_currentBatchConsolidatedStatus (applier sys1)),
                (_currentApplyBatchPromise (applier sys1)); by destruct (applier sys1)).
  unfold mbind at 1, M_bind. unfold onSelf at 1, modify. cbn [applier node progressStore].
  unfold mbind at 1, M_bind. unfold onSelf at 1, modify. cbn [applier node progressStore].
  unfold mbind at 1, M_bind. unfold onSelf at 1, gets. cbn [applier node progressStore].
  unfold mbind at 1, M_bind.
  destruct (forEachM runWriter _ _) as [sysR rr] eqn:Hrun.
  apply runWriters_shape in Hrun as [(k & c & p & Ha) Hp].
  cbn [applier progressStore] in Ha, Hp.
  assert ((∃ d w k c p,
             applier sysR = set_completion k c p
                              (set_currentWriterVectors w
                                 (set_currentDerivedOps d (applier sys1))))
          ∧ progressStore sysR = progressStore sys1) as Hshape.
  { split; [|done]. rewrite Ha, Hfill. eexists _, _, _, _, _. by destruct (applier sys1). }
  destruct rr as [[]| | |]; try (by intros [= <- _]).
  unfold mbind at 1, M_bind. unfold onSelf at 1, gets.
  replace (mkSystem (applier sysR) (node sysR) (progressStore sysR)) with sysR
    by (by destruct sysR).
  destruct (_currentApplyBatchPromise (applier sysR)) as [final|]; [|by intros [= <- _]].
  unfold liftR, mret, M_ret. by destruct (isOK final); intros [= <- _].
Qed.

Lemma preProcess_shape batch self self' r :
  forEachM _preProcessAndPushOpsToBuffer batch self = (self', r) →
  ∃ b, self' = set_currentBatchToApply b self.
Proof.
  revert self. induction batch as [|op batch IH]; intros self.
  { intros [= <- _]. exists (_currentBatchToApply self). by destruct self. }
  cbn [forEachM]. unfold mbind at 1, M_bind. rewrite preProcess_one.
  destruct (decide (belongs self op)).
  - intros Hrest. apply IH in Hrest as [b' ->]. exists b'. by destruct self.
  - intros [= <- _]. exists (_currentBatchToApply self). by destruct self.
Qed.

Lemma afterApply_frame sys3 sys' r :
  afterApply sys3 = (sys', r) →
  framed sys3 sys'
  ∧ match r with
    | Ok true => _stage (applier sys') = _stage (applier sys3)
    | Ok false => stageReached sys3 sys'
    | _ => True
    end.
Proof.
  unfold afterApply.
  unfold mbind at 1, M_bind. unfold onSelf at 1, gets. cbn [applier node progressStore].
  unfold mbind at 1, M_bind. unfold onSelf at 1, gets. cbn [applier node progressStore].
  replace (mkSystem (applier sys3) (node sys3) (progressStore sys3)) with sys3
    by (by destruct sys3).
  case_bool_decide as Hbuf.
  { unfold mbind at 1, M_bind, stageReached.
    destruct (_stage (applier sys3)) eqn:Hst; simpl;
      unfold onSelf, modify, mret, M_ret; simpl; intros [= <- <-]; simpl;
      (split; [by repeat split|]); split; intros; done. }
  unfold mbind at 1, M_bind.
  unfold _clearAppliedOpsAndStoreProgress, mbind, M_bind, onSelf, gets, liftR,
    upsertProgress, modify, mret, M_ret. cbn [applier node progressStore].
  destruct (deref (list.last _)) as [lastOplog| | |];
    try (intros [= <- <-]; split; [by repeat split|done]).
  destruct (deref (get_id lastOplog)) as [idValue| | |];
    try (intros [= <- <-]; split; [by repeat split|done]).
  destruct (parseDonorOplogId idValue) as [oplogId| | |];
    try (intros [= <- <-]; split; [by repeat split|done]).
  cbn [applier node progressStore].
  assert (∀ a : ReshardingOplogApplier,
            framed sys3 (mkSystem a (node sys3)
                           (<[_sourceId (applier sys3) := oplogId]> (progressStore sys3))) ↔
            settings a = settings (applier sys3)
            ∧ _oplogIter a `suffix_of` _oplogIter (applier sys3)) as Hfr.
  { intros a. unfold framed. cbn [applier progressStore]. split; [tauto|].
    intros [? ?]. split; [done|]. split; [done|].
    intros other Hother. by rewrite lookup_insert_ne. }
  destruct (bool_decide (_stage (applier sys3) = kStarted)) eqn:Hst; cbn [andb].
  - destruct (bool_decide (_ ≤ _)%N).
    + intros [= <- <-]. split; [apply Hfr; by destruct (applier sys3)|].
      apply bool_decide_eq_true_1 in Hst. split; [done|]. intros ?; congruence.
    + intros [= <- <-]. split; [apply Hfr; by destruct (applier sys3)|].
      by destruct (applier sys3).
  - intros [= <- <-]. split; [apply Hfr; by destruct (applier sys3)|].
    by destruct (applier sys3).
Qed.

Lemma scheduleOneBatch_frame sys sys' r :
  scheduleOneBatch sys = (sys', r) →
  framed sys sys'
  ∧ match r with
    | Ok true => _stage (applier sys') = _stage (applier sys)
    | Ok false => stageReached sys sys'
    | _ => True
    end.
Proof.
  unfold scheduleOneBatch. unfold mbind at 1, M_bind.
  destruct (onSelf getNextBatch sys) as [sysF rF] eqn:Hfetch.
  assert (framed sys sysF ∧ _stage (applier sysF) = _stage (applier sys)
          ∧ ∃ batch, rF = Ok batch) as (HfF & HsF & batch & ->).
  { unfold onSelf, getNextBatch in Hfetch. unfold framed.
    destruct (_oplogIter (applier sys)) as [|b rest] eqn:Hit; injection Hfetch as <- <-;
      cbn [applier progressStore].
    - rewrite Hit. by eauto 10.
    - split; [|split; [by destruct (applier sys)|by eauto]].
      split; [by destruct (applier sys)|]. split; [|done].
      replace (_oplogIter (set_oplogIter rest (applier sys))) with rest
        by (by destruct (applier sys)).
      by apply suffix_cons_r. }
  unfold mbind at 1, M_bind.
  destruct (onSelf (forEachM _preProcessAndPushOpsToBuffer batch) sysF) as [sys1 r1] eqn:Hpre.
  assert (framed sysF sys1 ∧ _stage (applier sys1) = _stage (applier sysF))
    as (Hf1 & Hs1).
  { unfold onSelf in Hpre.
    destruct (forEachM _ batch (applier sysF)) as [selfP rP] eqn:HP.
    injection Hpre as <- _. apply preProcess_shape in HP as [b ->].
    unfold framed. cbn [applier progressStore].
    split; [|by destruct (applier sysF)].
    split; [by destruct (applier sysF)|]. split; [by destruct (applier sysF)|done]. }
  destruct r1 as [[]| | |];
    try (intros [= <- <-]; split; [by eapply framed_trans|done]).
  unfold mbind at 1, M_bind.
  destruct (_applyBatch sys1) as [sys3 r3] eqn:Happly.
  apply applyBatch_shape in Happly as [(d & w & k & c & p & Ha3) Hp3].
  assert (framed sys1 sys3 ∧ _stage (applier sys3) = _stage (applier sys1)
          ∧ _currentBatchToApply (applier sys3) = _currentBatchToApply (applier sys1))
    as (Hf3 & Hs3 & Hb3).
  { unfold framed. rewrite Ha3, Hp3. by destruct (applier sys1). }
  assert (framed sys sys3) as Hf by (eapply framed_trans; [|exact Hf3]; by eapply framed_trans).
  destruct r3 as [[]| | |]; try (by intros [= <- <-]).
  intros Hafter. apply afterApply_frame in Hafter as [Hf' Hstage].
  split; [by eapply framed_trans|].
  destruct r as [[]| | |]; try done.
  - congruence.
  - unfold stageReached in *. rewrite Hs3, Hs1, HsF in Hstage. done.
Qed.

Lemma scheduleNextBatch_frame fuel sys sys' r :
  scheduleNextBatch fuel sys = (sys', r) →
  framed sys sys' ∧ (r = Ok tt → stageReached sys sys').
Proof.
  revert sys. induction fuel as [|fuel IH]; intros sys.
  { intros [= <- <-]. split; [apply framed_refl|done]. }
  cbn [scheduleNextBatch]. unfold mbind at 1, M_bind.
  destruct (scheduleOneBatch sys) as [sys1 r1] eqn:Hone.
  apply scheduleOneBatch_frame in Hone as [Hf1 Hs1].
  destruct r1 as [[]| | |]; try (by intros [= <- <-]); cbn [negb].
  - intros Hrest. apply IH in Hrest as [Hf Hs].
    split; [by eapply framed_trans|].
    intros Hr. specialize (Hs Hr). unfold stageReached in *. by rewrite <- Hs1.
Qed.

Lemma runAndCatch_outcome sys sys' r :
  runAndCatch _scheduleNextBatch sys = (sys', r) →
  framed sys sys'
  ∧ (∀ c, r ≠ Threw c)
  ∧ ∀ st, r = Ok st →
      (st = StatusOK ∧ _scheduleNextBatch sys = (sys', Ok tt) ∧ stageReached sys sys')
      ∨ (∃ c, st = mkStatus c ∧ (_scheduleNextBatch sys).2 = Threw c
              ∧ _stage (applier sys') = kErrorOccurred).
Proof.
  unfold runAndCatch.
  destruct (_scheduleNextBatch sys) as [sysT rT] eqn:Hrun.
  pose proof Hrun as Hrun'. unfold _scheduleNextBatch in Hrun'.
  apply scheduleNextBatch_frame in Hrun' as [Hf Hs].
  destruct rT as [[]|c| |].
  - intros [= <- <-]. split; [done|]. split; [done|].
    intros st [= <-]. left. auto.
  - unfold onSelf, _onError, mbind, M_bind, modify, mret, M_ret. intros [= <- <-].
    split.
    { eapply framed_trans; [exact Hf|]. unfold framed. cbn [applier progressStore].
      by destruct (applier sysT). }
    split; [done|]. intros st [= <-]. right. exists c. by destruct (applier sysT).
  - intros [= <- <-]. split; [done|]. split; done.
  - intros [= <- <-]. split; [done|]. split; done.
Qed.

(** X4: [applyUntilCloneFinishedTs] never throws.  Called in a stage other
    than [kStarted] it trips its invariant and changes nothing.  When it
    returns a status, either the pipeline completed, the status is OK and
    the stage is [kReachedCloningTS]; or the pipeline threw, the status
    carries the code thrown and the stage is [kErrorOccurred]. *)
Theorem applyUntilCloneFinishedTs_outcome (sys sys' : System) (r : Result Status) :
  applyUntilCloneFinishedTs sys = (sys', r) →
  (∀ c, r ≠ Threw c)
  ∧ (_stage (applier sys) ≠ kStarted → r = Fatal ∧ sys' = sys)
  ∧ ∀ st, r = Ok st →
      _stage (applier sys) = kStarted
      ∧ ((st = StatusOK ∧ _scheduleNextBatch sys = (sys', Ok tt)
          ∧ _stage (applier sys') = kReachedCloningTS)
         ∨ (∃ c, st = mkStatus c ∧ (_scheduleNextBatch sys).2 = Threw c
                 ∧ _stage (applier sys') = kErrorOccurred)).
Proof.
  unfold applyUntilCloneFinishedTs.
  unfold mbind at 1, M_bind. unfold onSelf at 1, gets.
  replace (mkSystem (applier sys) (node sys) (progressStore sys)) with sys
    by (by destruct sys).
  unfold mbind at 1, M_bind. unfold liftR, invariant.
  case_bool_decide as Hstage.
  - intros Hrun. apply runAndCatch_outcome in Hrun as (_ & Hthrow & Hok).
    split; [done|]. split; [done|]. intros st Hst. split; [done|].
    destruct (Hok st Hst) as [(? & ? & Hs)|?]; [left|by right].
    split; [done|]. split; [done|]. by apply Hs.
  - intros [= <- <-]. split; [done|]. split; done.
Qed.

(** X5: [applyUntilDone] never throws.  Called in a stage other than
    [kReachedCloningTS] it trips its invariant and changes nothing.  When it
    returns a status, either the pipeline completed, the status is OK, the
    stage is [kFinished] and the batch buffer is empty; or the pipeline
    threw, the status carries the code thrown and the stage is
    [kErrorOccurred]. *)
Theorem applyUntilDone_outcome (sys sys' : System) (r : Result Status) :
  applyUntilDone sys = (sys', r) →
  (∀ c, r ≠ Threw c)
  ∧ (_stage (applier sys) ≠ kReachedCloningTS → r = Fatal ∧ sys' = sys)
  ∧ ∀ st, r = Ok st →
      _stage (applier sys) = kReachedCloningTS
      ∧ ((st = StatusOK ∧ _scheduleNextBatch sys = (sys', Ok tt)
          ∧ _stage (applier sys') = kFinished
          ∧ _currentBatchToApply (applier sys') = [])
         ∨ (∃ c, st = mkStatus c ∧ (_scheduleNextBatch sys).2 = Threw c
                 ∧ _stage (applier sys') = kErrorOccurred)).
Proof.
  unfold applyUntilDone.
  unfold mbind at 1, M_bind. unfold onSelf at 1, gets.
  replace (mkSystem (applier sys) (node sys) (progressStore sys)) with sys
    by (by destruct sys).
  unfold mbind at 1, M_bind. unfold liftR, invariant.
  case_bool_decide as Hstage.
  - intros Hrun. apply runAndCatch_outcome in Hrun as (_ & Hthrow & Hok).
    split; [done|]. split; [done|]. intros st Hst. split; [done|].
    destruct (Hok st Hst) as [(? & ? & Hs)|?]; [left|by right].
    split; [done|]. split; [done|]. by apply Hs.
  - intros [= <- <-]. split; [done|]. split; done.
Qed.

(** X6: whatever an entry point does and however it ends, it leaves the
    settings of the applier (source id, namespaces, UUID, clone timestamp,
    number of threads) as they were, it only advances the iterator, and it
    leaves the stored progress of every other source as it was. *)
Theorem entry_points_frame (sys sys' : System) (r : Result Status) :
  applyUntilCloneFinishedTs sys = (sys', r) ∨ applyUntilDone sys = (sys', r) →
  settings (applier sys') = settings (applier sys)
  ∧ _oplogIter (applier sys') `suffix_of` _oplogIter (applier sys)
  ∧ ∀ other, other ≠ _sourceId (applier sys) →
             checkStoredProgress sys' other = checkStoredProgress sys other.
Proof.
  intros Hrun.
  assert (framed sys sys') as (Hs & Hi & Hp).
  { destruct Hrun as [Hrun|Hrun]; revert Hrun;
      unfold applyUntilCloneFinishedTs, applyUntilDone;
      unfold mbind at 1, M_bind; unfold onSelf at 1, gets;
      replace (mkSystem (applier sys) (node sys) (progressStore sys)) with sys
        by (by destruct sys);
      unfold mbind at 1, M_bind; unfold liftR, invariant;
      (case_bool_decide; [|intros [= <- _]; apply framed_refl]);
      intros Hrun; by apply runAndCatch_outcome in Hrun as [? _]. }
  split; [done|]. split; [done|].
  intros other Hother. unfold checkStoredProgress. by rewrite Hp.
Qed.

(** ** Passes that apply nothing, and passes that apply a batch *)

Lemma applyBatch_no_writers (sys : System) :
  _currentBatchToApply (applier sys) = [] →
  _currentDerivedOps (applier sys) = [] →
  numThreads (applier sys) = 0 →
  _applyBatch sys =
  (mkSystem (set_completion 0 StatusOK None (set_currentWriterVectors [] (applier sys)))
            (node sys) (progressStore sys), Hang).
Proof.
  intros Hbatch Hderived Hn. destruct sys as [self n ps]. cbn [applier node progressStore] in *.
  unfold _applyBatch. unfold mbind at 1, M_bind.
  unfold onSelf at 1. cbn [applier node progressStore].
  rewrite fillWriterVectors_nothing_buffered by done. rewrite Hn. cbn [replicate].
  unfold mbind at 1, M_bind. unfold onSelf at 1, modify. cbn [applier node progressStore].
  unfold mbind at 1, M_bind. unfold onSelf at 1, modify. cbn [applier node progressStore].
  unfold mbind at 1, M_bind. unfold onSelf at 1, gets. cbn [applier node progressStore].
  unfold mbind at 1, M_bind.
  by destruct self.
Qed.

Lemma fetch_nothing (sys : System) :
  head (_oplogIter (applier sys)) = None ∨ head (_oplogIter (applier sys)) = Some [] →
  onSelf getNextBatch sys =
  (mkSystem (set_oplogIter (tail (_oplogIter (applier sys))) (applier sys))
            (node sys) (progressStore sys), Ok []).
Proof.
  intros Hiter. unfold onSelf, getNextBatch.
  destruct (_oplogIter (applier sys)) as [|b rest] eqn:Hit.
  - destruct (applier sys); simpl in *. by subst.
  - destruct Hiter as [Hi|Hi]; [done|]. simpl in Hi. by injection Hi as ->.
Qed.

(** X7: with no writer thread the pipeline cannot finish even a pass that has
    nothing to apply: there is no writer vector, so no writer ever reports,
    the promise of the batch is never made ready and
    [applyUntilCloneFinishedTs] does not return; the stage stays [kStarted]
    and no progress is written. *)
Theorem no_writer_threads_never_returns (sys : System) :
  _stage (applier sys) = kStarted →
  head (_oplogIter (applier sys)) = None ∨ head (_oplogIter (applier sys)) = Some [] →
  _currentBatchToApply (applier sys) = [] →
  _currentDerivedOps (applier sys) = [] →
  numThreads (applier sys) = 0 →
  ∃ sys',
    applyUntilCloneFinishedTs sys = (sys', Hang)
    ∧ _stage (applier sys') = kStarted
    ∧ _currentApplyBatchPromise (applier sys') = None
    ∧ _currentWriterVectors (applier sys') = []
    ∧ progressStore sys' = progressStore sys.
Proof.
  intros Hstage Hiter Hbatch Hderived Hn.
  pose proof (fetch_nothing sys Hiter) as Hfetch.
  destruct sys as [self n ps]. cbn [applier node progressStore] in *.
  unfold applyUntilCloneFinishedTs.
  unfold mbind at 1, M_bind. unfold onSelf at 1, gets. cbn [applier node progressStore].
  rewrite Hstage. unfold mbind at 1, M_bind. cbn [liftR invariant bool_decide decide_rel].
  rewrite bool_decide_eq_true_2 by done.
  unfold runAndCatch, _scheduleNextBatch. cbn [Nat.add scheduleNextBatch].
  unfold mbind at 1, M_bind. unfold scheduleOneBatch.
  unfold mbind at 1, M_bind. rewrite Hfetch. cbn [forEachM].
  unfold mbind at 1, M_bind. unfold onSelf at 1. cbn [applier node progressStore mret M_ret].
  unfold mbind at 1, M_bind.
  rewrite applyBatch_no_writers; cbn [applier node progressStore];
    [|by destruct self..].
  destruct self. simpl in *. subst.
  eexists. split; [reflexivity|]. simpl. done.
Qed.

(** X8: in stage [kReachedCloningTS], when nothing is buffered and the batch
    fetched is empty, [applyUntilDone] completes with OK and moves the stage
    to [kFinished]; it applies nothing and writes no progress. *)
Theorem empty_batch_finishes (sys : System) :
  _stage (applier sys) = kReachedCloningTS →
  head (_oplogIter (applier sys)) = None ∨ head (_oplogIter (applier sys)) = Some [] →
  _currentBatchToApply (applier sys) = [] →
  _currentDerivedOps (applier sys) = [] →
  0 < numThreads (applier sys) →
  ∃ sys',
    applyUntilDone sys = (sys', Ok StatusOK)
    ∧ _stage (applier sys') = kFinished
    ∧ progressStore sys' = progressStore sys
    ∧ node sys' = node sys
    ∧ _currentBatchToApply (applier sys') = []
    ∧ _oplogIter (applier sys') = tail (_oplogIter (applier sys)).
Proof.
  intros Hstage Hiter Hbatch Hderived Hn.
  pose proof (fetch_nothing sys Hiter) as Hfetch.
  destruct sys as [self n ps]. cbn [applier node progressStore] in *.
  unfold applyUntilDone.
  unfold mbind at 1, M_bind. unfold onSelf at 1, gets. cbn [applier node progressStore].
  rewrite Hstage. unfold mbind at 1, M_bind. cbn [liftR invariant bool_decide decide_rel].
  rewrite bool_decide_eq_true_2 by done.
  unfold runAndCatch, _scheduleNextBatch. cbn [Nat.add scheduleNextBatch].
  unfold mbind at 1, M_bind. unfold scheduleOneBatch.
  unfold mbind at 1, M_bind. rewrite Hfetch. cbn [forEachM].
  unfold mbind at 1, M_bind. unfold onSelf at 1. cbn [applier node progressStore mret M_ret].
  unfold mbind at 1, M_bind.
  rewrite applyBatch_nothing_buffered; cbn [applier node progressStore];
    [|by destruct self..].
  destruct self. simpl in *. subst.
  eexists. split; [reflexivity|]. simpl. done.
Qed.

(** X9: once a non-empty batch has been applied, the pipeline stores the id
    of its last record as the progress of the source and empties both
    buffers.  It stops, moving the stage to [kReachedCloningTS], exactly when
    the stage is [kStarted] and the timestamp of that last record has
    reached the clone timestamp; in every other case (so always in stage
    [kReachedCloningTS]) it keeps the stage and asks for another batch. *)
Theorem afterApply_applied (sys : System)
    (lastOplog : OplogEntry) (idValue : BSONObj) (token : ReshardingDonorOplogId) :
  list.last (_currentBatchToApply (applier sys)) = Some lastOplog →
  get_id lastOplog = Some idValue →
  parseDonorOplogId idValue = Ok token →
  let stop :=
    bool_decide (_stage (applier sys) = kStarted)
    && bool_decide (_reshardingCloneFinishedTs (applier sys) ≤ getTimestamp lastOplog)%N in
  ∃ sys',
    afterApply sys = (sys', Ok (negb stop))
    ∧ checkStoredProgress sys' (_sourceId (applier sys))
      = Some (mkProgress (_sourceId (applier sys)) token)
    ∧ _currentBatchToApply (applier sys') = []
    ∧ _currentDerivedOps (applier sys') = []
    ∧ _stage (applier sys') = (if stop then kReachedCloningTS else _stage (applier sys))
    ∧ _oplogIter (applier sys') = _oplogIter (applier sys)
    ∧ node sys' = node sys.
Proof.
  intros Hlast Hid Hparse stop.
  assert (_currentBatchToApply (applier sys) ≠ []) as Hne.
  { intros Hnil. by rewrite Hnil in Hlast. }
  unfold afterApply.
  unfold mbind at 1, M_bind. unfold onSelf at 1, gets. cbn [applier node progressStore].
  unfold mbind at 1, M_bind. unfold onSelf at 1, gets. cbn [applier node progressStore].
  rewrite bool_decide_eq_false_2 by done.
  unfold mbind at 1, M_bind.
  unfold _clearAppliedOpsAndStoreProgress, mbind, M_bind, onSelf, gets, liftR,
    upsertProgress, modify, mret, M_ret. cbn [applier node progressStore].
  rewrite Hlast. cbn [deref]. rewrite Hid. cbn [deref]. rewrite Hparse.
  cbn [applier node progressStore].
  replace (_reshardingCloneFinishedTs _) with (_reshardingCloneFinishedTs (applier sys))
    by (by destruct (applier sys)).
  fold stop. destruct stop; cbn [negb applier node progressStore];
    (eexists; split; [reflexivity|]); unfold checkStoredProgress;
    cbn [applier node progressStore]; rewrite lookup_insert_eq; by destruct (applier sys).
Qed.

(** X10: reports beyond the number of writers waited for are refused.  The
    first [_remainingWritersToWait] reports are taken as usual; the next one
    trips the invariant and leaves the state, with the promise already made
    ready, as those reports left it. *)
Theorem onWriterVectorDone_over_report (self : ReshardingOplogApplier)
    (statuses : list Status) :
  _remainingWritersToWait self < length statuses →
  forEachM _onWriterVectorDone statuses self
  = ((forEachM _onWriterVectorDone (take (_remainingWritersToWait self) statuses) self).1,
     Fatal).
Proof.
  intros Hlen.
  rewrite <- (take_drop (_remainingWritersToWait self) statuses) at 1.
  rewrite forEachM_app. unfold mbind at 1, M_bind.
  assert (∃ self1, forEachM _onWriterVectorDone
                     (take (_remainingWritersToWait self) statuses) self = (self1, Ok tt)
                   ∧ _remainingWritersToWait self1 = 0) as (self1 & -> & Hzero).
  { destruct (_remainingWritersToWait self) as [|k] eqn:Hrem.
    - exists self. by rewrite take_0.
    - eexists. split.
      + apply onWriterVectorDone_all.
        * destruct statuses; [simpl in Hlen; lia|done].
        * rewrite length_take. lia.
      + done. }
  destruct (drop (_remainingWritersToWait self) statuses) as [|s rest] eqn:Hdrop.
  { apply (f_equal length) in Hdrop. rewrite length_drop in Hdrop. simpl in Hdrop. lia. }
  cbn [forEachM fst]. unfold mbind at 1, M_bind.
  unfold _onWriterVectorDone. rewrite Hzero. done.
Qed.

(** ** Writing a session record *)

Lemma insertOplog_new_txn oplog sid txn stmt n :
  getSessionId oplog = Some sid →
  getTxnNumber oplog = Some txn →
  getStatementId oplog = Some stmt →
  (activeTxnNumber (sessionOf n sid) < txn)%Z →
  inPreparedTransaction (sessionOf n sid) = false →
  insertOplogAndUpdateConfigForRetryable 1 oplog n
  = writeRetryableNoOp oplog sid txn stmt
      (set_sessionCatalog
         (<[sid := mkSessionState txn [] nullOpTime false false]> (sessionCatalog n))
         (set_opCtx (Some sid) (Some txn) n)).
Proof.
  intros Hsid Htxn Hstmt Hlt Hprep. rewrite insertOplog_unfold, Hsid, Htxn, Hstmt.
  unfold mbind, M_bind, beginOrContinue.
  change (sessionOf (set_opCtx (Some sid) (Some txn) n) sid) with (sessionOf n sid).
  rewrite bool_decide_eq_false_2 by lia. rewrite bool_decide_eq_false_2 by lia.
  rewrite Hprep. unfold putSession, modify, checkStatementExecuted, sessionOf.
  cbn [sessionCatalog set_sessionCatalog set_opCtx]. rewrite lookup_insert_eq.
  cbn [default executedStatements hasIncompleteHistory].
  rewrite bool_decide_eq_false_2 by set_solver. done.
Qed.

Lemma insertOplog_writes fuel oplog sid txn stmt n :
  getSessionId oplog = Some sid →
  getTxnNumber oplog = Some txn →
  getStatementId oplog = Some stmt →
  ¬ settled sid txn stmt n →
  ∃ n1,
    insertOplogAndUpdateConfigForRetryable (2 + fuel) oplog n
    = writeRetryableNoOp oplog sid txn stmt n1
    ∧ sessionOf n1 sid = sessionFor sid txn n
    ∧ (∀ other, other ≠ sid → sessionCatalog n1 !! other = sessionCatalog n !! other)
    ∧ localOplog n1 = localOplog n
    ∧ collections n1 = collections n
    ∧ wallClock n1 = wallClock n.
Proof.
  intros Hsid Htxn Hstmt Huns. rewrite insertOplog_fuel. unfold sessionFor.
  assert (¬ (txn < activeTxnNumber (sessionOf n sid))%Z) as Hge
    by (intros ?; apply Huns; by left).
  destruct (decide (txn = activeTxnNumber (sessionOf n sid))) as [Heq|Hne].
  - (* the session is at [txn] *)
    assert (stmt ∉ executedStatements (sessionOf n sid)) as Hnew
      by (intros ?; apply Huns; right; auto).
    assert (hasIncompleteHistory (sessionOf n sid) = false) as Hinc.
    { destruct (hasIncompleteHistory _) eqn:E; [|done]. exfalso. apply Huns. right. auto. }
    exists (set_opCtx (Some sid) (Some txn) n). split; [|by rewrite bool_decide_eq_true_2].
    rewrite insertOplog_unfold, Hsid, Htxn, Hstmt.
    unfold mbind, M_bind, beginOrContinue, checkStatementExecuted.
    change (sessionOf (set_opCtx (Some sid) (Some txn) n) sid) with (sessionOf n sid).
    rewrite bool_decide_eq_false_2 by done. rewrite bool_decide_eq_true_2 by done.
    change (sessionOf (set_opCtx (Some sid) (Some txn) n) sid) with (sessionOf n sid).
    rewrite bool_decide_eq_false_2 by done. by rewrite Hinc.
  - (* [txn] is newer *)
    rewrite bool_decide_eq_false_2 by done.
    destruct (inPreparedTransaction (sessionOf n sid)) eqn:Hprep.
    + eexists. split.
      * rewrite insertOplog_unfold, Hsid, Htxn, Hstmt.
        unfold mbind at 1, M_bind. unfold beginOrContinue at 1.
        change (sessionOf (set_opCtx (Some sid) (Some txn) n) sid) with (sessionOf n sid).
        rewrite bool_decide_eq_false_2 by done. rewrite bool_decide_eq_false_2 by done.
        rewrite Hprep. cbn [bool_decide decide_rel].
        rewrite (bool_decide_eq_false_2 (PreparedTransactionInProgress = TransactionTooOld))
          by done.
        rewrite (bool_decide_eq_false_2
                   (PreparedTransactionInProgress = IncompleteTransactionHistory)) by done.
        rewrite bool_decide_eq_true_2 by done.
        apply insertOplog_new_txn; try done.
        -- unfold awaitExitPrepare, putSession, modify, sessionOf. simpl.
           rewrite lookup_insert_eq. simpl. fold (sessionOf n sid). lia.
        -- unfold awaitExitPrepare, putSession, modify, sessionOf. simpl.
           by rewrite lookup_insert_eq.
      * unfold awaitExitPrepare, putSession, modify, sessionOf. simpl.
        rewrite lookup_insert_eq. split; [done|]. split; [|done].
        intros other Hother. by rewrite !lookup_insert_ne.
    + eexists. split.
      { rewrite (insertOplog_not_prepared 1 _ sid) by done.
        apply insertOplog_new_txn; try done; lia. }
      unfold sessionOf. simpl. rewrite lookup_insert_eq. split; [done|]. split; [|done].
      intros other Hother. by rewrite lookup_insert_ne.
Qed.

Lemma insertPrePostImage_written image parsedImage n :
  opType image = kNoop →
  parseOplogEntry (toBSON image) = Ok parsedImage →
  insertPrePostImageOplogEntry image n
  = (set_localOplog
       (localOplog n
        ++ [setOpTime (mkOpTime (N.of_nat (S (length (localOplog n)))) 0%Z)
              (setWallClockTime (wallClock n) (setOpTime nullOpTime parsedImage))]) n,
     Ok (mkOpTime (N.of_nat (S (length (localOplog n)))) 0%Z)).
Proof.
  intros Hnoop Hparse.
  unfold insertPrePostImageOplogEntry, mbind, M_bind, liftR, uassert, gets, writeUnitOfWork,
    logOp, isNull, mret, M_ret.
  rewrite bool_decide_eq_true_2 by done. rewrite Hparse. cbn [opTimestamp].
  rewrite bool_decide_eq_false_2 by lia. done.
Qed.

(** X11: a session record without images whose statement is not settled is
    written: the handler returns OK after appending one marker to the oplog
    of the node.  The marker is a no-op with the empty namespace whose
    object is the apply tag and whose [o2] is the serialised record; it is
    chained to the session's previous write and stamped with the wall clock;
    its other fields are those parsed from the serialised record.  The
    session is then at the record's transaction, with the statement recorded
    as executed and the marker as its last write.  A prepared transaction in
    progress is waited for, not refused.  Other sessions and the collections
    are untouched. *)
Theorem retryable_first_write (fuel : nat) (oplog : OplogEntry) (sid : LogicalSessionId)
    (txn : TxnNumber) (stmt : StmtId) (n : Node) (parsed : DurableOplogEntry) :
  getSessionId oplog = Some sid →
  getTxnNumber oplog = Some txn →
  getStatementId oplog = Some stmt →
  ¬ settled sid txn stmt n →
  getPreImageOp oplog = None →
  getPostImageOp oplog = None →
  parseOplogEntry (toBSON (getEntry oplog)) = Ok parsed →
  ∃ n' marker,
    insertOplogAndUpdateConfigForRetryable (2 + fuel) oplog n = (n', Ok StatusOK)
    ∧ localOplog n' = localOplog n ++ [marker]
    ∧ opType marker = kNoop
    ∧ nss marker = emptyNss
    ∧ object marker = kReshardingOplogApplyTag
    ∧ object2 marker = Some (toBSON (getEntry oplog))
    ∧ prevWriteOpTimeInTransaction marker = Some (lastWriteOpTime (sessionFor sid txn n))
    ∧ wallClockTime marker = wallClock n
    ∧ isNull (opTime marker) = false
    ∧ sessionInfo marker = sessionInfo parsed
    ∧ statementId marker = statementId parsed
    ∧ preImageOpTime marker = preImageOpTime parsed
    ∧ postImageOpTime marker = postImageOpTime parsed
    ∧ sessionOf n' sid
      = mkSessionState txn (stmt :: executedStatements (sessionFor sid txn n))
                       (opTime marker)
                       (hasIncompleteHistory (sessionFor sid txn n))
                       (inPreparedTransaction (sessionFor sid txn n))
    ∧ (∀ other, other ≠ sid → sessionCatalog n' !! other = sessionCatalog n !! other)
    ∧ collections n' = collections n.
Proof.
  intros Hsid Htxn Hstmt Huns Hpre Hpost Hparse.
  destruct (insertOplog_writes fuel oplog sid txn stmt n Hsid Htxn Hstmt Huns)
    as (n1 & -> & Hs1 & Hothers & Hlog & Hcoll & Hclock).
  unfold writeRetryableNoOp. rewrite Hpre, Hpost.
  unfold mbind, M_bind, liftR, gets, writeUnitOfWork, logOp, uassert, isNull,
    onRetryableWriteCloningCompleted, putSession, modify, mret, M_ret.
  rewrite Hparse. cbn [opTimestamp].
  rewrite bool_decide_eq_false_2 by lia. cbn [negb].
  eexists _, _. split; [reflexivity|].
  cbn [localOplog set_localOplog set_sessionCatalog sessionCatalog collections wallClock
       rec_txnNum rec_lastWriteOpTime].
  rewrite Hlog, Hclock, Hcoll.
  change (sessionOf (set_localOplog _ n1) sid) with (sessionOf n1 sid).
  rewrite Hs1. split; [reflexivity|].
  do 11 (split; [reflexivity|]).
  split; [|split; [|done]].
  - unfold sessionOf at 1, set_sessionCatalog. cbn [sessionCatalog]. by rewrite lookup_insert_eq.
  - intros other Hother. unfold set_sessionCatalog. cbn [sessionCatalog].
    rewrite lookup_insert_ne by done. by apply Hothers.
Qed.

(** X12: a session record that carries an image.  When a pre-image is
    attached it is the image written (the post-image, if there is one too,
    is not); otherwise the post-image is.  An image that is not a no-op is
    refused with 4990408 and nothing is appended to the oplog.  Otherwise
    the image is appended first, as parsed from its serialised form and
    stamped with the wall clock, then the marker, whose pre-image (or
    post-image) optime is the optime of the image entry while its other
    image optime is the one parsed from the record. *)
Theorem retryable_write_with_image (fuel : nat) (oplog : OplogEntry)
    (sid : LogicalSessionId) (txn : TxnNumber) (stmt : StmtId) (n : Node)
    (image : DurableOplogEntry) :
  getSessionId oplog = Some sid →
  getTxnNumber oplog = Some txn →
  getStatementId oplog = Some stmt →
  ¬ settled sid txn stmt n →
  getPreImageOp oplog = Some image
  ∨ (getPreImageOp oplog = None ∧ getPostImageOp oplog = Some image) →
  (opType image ≠ kNoop →
   ∃ n', insertOplogAndUpdateConfigForRetryable (2 + fuel) oplog n = (n', Threw 4990408%Z)
         ∧ localOplog n' = localOplog n
         ∧ collections n' = collections n)
  ∧ (opType image = kNoop →
     ∀ parsedImage parsed,
       parseOplogEntry (toBSON image) = Ok parsedImage →
       parseOplogEntry (toBSON (getEntry oplog)) = Ok parsed →
       ∃ n' imageEntry marker,
         insertOplogAndUpdateConfigForRetryable (2 + fuel) oplog n = (n', Ok StatusOK)
         ∧ localOplog n' = localOplog n ++ [imageEntry; marker]
         ∧ imageEntry = setOpTime (opTime imageEntry)
                          (setWallClockTime (wallClock n) parsedImage)
         ∧ isNull (opTime imageEntry) = false
         ∧ opTime marker ≠ opTime imageEntry
         ∧ object marker = kReshardingOplogApplyTag
         ∧ object2 marker = Some (toBSON (getEntry oplog))
         ∧ (is_Some (getPreImageOp oplog) →
            preImageOpTime marker = Some (opTime imageEntry)
            ∧ postImageOpTime marker = postImageOpTime parsed)
         ∧ (getPreImageOp oplog = None →
            postImageOpTime marker = Some (opTime imageEntry)
            ∧ preImageOpTime marker = preImageOpTime parsed)
         ∧ lastWriteOpTime (sessionOf n' sid) = opTime marker
         ∧ stmt ∈ executedStatements (sessionOf n' sid)).
Proof.
  intros Hsid Htxn Hstmt Huns Himage.
  destruct (insertOplog_writes fuel oplog sid txn stmt n Hsid Htxn Hstmt Huns)
    as (n1 & -> & Hs1 & Hothers & Hlog & Hcoll & Hclock).
  assert (∀ k : DurableOplogEntry → M Node OpTime,
            match getPreImageOp oplog with
            | Some preImageOp => k preImageOp
            | None => match getPostImageOp oplog with
                      | Some postImageOp => k postImageOp
                      | None => mret nullOpTime
                      end
            end = k image) as Hpick.
  { intros k. destruct Himage as [Hp | [Hp Hq]]; rewrite Hp, ?Hq; done. }
  unfold writeRetryableNoOp. rewrite Hpick. split.
  - intros Hnot. unfold mbind at 1, M_bind.
    unfold insertPrePostImageOplogEntry, mbind, M_bind, liftR, uassert.
    rewrite bool_decide_eq_false_2 by done. by eauto.
  - intros Hnoop parsedImage parsed HparseI Hparse.
    unfold mbind at 1, M_bind. rewrite (insertPrePostImage_written _ _ _ Hnoop HparseI).
    unfold mbind, M_bind, liftR, gets, writeUnitOfWork, logOp, uassert, isNull,
      onRetryableWriteCloningCompleted, putSession, modify, mret, M_ret.
    rewrite Hparse. cbn [opTimestamp].
    rewrite bool_decide_eq_false_2 by lia. cbn [negb].
    eexists _, _, _. split; [reflexivity|].
    cbn [localOplog set_localOplog set_sessionCatalog sessionCatalog collections wallClock
         rec_txnNum rec_lastWriteOpTime].
    rewrite Hlog, Hclock.
    split; [by rewrite <- app_assoc|].
    split; [reflexivity|].
    split; [cbn; by rewrite bool_decide_eq_false_2 by lia|].
    split.
    { cbn. rewrite length_app. cbn. intros [= Heq]. lia. }
    split; [destruct Himage as [Hp | [Hp Hq]]; rewrite Hp, ?Hq; done|].
    split; [destruct Himage as [Hp | [Hp Hq]]; rewrite Hp, ?Hq; done|].
    split; [|split; [|split]].
    + intros [? Hsome]. rewrite Hsome. done.
    + intros Hnone. destruct Himage as [Hp | [_ ->]]; [congruence|]. rewrite Hnone. done.
    + unfold sessionOf at 1, set_sessionCatalog. cbn [sessionCatalog].
      by rewrite lookup_insert_eq.
    + unfold sessionOf at 1, set_sessionCatalog. cbn [sessionCatalog].
      rewrite lookup_insert_eq. cbn. apply list_elem_of_here.
Qed.

(** X13: a session record is skipped, with OK, when the session has moved
    past its transaction (the handler catches [TransactionTooOld]) or when
    the session is at its transaction with an incomplete history (it catches
    [IncompleteTransactionHistory]): nothing is written to the oplog, and
    the session catalog and the collections are as they were. *)
Theorem retryable_skipped (fuel : nat) (oplog : OplogEntry) (sid : LogicalSessionId)
    (txn : TxnNumber) (stmt : StmtId) (n : Node) :
  getSessionId oplog = Some sid →
  getTxnNumber oplog = Some txn →
  getStatementId oplog = Some stmt →
  (txn < activeTxnNumber (sessionOf n sid))%Z
  ∨ (txn = activeTxnNumber (sessionOf n sid)
     ∧ hasIncompleteHistory (sessionOf n sid) = true) →
  ∃ n',
    insertOplogAndUpdateConfigForRetryable (S fuel) oplog n = (n', Ok StatusOK)
    ∧ localOplog n' = localOplog n
    ∧ sessionCatalog n' = sessionCatalog n
    ∧ collections n' = collections n
    ∧ opCtx_lsid n' = Some sid
    ∧ opCtx_txnNumber n' = Some txn.
Proof.
  intros Hsid Htxn Hstmt Hskip. eexists. split.
  - apply (insertOplog_settled _ _ sid txn stmt); try done.
    destruct Hskip as [?|[? ?]]; [by left|right; auto].
  - done.
Qed.

(** ** What a worker does with the records of its slot *)

Lemma apply_real_record (rec : OplogEntry) :
  getOpType rec ≠ kNoop →
  _applyOplogEntryOrGroupedInserts (SingleEntry rec)
  = if isCrudOpType (getOpType rec) then applyOperation (SingleEntry rec)
    else applyCommand (SingleEntry rec).
Proof.
  intros Hreal. unfold _applyOplogEntryOrGroupedInserts, isRetryableNoOp.
  cbn [isGroupedInserts getOp]. rewrite bool_decide_eq_false_2 by done. cbn [negb].
  destruct (getOpType rec); done.
Qed.

Lemma apply_derived_record (op : OplogEntry) :
  _applyOplogEntryOrGroupedInserts (SingleEntry (convertToNoOpWithReshardingTag op))
  = insertOplogAndUpdateConfigForRetryable 2 (convertToNoOpWithReshardingTag op).
Proof.
  unfold _applyOplogEntryOrGroupedInserts, isRetryableNoOp, woCompareEq.
  cbn [isGroupedInserts getOp]. cbn. by rewrite bool_decide_eq_true_2.
Qed.

(** X14: when a batch is partitioned with an empty derived buffer, every
    record handed to a worker is either a record of the batch that is not a
    no-op, which the worker applies with the storage rules (as an operation
    when it is an insert, update or delete, as a command otherwise), or the
    record derived from a tracked record of the last transaction of its
    session, which the worker applies with the session handler. *)
Theorem writer_vector_records (self self' : ReshardingOplogApplier) (wv : WriterVectors)
    (i : nat) (w : list OplogEntry) (rec : OplogEntry) :
  _fillWriterVectors self = (self', Ok wv) →
  _currentDerivedOps self = [] →
  wv !! i = Some w →
  rec ∈ w →
  (rec ∈ _currentBatchToApply self
   ∧ getOpType rec ≠ kNoop
   ∧ _applyOplogEntryOrGroupedInserts (SingleEntry rec)
     = if isCrudOpType (getOpType rec) then applyOperation (SingleEntry rec)
       else applyCommand (SingleEntry rec))
  ∨ (∃ op, op ∈ _currentBatchToApply self
           ∧ inLastTxn (_currentBatchToApply self) op
           ∧ rec = convertToNoOpWithReshardingTag op
           ∧ _applyOplogEntryOrGroupedInserts (SingleEntry rec)
             = insertOplogAndUpdateConfigForRetryable 2 rec).
Proof.
  unfold _fillWriterVectors.
  destruct (forEach fillOne _ _) as [[wv1 t1]| | |] eqn:Hloop; try (intros [= _ ?]; discriminate).
  intros [= <- Hadd] Hnone Hw Hrec. cbn [_currentDerivedOps set_currentDerivedOps] in Hadd.
  rewrite Hnone in Hadd. cbn [app] in Hadd.
  pose proof (forEach_fillOne_tracks _ [] _ _ _ _ tracksExactly_empty Hloop) as Htracks.
  cbn [app] in Htracks.
  rewrite (addDerivedOps_slots _ _ _ i Hadd), (forEach_fillOne_slots _ _ _ _ _ i Hloop) in Hw.
  destruct (replicate (numThreads self) [] !! i) as [w0|] eqn:Hslot; [|discriminate].
  apply lookup_replicate in Hslot as [-> _]. cbn in Hw. injection Hw as <-.
  apply elem_of_app in Hrec as [Hrec|Hrec]; apply list_elem_of_filter in Hrec as [Hp Hin].
  - left. destruct Hp as [Hreal _]. split; [done|]. split; [done|].
    by apply apply_real_record.
  - right. apply (deriveSessionOps_exact _ _ _ Htracks) in Hin as (op & Hop & Hlast & ->).
    exists op. split; [done|]. split; [done|]. split; [done|]. apply apply_derived_record.
Qed.

(** ** How partitioning and the application of a batch can end *)

Lemma forEach_fillOne_thrown batch st c :
  forEach fillOne batch st = Threw c →
  c = 5012000%Z ∨ c = 5012001%Z ∨ c = 4990401%Z.
Proof.
  revert st. induction batch as [|x batch IH]; intros st; cbn [forEach]; [done|].
  destruct (fillOne x st) as [st1| | |] eqn:Hx; simpl; try done.
  - apply IH.
  - intros [= <-]. destruct st as [wv t]. unfold fillOne, uassert in Hx.
    destruct (shouldPrepare x); simpl in Hx; [injection Hx as <-; auto|].
    destruct (isPreparedCommit x); simpl in Hx; [injection Hx as <-; auto|].
    case_bool_decide; [done|].
    destruct (getSessionId x); [|done].
    destruct (getTxnNumber x); simpl in Hx; [|done].
    repeat case_bool_decide; try done.
    destruct (head _); simpl in Hx; [|done]. injection Hx as <-. auto.
Qed.

Lemma addDerivedOps_succeeds derivedOps (wv : WriterVectors) :
  0 < length wv →
  (∀ d, d ∈ derivedOps →
        getObject d = kReshardingOplogTag ∧ is_Some (getSessionId d)) →
  ∃ wv', addDerivedOpsToWriterVector wv derivedOps = Ok wv'.
Proof.
  unfold addDerivedOpsToWriterVector. revert wv.
  induction derivedOps as [|d rest IH]; intros wv Hlen Hall; cbn [forEach]; [by eauto|].
  destruct (Hall d) as [Htag [sid Hsid]]; [by left|].
  assert (addDerivedOp d wv = Ok (pushToWriter (hasher sid `mod` length wv) d wv)) as ->.
  { unfold addDerivedOp, invariant, uassert, woCompareEq.
    rewrite (bool_decide_eq_true_2 (getObject d = kReshardingOplogTag)) by done.
    rewrite Hsid. rewrite (bool_decide_eq_true_2 (is_Some (Some sid))) by eauto. simpl.
    rewrite bool_decide_eq_false_2 by lia. done. }
  simpl. apply IH; [by rewrite pushToWriter_length|].
  intros d' Hd'. apply Hall. by right.
Qed.

(** X15: partitioning with an empty derived buffer and at least one writer
    thread throws only 5012000, 5012001 (a record of a prepared transaction)
    or 4990401 (a record of an older transaction after a newer one); and
    once the scan of the batch has passed it cannot fail: every record it
    derives carries the tag and a session id, so the assertions on the
    derived records (the invariant on the tag, 4990403) never fire. *)
Theorem fillWriterVectors_failures (self self' : ReshardingOplogApplier)
    (r : Result WriterVectors) :
  _currentDerivedOps self = [] →
  0 < numThreads self →
  _fillWriterVectors self = (self', r) →
  (∀ c, r = Threw c → c = 5012000%Z ∨ c = 5012001%Z ∨ c = 4990401%Z)
  ∧ (is_Ok (forEach fillOne (_currentBatchToApply self) (replicate (numThreads self) [], ∅)) →
     is_Ok r).
Proof.
  intros Hnone Hn. unfold _fillWriterVectors.
  destruct (forEach fillOne _ _) as [[wv1 t1]|c1| |] eqn:Hloop.
  2:{ intros [= <- <-]. split; [|by intros [? ?]].
      intros c [= <-]. by eapply forEach_fillOne_thrown. }
  2,3: by (intros [= <- <-]; split; [|intros [? ?]]).
  cbn [_currentDerivedOps set_currentDerivedOps]. rewrite Hnone. cbn [app].
  pose proof (forEach_fillOne_Ok _ _ _ _ _ Hloop) as (Hlen & _).
  rewrite length_replicate in Hlen.
  pose proof (forEach_fillOne_tracks _ [] _ _ _ _ tracksExactly_empty Hloop) as Htracks.
  cbn [app] in Htracks.
  destruct (addDerivedOps_succeeds (deriveSessionOps t1) wv1) as [wv' Hwv'].
  { lia. }
  { intros d Hd.
    apply (deriveSessionOps_exact _ _ _ Htracks) in Hd
      as (op & _ & (sid & txn & (_ & Hsid & _) & _) & ->).
    split; [done|]. exists sid. exact Hsid. }
  rewrite Hwv'. intros [= <- <-]. split; [done|]. intros _. by exists wv'.
Qed.

Lemma fillWriterVectors_length self self' wv :
  _fillWriterVectors self = (self', Ok wv) → length wv = numThreads self.
Proof.
  unfold _fillWriterVectors.
  destruct (forEach fillOne _ _) as [[wv1 t1]| | |] eqn:Hloop; try (intros [= _ ?]; discriminate).
  intros [= _ Hadd].
  pose proof (forEach_fillOne_Ok _ _ _ _ _ Hloop) as (Hlen & _).
  apply addDerivedOps_Ok in Hadd as (Hlen' & _).
  rewrite length_replicate in Hlen. congruence.
Qed.

(** X16: with at least one writer thread, a batch whose writers all report
    completes: the promise is made ready with the consolidated status and no
    writer is waited for any more; [_applyBatch] returns when that status is
    OK and throws its code otherwise. *)
Theorem applyBatch_completes (sys1 sys3 : System) (self2 : ReshardingOplogApplier)
    (wv : WriterVectors) :
  0 < numThreads (applier sys1) →
  _fillWriterVectors (applier sys1) = (self2, Ok wv) →
  forEachM runWriter wv
    (mkSystem (set_completion (length wv) StatusOK None (set_currentWriterVectors wv self2))
              (node sys1) (progressStore sys1)) = (sys3, Ok tt) →
  let final := _currentBatchConsolidatedStatus (applier sys3) in
  _applyBatch sys1 = (sys3, if isOK final then Ok tt else Threw (code final))
  ∧ _currentApplyBatchPromise (applier sys3) = Some final
  ∧ _remainingWritersToWait (applier sys3) = 0
  ∧ _currentWriterVectors (applier sys3) = wv
  ∧ length wv = numThreads (applier sys1).
Proof.
  intros Hn Hfill Hrun final.
  pose proof (fillWriterVectors_length _ _ _ Hfill) as Hlen.
  pose proof (runWriters_Ok _ _ _ Hrun) as (_ & _ & Hrem & Hs3 & _ & Hprom).
  cbn [applier] in Hrem, Hs3, Hprom.
  assert (_currentApplyBatchPromise (applier sys3) = Some final) as Hprom'.
  { apply Hprom; [destruct wv; [simpl in Hlen; lia|done]|by destruct self2]. }
  assert (_remainingWritersToWait (applier sys3) = 0) as Hzero.
  { rewrite Hrem. destruct self2; simpl. lia. }
  split; [|split; [done|split; [done|split; [|done]]]].
  - unfold _applyBatch.
    unfold mbind at 1, M_bind. unfold onSelf at 1. rewrite Hfill.
    unfold mbind at 1, M_bind. unfold onSelf at 1, modify. cbn [applier node progressStore].
    unfold mbind at 1, M_bind. unfold onSelf at 1, modify. cbn [applier node progressStore].
    unfold mbind at 1, M_bind. unfold onSelf at 1, gets. cbn [applier node progressStore].
    unfold mbind at 1, M_bind.
    replace (_currentWriterVectors (set_currentWriterVectors wv self2)) with wv
      by (by destruct self2).
    replace (_currentWriterVectors (set_completion _ _ _ _)) with wv by (by destruct self2).
    rewrite Hrun. unfold mbind at 1, M_bind. unfold onSelf at 1, gets.
    rewrite Hprom'. unfold liftR, mret, M_ret. destruct (isOK final); by destruct sys3.
  - rewrite Hs3. by destruct self2.
Qed.

End Properties.

(** * The definitions at work *)

(** The lemmas of this part run the definitions under the collaborators of
    [Demo]: the serialiser [Demo.ops], the routing by namespace
    [Demo.routing] and the storage rules [Demo.rules]. *)
#[local] Existing Instances Demo.ops Demo.routing Demo.rules.

(** C1, as first stated, fails: the insert of session 2 is routed by its
    namespace to slot 1, while the session hashes to slot 0, where the record
    derived from the insert goes. *)
Lemma fillWriterVectors_real_record_not_by_session :
  let self := Demo.applierWith 2 kStarted [] [Demo.s2t1a] in
  let shadow := convertToNoOpWithReshardingTag Demo.s2t1a in
  getSessionId Demo.s2t1a = Some 2%N
  ∧ getOpType Demo.s2t1a = kInsert
  ∧ hasher 2%N `mod` numThreads self = 0
  ∧ (_fillWriterVectors self).2 = Ok [[shadow]; [Demo.s2t1a]]
  ∧ ¬ inSlot Demo.s2t1a 0 [[shadow]; [Demo.s2t1a]]
  ∧ inSlot Demo.s2t1a 1 [[shadow]; [Demo.s2t1a]].
Proof.
  cbv zeta. split; [reflexivity|]. split; [reflexivity|]. split; [reflexivity|].
  split; [vm_compute; reflexivity|]. split.
  - intros (w & Hw & Hin). injection Hw as <-.
    apply list_elem_of_singleton in Hin. discriminate Hin.
  - eexists. split; [reflexivity|]. by apply list_elem_of_singleton.
Qed.

(** C1 at work: two statements of one transaction of session 2. *)
Lemma fillWriterVectors_routing_witness :
  let self := Demo.applierWith 2 kStarted [] [Demo.s2t1a; Demo.s2t1b] in
  ∃ self' wv,
    _fillWriterVectors self = (self', Ok wv)
    ∧ length wv = numThreads self
    ∧ (∀ d, d ∈ _currentDerivedOps self' →
         ∃ sid, getSessionId d = Some sid ∧ inSlot d (hasher sid `mod` numThreads self) wv)
    ∧ (∀ op, op ∈ _currentBatchToApply self →
         getOpType op ≠ kNoop →
         getWriterId op (numThreads self) < numThreads self →
         inSlot op (getWriterId op (numThreads self)) wv).
Proof.
  cbv zeta.
  destruct (_fillWriterVectors (Demo.applierWith 2 kStarted [] [Demo.s2t1a; Demo.s2t1b]))
    as [self' [wv| | |]] eqn:Hrun; try (vm_compute in Hrun; discriminate Hrun).
  exists self', wv. split; [reflexivity|].
  exact (fillWriterVectors_routing _ _ _ Hrun).
Defined.

(** C6, as first stated, fails: the record derived from an insert into
    [test.coll] in session 1 still names [test.coll]; its namespace is not
    cleared. *)
Lemma convertToNoOpWithReshardingTag_keeps_nss :
  let oplog := Demo.entry kInsert 5%N (Some 1%N) (Some 1%Z) (Some 0%Z) [] in
  let derived := @convertToNoOpWithReshardingTag Demo.ops oplog in
  getSessionId oplog = Some 1%N
  ∧ getNss derived = mkNss "test" "coll"
  ∧ getNss derived ≠ emptyNss.
Proof. cbv zeta. split; [done|]. split; [done|]. discriminate. Qed.

(** C5, as first stated, fails: of two errors reported for one batch the
    second is delivered, not the first. *)
Lemma onWriterVectorDone_keeps_last_error :
  let self := set_completion 2 StatusOK None (Demo.applierWith 2 kStarted [] []) in
  let statuses := [mkStatus 11000%Z; mkStatus 26%Z] in
  head (filter (λ s, isOK s = false) statuses) = Some (mkStatus 11000%Z)
  ∧ ∃ self', forEachM _onWriterVectorDone statuses self = (self', Ok tt)
             ∧ _currentApplyBatchPromise self' = Some (mkStatus 26%Z)
             ∧ _currentApplyBatchPromise self' ≠ Some (mkStatus 11000%Z).
Proof.
  cbv zeta. split; [reflexivity|]. eexists. split; [vm_compute; reflexivity|].
  split; [reflexivity|discriminate].
Qed.

(** C5 at work: three writers report OK, an error, OK; nothing is delivered
    after two reports and the error is delivered after the third. *)
Lemma onWriterVectorDone_delivers_witness :
  let self := set_completion 3 StatusOK None (Demo.applierWith 3 kStarted [] []) in
  let statuses := [StatusOK; mkStatus 26%Z; StatusOK] in
  (∃ self2, forEachM _onWriterVectorDone (take 2 statuses) self = (self2, Ok tt)
            ∧ _currentApplyBatchPromise self2 = None)
  ∧ ∃ self', forEachM _onWriterVectorDone statuses self = (self', Ok tt)
             ∧ _currentApplyBatchPromise self' = Some (mkStatus 26%Z).
Proof.
  cbv zeta.
  destruct (onWriterVectorDone_delivers
              (set_completion 3 StatusOK None (Demo.applierWith 3 kStarted [] []))
              [StatusOK; mkStatus 26%Z; StatusOK])
    as [Hpre (self' & final & Hrun & _ & Hprom & _ & Herr)];
    [discriminate|reflexivity|reflexivity|reflexivity|].
  split.
  - destruct (Hpre 2) as (self2 & H2 & Hp2 & _); [simpl; lia|]. by exists self2.
  - exists self'. split; [exact Hrun|].
    rewrite Hprom. f_equal.
    apply (Herr [StatusOK] (mkStatus 26%Z) [StatusOK]); [reflexivity|reflexivity|].
    repeat constructor.
Defined.

(** C2 at work, on session 2: a second statement of transaction 1 is
    appended to the tracked list, a statement of transaction 3 replaces the
    list, and a statement of transaction 1 after one of transaction 3 makes
    partitioning throw 4990401. *)
Lemma fillWriterVectors_session_tracking_witness :
  (∃ wv tracker,
     forEach fillOne [Demo.s2t1a] (replicate 2 [], ∅) = Ok (wv, tracker)
     ∧ trackedOps tracker 2%N = mkRetryableOpsList 1%Z [Demo.s2t1a]
     ∧ forEach fillOne ([Demo.s2t1a] ++ [Demo.s2t1b]) (replicate 2 [], ∅) =
       Ok (addToWriterVector Demo.s2t1b wv,
           <[2%N := mkRetryableOpsList 1%Z ([Demo.s2t1a] ++ [Demo.s2t1b])]> tracker)
     ∧ forEach fillOne ([Demo.s2t1a] ++ [Demo.s2t3]) (replicate 2 [], ∅) =
       Ok (addToWriterVector Demo.s2t3 wv,
           <[2%N := mkRetryableOpsList 3%Z [Demo.s2t3]]> tracker))
  ∧ _fillWriterVectors (Demo.applierWith 2 kStarted [] [Demo.s2t3; Demo.s2t1a]) =
    (Demo.applierWith 2 kStarted [] [Demo.s2t3; Demo.s2t1a], Threw 4990401%Z).
Proof.
  split.
  - destruct (forEach fillOne [Demo.s2t1a] (replicate 2 [], ∅)) as [[wv tracker]| | |] eqn:Hpre;
      try (vm_compute in Hpre; discriminate Hpre).
    assert (trackedOps tracker 2%N = mkRetryableOpsList 1%Z [Demo.s2t1a]) as Htracked.
    { vm_compute in Hpre. injection Hpre as <- <-. reflexivity. }
    exists wv, tracker. split; [reflexivity|]. split; [exact Htracked|]. split.
    + pose proof (fillWriterVectors_session_tracking
                    (Demo.applierWith 2 kStarted [] [Demo.s2t1a; Demo.s2t1b])
                    [Demo.s2t1a] [] Demo.s2t1b wv tracker 2%N 1%Z
                    eq_refl Hpre eq_refl eq_refl ltac:(discriminate) eq_refl eq_refl)
        as (Heq & _ & _).
      rewrite Htracked in Heq. apply Heq. reflexivity.
    + pose proof (fillWriterVectors_session_tracking
                    (Demo.applierWith 2 kStarted [] [Demo.s2t1a; Demo.s2t3])
                    [Demo.s2t1a] [] Demo.s2t3 wv tracker 2%N 3%Z
                    eq_refl Hpre eq_refl eq_refl ltac:(discriminate) eq_refl eq_refl)
        as (_ & Hgt & _).
      rewrite Htracked in Hgt. apply Hgt. reflexivity.
  - destruct (forEach fillOne [Demo.s2t3] (replicate 2 [], ∅)) as [[wv tracker]| | |] eqn:Hpre;
      try (vm_compute in Hpre; discriminate Hpre).
    assert (trackedOps tracker 2%N = mkRetryableOpsList 3%Z [Demo.s2t3]
            ∧ is_Some (tracker !! (2%N : LogicalSessionId))) as [Htracked [l Hl]].
    { vm_compute in Hpre. injection Hpre as <- <-. split; [reflexivity|]. by eexists. }
    pose proof (fillWriterVectors_session_tracking
                  (Demo.applierWith 2 kStarted [] [Demo.s2t3; Demo.s2t1a])
                  [Demo.s2t3] [] Demo.s2t1a wv tracker 2%N 1%Z
                  eq_refl Hpre eq_refl eq_refl ltac:(discriminate) eq_refl eq_refl)
      as (_ & _ & Hlt).
    rewrite Htracked, Hl in Hlt. apply Hlt. reflexivity.
Defined.

(** C9 at work: a batch with a prepared [applyOps] in second place. *)
Lemma fillWriterVectors_prepared_witness :
  let self := Demo.applierWith 2 kStarted [] [Demo.s2t1a; Demo.prepared] in
  shouldPrepare Demo.prepared = true
  ∧ _fillWriterVectors self = (self, Threw 5012000%Z)
  ∧ ∀ sys, applier sys = self → ∃ r, _applyBatch sys = (sys, r) ∧ ¬ is_Ok r.
Proof.
  cbv zeta. split; [reflexivity|].
  destruct (fillWriterVectors_prepared
              (Demo.applierWith 2 kStarted [] [Demo.s2t1a; Demo.prepared]))
    as (Hany & Hfirst & _).
  split.
  - destruct (forEach fillOne [Demo.s2t1a] (replicate 2 [], ∅)) as [st| | |] eqn:Hpre;
      try (vm_compute in Hpre; discriminate Hpre).
    apply (Hfirst [Demo.s2t1a] Demo.prepared [] st); [reflexivity|exact Hpre|by left].
  - apply Hany. exists Demo.prepared. split; [|by left].
    apply list_elem_of_further, list_elem_of_here.
Defined.

(** C10 at work: a record of another collection is refused, a record of the
    collection being resharded is buffered under the output namespace. *)
Lemma preProcess_accepts_iff_witness :
  let self := Demo.applierWith 2 kStarted [] [] in
  let foreign :=
    mkOplogEntry (setNss (mkNss "test" "other") (getEntry Demo.plainInsert)) None None in
  (_preProcessAndPushOpsToBuffer foreign self).2 = Threw 5012002%Z
  ∧ ∃ newOplog,
      _preProcessAndPushOpsToBuffer Demo.plainInsert self =
      (set_currentBatchToApply [newOplog] self, Ok tt)
      ∧ getNss newOplog = Demo.outputNs
      ∧ getUuid newOplog = None
      ∧ getObject newOplog = getObject Demo.plainInsert.
Proof.
  cbv zeta. split; [reflexivity|].
  destruct (preProcess_accepts_iff (Demo.applierWith 2 kStarted [] []) Demo.plainInsert)
    as (_ & _ & Hok).
  destruct Hok as (newOplog & Hrun & Hnss & Huuid & _ & Hobj & _).
  - intros [c Hc]. discriminate Hc.
  - exists newOplog. split; [exact Hrun|]. split; [exact Hnss|]. split; [exact Huuid|].
    exact Hobj.
Defined.

(** C7 at work: the checkpoint after a batch whose last record has
    timestamp 6. *)
Lemma clearAppliedOpsAndStoreProgress_checkpoint_witness :
  let sys :=
    mkSystem (Demo.applierWith 2 kStarted [] [Demo.s2t1a; Demo.s2t1b]) Demo.readyNode ∅ in
  checkStoredProgress sys Demo.sourceId = None
  ∧ ∃ sys',
      _clearAppliedOpsAndStoreProgress sys = (sys', Ok 6%N)
      ∧ _currentBatchToApply (applier sys') = []
      ∧ _currentDerivedOps (applier sys') = []
      ∧ checkStoredProgress sys' Demo.sourceId =
        Some (mkProgress Demo.sourceId (mkDonorOplogId 6%N 6%N)).
Proof.
  cbv zeta.
  destruct (clearAppliedOpsAndStoreProgress_checkpoint
              (mkSystem (Demo.applierWith 2 kStarted [] [Demo.s2t1a; Demo.s2t1b])
                        Demo.readyNode ∅)
              Demo.s2t1b
              [("clusterTime"%string, BSONNumber 6); ("ts"%string, BSONNumber 6)]
              (mkDonorOplogId 6%N 6%N))
    as (Hbefore & sys' & Hrun & _ & _ & Hbatch & Hderived & _ & Hafter & _);
    [reflexivity..|].
  split; [apply Hbefore; reflexivity|].
  exists sys'. split; [exact Hrun|]. split; [exact Hbatch|]. split; [exact Hderived|].
  exact Hafter.
Defined.

(** C8, as first stated, fails: on an empty fetched batch the pipeline itself
    moves the stage from [kStarted] to [kReachedCloningTS]; nothing is left
    for the caller to decide, and a second call of the same entry point
    trips its invariant. *)
Lemma empty_batch_moves_stage :
  let sys := mkSystem (Demo.applierWith 2 kStarted [] []) Demo.readyNode ∅ in
  _stage (applier sys) = kStarted
  ∧ ∃ sys',
      applyUntilCloneFinishedTs sys = (sys', Ok StatusOK)
      ∧ _stage (applier sys') = kReachedCloningTS
      ∧ _stage (applier sys') ≠ kStarted
      ∧ (applyUntilCloneFinishedTs sys').2 = Fatal.
Proof.
  cbv zeta. split; [reflexivity|]. eexists. split; [vm_compute; reflexivity|].
  split; [reflexivity|]. split; [discriminate|]. reflexivity.
Qed.

(** C8 at work: the iterator returns an empty batch and has another one
    behind it. *)
Lemma empty_batch_reaches_cloning_ts_witness :
  let sys :=
    mkSystem (Demo.applierWith 2 kStarted [[]; [Demo.plainInsert]] []) Demo.readyNode ∅ in
  ∃ sys',
    applyUntilCloneFinishedTs sys = (sys', Ok StatusOK)
    ∧ _stage (applier sys') = kReachedCloningTS
    ∧ progressStore sys' = progressStore sys
    ∧ node sys' = node sys
    ∧ _currentBatchToApply (applier sys') = []
    ∧ _oplogIter (applier sys') = [[Demo.plainInsert]].
Proof.
  cbv zeta.
  apply (empty_batch_reaches_cloning_ts
           (mkSystem (Demo.applierWith 2 kStarted [[]; [Demo.plainInsert]] [])
                     Demo.readyNode ∅));
    [reflexivity|right; reflexivity|reflexivity|reflexivity|simpl; lia].
Defined.

(** C3 at work: the record derived from the first statement of session 2
    is applied to a fresh node; the first application writes one oplog entry
    and records the statement, the second changes nothing. *)
Lemma retryable_noop_idempotent_witness :
  let e := SingleEntry (convertToNoOpWithReshardingTag Demo.s2t1a) in
  isRetryableNoOp e = true
  ∧ ∃ n1,
      _applyOplogEntryOrGroupedInserts e Demo.readyNode = (n1, Ok StatusOK)
      ∧ length (localOplog n1) = 1
      ∧ executedStatements (sessionOf n1 2%N) = [0%Z]
      ∧ _applyOplogEntryOrGroupedInserts e n1 = (n1, Ok StatusOK)
      ∧ ∀ now, _applyOplogEntryOrGroupedInserts e (set_wallClock now n1) =
               (set_wallClock now n1, Ok StatusOK).
Proof.
  cbv zeta. split; [reflexivity|].
  destruct (_applyOplogEntryOrGroupedInserts
              (SingleEntry (convertToNoOpWithReshardingTag Demo.s2t1a)) Demo.readyNode)
    as [n1 [st| | |]] eqn:Hrun; try (vm_compute in Hrun; discriminate Hrun).
  pose proof (retryable_noop_idempotent
                (SingleEntry (convertToNoOpWithReshardingTag Demo.s2t1a))
                Demo.readyNode eq_refl) as (_ & _ & Hagain).
  destruct (Hagain n1 st Hrun) as (-> & Hsecond & Hlater).
  exists n1. split; [reflexivity|].
  split; [vm_compute in Hrun; by injection Hrun as <-|].
  split; [vm_compute in Hrun; by injection Hrun as <-|].
  split; [exact Hsecond|exact Hlater].
Defined.

(** C4 at work: the only batch holds an insert, the node lacks the output
    collection, and the worker of slot 1 reports [NamespaceNotFound]. *)
Lemma failed_batch_halts_witness :
  let sys := mkSystem (Demo.applierWith 2 kStarted [[Demo.plainInsert]] []) Demo.emptyNode ∅ in
  ∃ sysE,
    applyUntilCloneFinishedTs sys = (sysE, Ok (mkStatus 26%Z))
    ∧ _stage (applier sysE) = kErrorOccurred
    ∧ progressStore sysE = ∅
    ∧ length (_currentBatchToApply (applier sysE)) = 1.
Proof.
  cbv zeta.
  set (sys := mkSystem (Demo.applierWith 2 kStarted [[Demo.plainInsert]] []) Demo.emptyNode ∅).
  destruct (onSelf getNextBatch sys) as [sysF [batch| | |]] eqn:Hfetch;
    try (vm_compute in Hfetch; discriminate Hfetch).
  assert (batch = [Demo.plainInsert]) as Hbatch
    by (vm_compute in Hfetch; by injection Hfetch as _ <-).
  destruct (onSelf (forEachM _preProcessAndPushOpsToBuffer batch) sysF)
    as [sys1 [[]| | |]] eqn:Hpre;
    try (subst batch; vm_compute in Hfetch; injection Hfetch as <-;
         vm_compute in Hpre; discriminate Hpre).
  destruct (_fillWriterVectors (applier sys1)) as [self2 [wv| | |]] eqn:Hfill;
    try (subst batch; vm_compute in Hfetch; injection Hfetch as <-;
         vm_compute in Hpre; injection Hpre as <-;
         vm_compute in Hfill; discriminate Hfill).
  assert (∃ w, wv = [] ++ [] :: [w] ∧ w ≠ []) as (w & Hwv & Hw).
  { subst batch. vm_compute in Hfetch. injection Hfetch as <-.
    vm_compute in Hpre. injection Hpre as <-.
    vm_compute in Hfill. injection Hfill as _ <-. eexists. split; [reflexivity|done]. }
  set (sys2 := mkSystem (set_completion (length wv) StatusOK None
                           (set_currentWriterVectors wv self2))
                        (node sys1) (progressStore sys1)).
  destruct (forEachM runWriter wv sys2) as [sys3 r3] eqn:Hrun.
  destruct (forEachM runWriter [[]] sys2) as [sysB rB] eqn:HrunB.
  destruct (writerStatus w sysB) as [sysC rC] eqn:Hst.
  assert (r3 = Ok tt ∧ rB = Ok tt ∧ rC = Ok (mkStatus 26%Z)
          ∧ progressStore sys = ∅
          ∧ length (_currentBatchToApply (applier sys)) + length batch = 1)
    as (-> & -> & -> & Hps & Hlen).
  { subst batch sys2. vm_compute in Hfetch. injection Hfetch as <-.
    vm_compute in Hpre. injection Hpre as <-.
    vm_compute in Hfill. injection Hfill as <- <-.
    injection Hwv as <-.
    vm_compute in HrunB. injection HrunB as <- <-.
    vm_compute in Hst. injection Hst as <- <-.
    vm_compute in Hrun. injection Hrun as <- <-. done. }
  destruct (failed_batch_halts 3 2 sys sys sysF sys1 sysB sysC sys3 batch self2
              wv [[]] [] w (mkStatus 26%Z)
              (continues_here 3 sys) Hfetch Hpre Hfill)
    as (final & sysE & Hbad & Hprom & HsysE & _ & Hentry & _ & Hstage & Hstore
        & (buffered & Hbuf & Hbuflen) & _).
  { exact Hrun. }
  { rewrite Hwv. reflexivity. }
  { exact HrunB. }
  { exact Hst. }
  { reflexivity. }
  assert (final = mkStatus 26%Z) as ->.
  { subst batch sys2. vm_compute in Hfetch. injection Hfetch as <-.
    vm_compute in Hpre. injection Hpre as <-.
    vm_compute in Hfill. injection Hfill as <- <-.
    vm_compute in Hrun. injection Hrun as <-.
    vm_compute in Hprom. by injection Hprom as <-. }
  exists sysE. split; [apply Hentry; [reflexivity|simpl; lia]|]. split; [exact Hstage|].
  split; [by rewrite Hstore|]. rewrite Hbuf, length_app, Hbuflen. exact Hlen.
Defined.

(** X1 at work: two statements of transaction 1 of session 2 and one of
    transaction 3; the output namespace routes to slot 1, the session hashes
    to slot 0. *)
Lemma fillWriterVectors_slot_contents_witness :
  let self := Demo.applierWith 2 kStarted [] [Demo.s2t1a; Demo.s2t1b; Demo.s2t3] in
  ∃ self' wv,
    _fillWriterVectors self = (self', Ok wv)
    ∧ wv !! 1
      = Some (filter (routedTo (numThreads self) 1) (_currentBatchToApply self)
              ++ filter (hashedTo (numThreads self) 1) (_currentDerivedOps self'))
    ∧ wv !! 1 = Some [Demo.s2t1a; Demo.s2t1b; Demo.s2t3]
    ∧ wv !! 0 = Some [convertToNoOpWithReshardingTag Demo.s2t3].
Proof.
  cbv zeta.
  destruct (_fillWriterVectors
              (Demo.applierWith 2 kStarted [] [Demo.s2t1a; Demo.s2t1b; Demo.s2t3]))
    as [self' [wv| | |]] eqn:Hrun; try (vm_compute in Hrun; discriminate Hrun).
  exists self', wv. split; [reflexivity|].
  split; [exact (fillWriterVectors_slot_contents _ _ _ 1 Hrun ltac:(simpl; lia))|].
  vm_compute in Hrun. injection Hrun as _ <-. split; reflexivity.
Defined.

(** X2 at work: of the three records only the one of transaction 3 is in the
    last transaction of its session. *)
Lemma fillWriterVectors_derived_witness :
  let self := Demo.applierWith 2 kStarted [] [Demo.s2t1a; Demo.s2t1b; Demo.s2t3] in
  ∃ self' wv derived,
    _fillWriterVectors self = (self', Ok wv)
    ∧ _currentDerivedOps self' = _currentDerivedOps self ++ derived
    ∧ (∀ d, d ∈ derived
            ↔ ∃ op, op ∈ _currentBatchToApply self
                    ∧ inLastTxn (_currentBatchToApply self) op
                    ∧ d = convertToNoOpWithReshardingTag op)
    ∧ _currentDerivedOps self' = [convertToNoOpWithReshardingTag Demo.s2t3].
Proof.
  cbv zeta.
  destruct (_fillWriterVectors
              (Demo.applierWith 2 kStarted [] [Demo.s2t1a; Demo.s2t1b; Demo.s2t3]))
    as [self' [wv| | |]] eqn:Hrun; try (vm_compute in Hrun; discriminate Hrun).
  destruct (fillWriterVectors_derived _ _ _ Hrun) as (derived & Hderived & Hexact).
  exists self', wv, derived. split; [reflexivity|]. split; [exact Hderived|].
  split; [exact Hexact|].
  vm_compute in Hrun. injection Hrun as <- _. reflexivity.
Defined.

(** X4 at work: the node lacks the output collection, the insert fails with
    26 and the entry point returns that status in stage [kErrorOccurred]. *)
Lemma applyUntilCloneFinishedTs_outcome_witness :
  let sys := mkSystem (Demo.applierWith 2 kStarted [[Demo.plainInsert]] []) Demo.emptyNode ∅ in
  ∃ sys',
    applyUntilCloneFinishedTs sys = (sys', Ok (mkStatus 26%Z))
    ∧ _stage (applier sys) = kStarted
    ∧ ((mkStatus 26%Z = StatusOK ∧ _scheduleNextBatch sys = (sys', Ok tt)
        ∧ _stage (applier sys') = kReachedCloningTS)
       ∨ (∃ c, mkStatus 26%Z = mkStatus c ∧ (_scheduleNextBatch sys).2 = Threw c
               ∧ _stage (applier sys') = kErrorOccurred)).
Proof.
  cbv zeta.
  destruct (applyUntilCloneFinishedTs
              (mkSystem (Demo.applierWith 2 kStarted [[Demo.plainInsert]] [])
                        Demo.emptyNode ∅))
    as [sys' r] eqn:Hrun.
  assert (r = Ok (mkStatus 26%Z)) as ->
    by (vm_compute in Hrun; by injection Hrun as _ <-).
  exists sys'. split; [reflexivity|].
  destruct (applyUntilCloneFinishedTs_outcome _ _ _ Hrun) as (_ & _ & Hok).
  exact (Hok _ eq_refl).
Defined.

(** X5 at work: one batch is applied, the next one is empty, and the entry
    point returns OK in stage [kFinished]. *)
Lemma applyUntilDone_outcome_witness :
  let sys :=
    mkSystem (Demo.applierWith 2 kReachedCloningTS [[Demo.plainInsert]] [])
             Demo.readyNode ∅ in
  ∃ sys',
    applyUntilDone sys = (sys', Ok StatusOK)
    ∧ _stage (applier sys) = kReachedCloningTS
    ∧ ((StatusOK = StatusOK ∧ _scheduleNextBatch sys = (sys', Ok tt)
        ∧ _stage (applier sys') = kFinished
        ∧ _currentBatchToApply (applier sys') = [])
       ∨ (∃ c, StatusOK = mkStatus c ∧ (_scheduleNextBatch sys).2 = Threw c
               ∧ _stage (applier sys') = kErrorOccurred)).
Proof.
  cbv zeta.
  destruct (applyUntilDone
              (mkSystem (Demo.applierWith 2 kReachedCloningTS [[Demo.plainInsert]] [])
                        Demo.readyNode ∅))
    as [sys' r] eqn:Hrun.
  assert (r = Ok StatusOK) as ->
    by (vm_compute in Hrun; by injection Hrun as _ <-).
  exists sys'. split; [reflexivity|].
  destruct (applyUntilDone_outcome _ _ _ Hrun) as (_ & _ & Hok).
  exact (Hok _ eq_refl).
Defined.

(** X6 at work: the same run, with the progress of another source stored
    beforehand. *)
Lemma entry_points_frame_witness :
  let other := mkSourceId 7%N "shard1" in
  let sys :=
    mkSystem (Demo.applierWith 2 kReachedCloningTS [[Demo.plainInsert]] [])
             Demo.readyNode {[other := mkDonorOplogId 3%N 3%N]} in
  ∃ sys' r,
    applyUntilDone sys = (sys', r)
    ∧ settings (applier sys') = settings (applier sys)
    ∧ _oplogIter (applier sys') `suffix_of` _oplogIter (applier sys)
    ∧ checkStoredProgress sys' other = Some (mkProgress other (mkDonorOplogId 3%N 3%N))
    ∧ checkStoredProgress sys' Demo.sourceId
      = Some (mkProgress Demo.sourceId (mkDonorOplogId 9%N 9%N)).
Proof.
  cbv zeta.
  destruct (applyUntilDone
              (mkSystem (Demo.applierWith 2 kReachedCloningTS [[Demo.plainInsert]] [])
                        Demo.readyNode
                        {[mkSourceId 7%N "shard1" := mkDonorOplogId 3%N 3%N]}))
    as [sys' r] eqn:Hrun.
  destruct (entry_points_frame _ _ _ (or_intror Hrun)) as (Hs & Hi & Hp).
  exists sys', r. split; [reflexivity|]. split; [exact Hs|]. split; [exact Hi|].
  split.
  - rewrite Hp; [reflexivity|discriminate].
  - vm_compute in Hrun. injection Hrun as <- _. reflexivity.
Defined.

(** X7 at work: an applier without writer threads on an exhausted
    iterator. *)
Lemma no_writer_threads_never_returns_witness :
  let sys := mkSystem (Demo.applierWith 0 kStarted [] []) Demo.readyNode ∅ in
  ∃ sys',
    applyUntilCloneFinishedTs sys = (sys', Hang)
    ∧ _stage (applier sys') = kStarted
    ∧ _currentApplyBatchPromise (applier sys') = None
    ∧ _currentWriterVectors (applier sys') = []
    ∧ progressStore sys' = progressStore sys.
Proof.
  cbv zeta.
  apply (no_writer_threads_never_returns
           (mkSystem (Demo.applierWith 0 kStarted [] []) Demo.readyNode ∅));
    [reflexivity|left; reflexivity|reflexivity|reflexivity|reflexivity].
Defined.

(** X8 at work: the iterator is exhausted in stage [kReachedCloningTS]. *)
Lemma empty_batch_finishes_witness :
  let sys := mkSystem (Demo.applierWith 2 kReachedCloningTS [] []) Demo.readyNode ∅ in
  ∃ sys',
    applyUntilDone sys = (sys', Ok StatusOK)
    ∧ _stage (applier sys') = kFinished
    ∧ progressStore sys' = progressStore sys
    ∧ node sys' = node sys
    ∧ _currentBatchToApply (applier sys') = []
    ∧ _oplogIter (applier sys') = [].
Proof.
  cbv zeta.
  apply (empty_batch_finishes
           (mkSystem (Demo.applierWith 2 kReachedCloningTS [] []) Demo.readyNode ∅));
    [reflexivity|left; reflexivity|reflexivity|reflexivity|simpl; lia].
Defined.

(** X9 at work: the last record of the batch has timestamp 6 and the clone
    timestamp is 100, so another batch is asked for. *)
Lemma afterApply_applied_witness :
  let sys :=
    mkSystem (Demo.applierWith 2 kStarted [] [Demo.s2t1a; Demo.s2t1b]) Demo.readyNode ∅ in
  ∃ sys',
    afterApply sys = (sys', Ok true)
    ∧ checkStoredProgress sys' Demo.sourceId
      = Some (mkProgress Demo.sourceId (mkDonorOplogId 6%N 6%N))
    ∧ _currentBatchToApply (applier sys') = []
    ∧ _currentDerivedOps (applier sys') = []
    ∧ _stage (applier sys') = kStarted.
Proof.
  cbv zeta.
  destruct (afterApply_applied
              (mkSystem (Demo.applierWith 2 kStarted [] [Demo.s2t1a; Demo.s2t1b])
                        Demo.readyNode ∅)
              Demo.s2t1b
              [("clusterTime"%string, BSONNumber 6); ("ts"%string, BSONNumber 6)]
              (mkDonorOplogId 6%N 6%N))
    as (sys' & Hrun & Hprogress & Hbatch & Hderived & Hstage & _);
    [reflexivity..|].
  exists sys'. split; [exact Hrun|]. split; [exact Hprogress|]. split; [exact Hbatch|].
  split; [exact Hderived|]. exact Hstage.
Defined.

(** X10 at work: one writer is waited for and two report; the first report is
    delivered, the second is refused. *)
Lemma onWriterVectorDone_over_report_witness :
  let self := set_completion 1 StatusOK None (Demo.applierWith 2 kStarted [] []) in
  _remainingWritersToWait self < length [mkStatus 26%Z; StatusOK]
  ∧ forEachM _onWriterVectorDone [mkStatus 26%Z; StatusOK] self
    = ((forEachM _onWriterVectorDone [mkStatus 26%Z] self).1, Fatal)
  ∧ _currentApplyBatchPromise (forEachM _onWriterVectorDone [mkStatus 26%Z] self).1
    = Some (mkStatus 26%Z).
Proof.
  cbv zeta. split; [simpl; lia|]. split; [|reflexivity].
  apply (onWriterVectorDone_over_report
           (set_completion 1 StatusOK None (Demo.applierWith 2 kStarted [] []))
           [mkStatus 26%Z; StatusOK]).
  simpl. lia.
Defined.

(** X11 at work: the record derived from the first statement of session 2,
    applied to a node that does not know the session. *)
Lemma retryable_first_write_witness :
  let oplog := convertToNoOpWithReshardingTag Demo.s2t1a in
  ∃ n' marker,
    insertOplogAndUpdateConfigForRetryable 2 oplog Demo.readyNode = (n', Ok StatusOK)
    ∧ localOplog n' = [marker]
    ∧ opType marker = kNoop
    ∧ nss marker = emptyNss
    ∧ object marker = kReshardingOplogApplyTag
    ∧ object2 marker = Some (toBSON (getEntry oplog))
    ∧ prevWriteOpTimeInTransaction marker = Some nullOpTime
    ∧ sessionOf n' 2%N = mkSessionState 1%Z [0%Z] (opTime marker) false false.
Proof.
  cbv zeta.
  destruct (parseOplogEntry (toBSON (getEntry (convertToNoOpWithReshardingTag Demo.s2t1a))))
    as [parsed| | |] eqn:Hparse; try (vm_compute in Hparse; discriminate Hparse).
  destruct (retryable_first_write 0 (convertToNoOpWithReshardingTag Demo.s2t1a)
              2%N 1%Z 0%Z Demo.readyNode parsed)
    as (n' & marker & Hrun & Hlog & Htype & Hnss & Hobj & Hobj2 & Hprev & _ & _ & _ & _
        & _ & _ & Hsession & _); try reflexivity.
  { intros [Hlt|[Heq _]]; [vm_compute in Hlt|vm_compute in Heq]; discriminate. }
  { exact Hparse. }
  exists n', marker. split; [exact Hrun|]. split; [exact Hlog|]. split; [exact Htype|].
  split; [exact Hnss|]. split; [exact Hobj|]. split; [exact Hobj2|].
  split; [exact Hprev|]. exact Hsession.
Defined.

(** X12 at work: the same record with a pre-image and a post-image attached;
    the pre-image is written, then the marker that points to it. *)
Lemma retryable_write_with_image_witness :
  let pre := getEntry (Demo.buffered kNoop 4%N None None None [("x"%string, BSONNumber 1)]) in
  let post := getEntry (Demo.buffered kNoop 4%N None None None [("x"%string, BSONNumber 2)]) in
  let oplog :=
    mkOplogEntry (getEntry (convertToNoOpWithReshardingTag Demo.s2t1a))
                 (Some pre) (Some post) in
  ∃ n' imageEntry marker,
    insertOplogAndUpdateConfigForRetryable 2 oplog Demo.readyNode = (n', Ok StatusOK)
    ∧ localOplog n' = [imageEntry; marker]
    ∧ object imageEntry = [("x"%string, BSONNumber 1)]
    ∧ preImageOpTime marker = Some (opTime imageEntry)
    ∧ postImageOpTime marker = None
    ∧ lastWriteOpTime (sessionOf n' 2%N) = opTime marker.
Proof.
  cbv zeta.
  set (pre := getEntry (Demo.buffered kNoop 4%N None None None [("x"%string, BSONNumber 1)])).
  set (post := getEntry (Demo.buffered kNoop 4%N None None None [("x"%string, BSONNumber 2)])).
  set (oplog := mkOplogEntry (getEntry (convertToNoOpWithReshardingTag Demo.s2t1a))
                             (Some pre) (Some post)).
  destruct (parseOplogEntry (toBSON pre)) as [parsedImage| | |] eqn:HparseI;
    try (vm_compute in HparseI; discriminate HparseI).
  destruct (parseOplogEntry (toBSON (getEntry oplog))) as [parsed| | |] eqn:Hparse;
    try (vm_compute in Hparse; discriminate Hparse).
  destruct (retryable_write_with_image 0 oplog 2%N 1%Z 0%Z Demo.readyNode pre)
    as [_ Hwrite]; try reflexivity.
  { intros [Hlt|[Heq _]]; [vm_compute in Hlt|vm_compute in Heq]; discriminate. }
  { left. reflexivity. }
  destruct (Hwrite eq_refl parsedImage parsed HparseI Hparse)
    as (n' & imageEntry & marker & Hrun & Hlog & Himage & _ & _ & _ & _ & Hpre & _
        & Hlast & _).
  exists n', imageEntry, marker. split; [exact Hrun|]. split; [exact Hlog|].
  destruct (Hpre ltac:(eexists; reflexivity)) as [Hpre1 Hpre2].
  split; [|split; [exact Hpre1|split; [|exact Hlast]]].
  - rewrite Himage. vm_compute in HparseI. injection HparseI as <-. reflexivity.
  - rewrite Hpre2. vm_compute in Hparse. injection Hparse as <-. reflexivity.
Defined.

(** X13 at work: session 2 is already at transaction 5 when a record of its
    transaction 1 arrives. *)
Lemma retryable_skipped_witness :
  let n :=
    set_sessionCatalog
      {[(2%N : LogicalSessionId) := mkSessionState 5%Z [] nullOpTime false false]}
      Demo.readyNode in
  ∃ n',
    insertOplogAndUpdateConfigForRetryable 1 (convertToNoOpWithReshardingTag Demo.s2t1a) n
    = (n', Ok StatusOK)
    ∧ localOplog n' = localOplog n
    ∧ sessionCatalog n' = sessionCatalog n
    ∧ collections n' = collections n.
Proof.
  cbv zeta.
  destruct (retryable_skipped 0 (convertToNoOpWithReshardingTag Demo.s2t1a) 2%N 1%Z 0%Z
              (set_sessionCatalog
                 {[(2%N : LogicalSessionId) := mkSessionState 5%Z [] nullOpTime false false]}
                 Demo.readyNode))
    as (n' & Hrun & Hlog & Hcat & Hcoll & _); try reflexivity.
  { left. vm_compute. reflexivity. }
  exists n'. split; [exact Hrun|]. split; [exact Hlog|]. split; [exact Hcat|]. exact Hcoll.
Defined.

(** X14 at work: slot 0 of the partition of two statements of one
    transaction holds their derived records, which go to the session
    handler. *)
Lemma writer_vector_records_witness :
  let self := Demo.applierWith 2 kStarted [] [Demo.s2t1a; Demo.s2t1b] in
  let rec := convertToNoOpWithReshardingTag Demo.s2t1b in
  let w := [convertToNoOpWithReshardingTag Demo.s2t1a; rec] in
  ∃ self' wv,
    _fillWriterVectors self = (self', Ok wv)
    ∧ wv !! 0 = Some w
    ∧ rec ∈ w
    ∧ ((rec ∈ _currentBatchToApply self
        ∧ getOpType rec ≠ kNoop
        ∧ _applyOplogEntryOrGroupedInserts (SingleEntry rec)
          = if isCrudOpType (getOpType rec) then applyOperation (SingleEntry rec)
            else applyCommand (SingleEntry rec))
       ∨ (∃ op, op ∈ _currentBatchToApply self
                ∧ inLastTxn (_currentBatchToApply self) op
                ∧ rec = convertToNoOpWithReshardingTag op
                ∧ _applyOplogEntryOrGroupedInserts (SingleEntry rec)
                  = insertOplogAndUpdateConfigForRetryable 2 rec)).
Proof.
  cbv zeta.
  destruct (_fillWriterVectors (Demo.applierWith 2 kStarted [] [Demo.s2t1a; Demo.s2t1b]))
    as [self' [wv| | |]] eqn:Hrun; try (vm_compute in Hrun; discriminate Hrun).
  assert (wv !! 0 = Some [convertToNoOpWithReshardingTag Demo.s2t1a;
                          convertToNoOpWithReshardingTag Demo.s2t1b]) as Hslot.
  { vm_compute in Hrun. injection Hrun as _ <-. reflexivity. }
  assert (convertToNoOpWithReshardingTag Demo.s2t1b
          ∈ [convertToNoOpWithReshardingTag Demo.s2t1a;
             convertToNoOpWithReshardingTag Demo.s2t1b]) as Hin
    by apply list_elem_of_further, list_elem_of_here.
  exists self', wv. split; [reflexivity|]. split; [exact Hslot|]. split; [exact Hin|].
  exact (writer_vector_records _ _ _ 0 _ _ Hrun eq_refl Hslot Hin).
Defined.

(** X15 at work: a batch that holds a prepared [applyOps]. *)
Lemma fillWriterVectors_failures_witness :
  let self := Demo.applierWith 2 kStarted [] [Demo.s2t1a; Demo.prepared] in
  ∃ self',
    _fillWriterVectors self = (self', Threw 5012000%Z)
    ∧ (∀ c, Threw 5012000%Z = Threw c :> Result WriterVectors →
            c = 5012000%Z ∨ c = 5012001%Z ∨ c = 4990401%Z).
Proof.
  cbv zeta.
  destruct (_fillWriterVectors (Demo.applierWith 2 kStarted [] [Demo.s2t1a; Demo.prepared]))
    as [self' r] eqn:Hrun.
  assert (r = Threw 5012000%Z) as -> by (vm_compute in Hrun; by injection Hrun as _ <-).
  exists self'. split; [reflexivity|].
  destruct (fillWriterVectors_failures
              (Demo.applierWith 2 kStarted [] [Demo.s2t1a; Demo.prepared]) _ _
              eq_refl ltac:(simpl; lia) Hrun) as [Hcodes _].
  exact Hcodes.
Defined.

(** X16 at work: a batch of one insert on a node that has the output
    collection; both writers report OK. *)
Lemma applyBatch_completes_witness :
  let sys1 := mkSystem (Demo.applierWith 2 kStarted [] [Demo.s2t1a]) Demo.readyNode ∅ in
  ∃ sys3,
    _applyBatch sys1 = (sys3, Ok tt)
    ∧ _currentApplyBatchPromise (applier sys3) = Some StatusOK
    ∧ _remainingWritersToWait (applier sys3) = 0
    ∧ length (_currentWriterVectors (applier sys3)) = 2.
Proof.
  cbv zeta.
  set (sys1 := mkSystem (Demo.applierWith 2 kStarted [] [Demo.s2t1a]) Demo.readyNode ∅).
  destruct (_fillWriterVectors (applier sys1)) as [self2 [wv| | |]] eqn:Hfill;
    try (vm_compute in Hfill; discriminate Hfill).
  destruct (forEachM runWriter wv
              (mkSystem (set_completion (length wv) StatusOK None
                           (set_currentWriterVectors wv self2))
                        (node sys1) (progressStore sys1)))
    as [sys3 r3] eqn:Hrun.
  assert (r3 = Ok tt ∧ _currentBatchConsolidatedStatus (applier sys3) = StatusOK)
    as [-> Hfinal].
  { vm_compute in Hfill. injection Hfill as <- <-.
    vm_compute in Hrun. injection Hrun as <- <-. split; reflexivity. }
  destruct (applyBatch_completes sys1 sys3 self2 wv ltac:(simpl; lia) Hfill Hrun)
    as (Hbatch & Hprom & Hrem & Hwv & Hlen).
  rewrite Hfinal in Hbatch, Hprom.
  exists sys3. split; [exact Hbatch|]. split; [exact Hprom|]. split; [exact Hrem|].
  rewrite Hwv. exact Hlen.
Defined.
